(** * Partitioning diagnostics: a shallow embedding of the repository's scripts

  The repository is a set of stand-alone Python scripts that inspect the
  CPU / cgroup / GPU bindings of a process and drive a timed load.  This
  development embeds the parts of

    - [mpi_cpu_test_buffers.py] / [mpi_mig_test.py]  (ring exchange),
    - [stress_long.py] / [ml_benchmark.py]            (probing, argparse, load),
    - [cpu_partition_stress.py]                       (pinned busy workers),
    - [train.py], [new_mig_setup/simple_test.py],
      [new_mig_setup/test_gpu_cpu.py]                 (cgroup and NUMA reads)

  that the specification talks about, and states the specification's
  sentences as theorems over the embedded code.

  Conventions.  Python [int] is [Z].  Wall-clock values ([time.time()],
  a float number of seconds) are exact integers counting milliseconds, so
  that [0.005] s, [1] s and [20] s are all integral; what is kept of the
  floats is their range: an integer converts to a float below
  [2^1024 - 2^970] only.  An operating-system
  or library call whose result the script cannot control (the clock, the
  accelerator runtime, the pseudo-file system, the scheduler) is a field
  of an explicit environment record. *)

From Stdlib Require Import ZArith Lia List Bool Ascii String.
From stdpp Require Import base tactics option list list_numbers strings gmap sorting
  pretty.

Local Open Scope Z_scope.

(** ** Ring exchange ([mpi_cpu_test_buffers.py], [mpi_mig_test.py]) *)

Module Ring.

(** [np.int32]: two's-complement 32-bit storage of a Python integer. *)
Definition int32 (z : Z) : Z := (z + 2 ^ 31) `mod` 2 ^ 32 - 2 ^ 31.

(** The largest communicator size: MPI ranks and sizes are C [int]s. *)
Definition INT_MAX : Z := 2 ^ 31 - 1.

(** [np.full(n, v, dtype=np.int32)] *)
Definition np_full (n : nat) (v : Z) : list Z := replicate n (int32 v).

(** [np.empty(n, dtype=np.int32)]: [n] cells of whatever the allocator
    left there; [junk] is that uninitialised memory. *)
Definition np_empty (junk : nat → Z) (n : nat) : list Z :=
  (λ i, int32 (junk i)) <$> seq 0 n.

(** [np.all(buf == v)] *)
Definition np_all_eq (buf : list Z) (v : Z) : bool :=
  forallb (λ x, x =? v) buf.

(** A posted non-blocking send and a posted non-blocking receive. *)
Record send_req := Isend
  { s_from : Z; s_dest : Z; s_tag : Z; s_buf : list Z }.
Record recv_req := Irecv
  { r_at : Z; r_source : Z; r_tag : Z; r_buf : list Z }.

(** What one participant posts (lines 22-34 / 105-118):
<<
    n = 8
    sendbuf = np.full(n, rank, dtype=np.int32)
    recvbuf = np.empty(n, dtype=np.int32)
    src = (rank - 1) % size
    dst = (rank + 1) % size
    reqs = [comm.Irecv(recvbuf, source=src, tag=100),
            comm.Isend(sendbuf, dest=dst, tag=100)]
>>
    Python's [%] takes the sign of the divisor, as [Z.modulo] does. *)
Definition n : nat := 8.
Definition src (rank size : Z) : Z := (rank - 1) `mod` size.
Definition dst (rank size : Z) : Z := (rank + 1) `mod` size.

Definition post_recv (junk : nat → Z) (rank size : Z) : recv_req :=
  Irecv rank (src rank size) 100 (np_empty junk n).
Definition post_send (rank size : Z) : send_req :=
  Isend rank (dst rank size) 100 (np_full n rank).

(** The communicator once every rank [0 .. size-1] has posted. *)
Definition ranks (size : Z) : list Z := seqZ 0 size.
Definition posted_sends (size : Z) : list send_req :=
  (λ r, post_send r size) <$> ranks size.
Definition posted_recvs (junk : Z → nat → Z) (size : Z) : list recv_req :=
  (λ r, post_recv (junk r) r size) <$> ranks size.

(** MPI matching: a receive takes the earliest posted send with its
    source, its own rank as destination and its tag; a send is taken by
    the earliest receive posted at its destination naming it as source. *)
Definition send_matches (r : recv_req) (s : send_req) : bool :=
  (s_from s =? r_source r) && (s_dest s =? r_at r) && (s_tag s =? r_tag r).
Definition recv_matches (s : send_req) (r : recv_req) : bool :=
  send_matches r s.

(** Delivery copies the payload over the front of the receive buffer; a
    payload longer than the buffer is a truncation error. *)
Definition deliver (r : recv_req) (s : send_req) : option (list Z) :=
  if (length (s_buf s) <=? length (r_buf r))%nat
  then Some (s_buf s ++ drop (length (s_buf s)) (r_buf r))
  else None.

(** [MPI.Request.Waitall(reqs)] at one rank: both requests must complete.
    [None] is a wait that never returns. *)
Definition waitall (sends : list send_req) (recvs : list recv_req)
    (r : recv_req) (s : send_req) : option (list Z) :=
  match find (send_matches r) sends, find (recv_matches s) recvs with
  | Some s', Some _ => deliver r s'
  | _, _ => None
  end.

Inductive outcome :=
| TooFewRanks                         (* size < 2: early return *)
| Stuck                               (* Waitall never completes *)
| Exchanged (recvbuf : list Z) (ok : bool).

(** The body of [main] for the participant [rank] of [size]. *)
Definition main (junk : Z → nat → Z) (size rank : Z) : outcome :=
  if size <? 2 then TooFewRanks
  else
    match waitall (posted_sends size) (posted_recvs junk size)
                  (post_recv (junk rank) rank size) (post_send rank size) with
    | None => Stuck
    | Some recvbuf => Exchanged recvbuf (np_all_eq recvbuf (src rank size))
    end.

End Ring.

(** ** The Python fragment the scripts rely on *)

Module Py.

(** Exceptions.  [except Exception] catches every class below except
    [SystemExit] and [KeyboardInterrupt], which derive from
    [BaseException] only. *)
Inductive exn :=
| OSError (errno : Z)          (* also FileNotFoundError, PermissionError *)
| UnicodeDecodeError
| IndexError
| TypeError
| AttributeError
| OverflowError                (* "int too large to convert to float" *)
| MemoryError
| RuntimeError (msg : string)
| KeyboardInterrupt
| SystemExit (code : Z).

Definition is_Exception (e : exn) : bool :=
  match e with
  | KeyboardInterrupt | SystemExit _ => false
  | _ => true
  end.

(** A computation either returns or raises. *)
Inductive res (A : Type) :=
| Ret (a : A)
| Raise (e : exn).
Global Arguments Ret {A} a.
Global Arguments Raise {A} e.

Definition bind {A B} (c : res A) (k : A → res B) : res B :=
  match c with
  | Ret a => k a
  | Raise e => Raise e
  end.

(** [try: c  except <catches>: h] *)
Definition try_except {A} (c : res A) (catches : exn → bool)
    (h : exn → res A) : res A :=
  match c with
  | Ret a => Ret a
  | Raise e => if catches e then h e else Raise e
  end.

(** [l[i]] *)
Definition index {A} (l : list A) (i : nat) : res A :=
  match l !! i with
  | Some a => Ret a
  | None => Raise IndexError
  end.

(** *** [str] methods (ASCII text) *)

(** The characters [str.strip()] removes: tab, LF, VT, FF, CR, the four
    separators FS/GS/RS/US and the space. *)
Definition is_space (c : ascii) : bool :=
  let k := nat_of_ascii c in
  ((9 <=? k) && (k <=? 13) || (28 <=? k) && (k <=? 32))%nat.

(** [s.lstrip(chars)] for a predicate on characters *)
Fixpoint lstrip_with (p : ascii → bool) (s : string) : string :=
  match s with
  | EmptyString => EmptyString
  | String c s' => if p c then lstrip_with p s' else s
  end.

Fixpoint rstrip_with (p : ascii → bool) (s : string) : string :=
  match s with
  | EmptyString => EmptyString
  | String c s' =>
      match rstrip_with p s' with
      | EmptyString => if p c then EmptyString else String c EmptyString
      | r => String c r
      end
  end.

(** [s.strip()] *)
Definition strip (s : string) : string :=
  rstrip_with is_space (lstrip_with is_space s).

(** [s.lstrip("/")] *)
Definition lstrip_slash (s : string) : string :=
  lstrip_with (λ c, Ascii.eqb c "/") s.

(** [s.startswith(p)] *)
Definition startswith (s p : string) : bool := String.prefix p s.

(** [s.endswith("/")] *)
Fixpoint endswith_slash (s : string) : bool :=
  match s with
  | EmptyString => false
  | String c EmptyString => Ascii.eqb c "/"
  | String _ s' => endswith_slash s'
  end.

(** [s.split(sep)] for a one-character separator: every occurrence
    splits, so the result has one more field than there are separators. *)
Fixpoint split (sep : ascii) (s : string) : list string :=
  match s with
  | EmptyString => [EmptyString]
  | String c s' =>
      if Ascii.eqb c sep then EmptyString :: split sep s'
      else match split sep s' with
           | f :: fs => String c f :: fs
           | [] => [String c EmptyString]
           end
  end.

(** [s.split(sep, 1)]: split at the first separator only. *)
Fixpoint split1 (sep : ascii) (s : string) : list string :=
  match s with
  | EmptyString => [EmptyString]
  | String c s' =>
      if Ascii.eqb c sep then [EmptyString; s']
      else match split1 sep s' with
           | f :: fs => String c f :: fs
           | [] => [String c EmptyString]
           end
  end.

(** [sep in s] for a one-character [sep] *)
Fixpoint contains (sep : ascii) (s : string) : bool :=
  match s with
  | EmptyString => false
  | String c s' => Ascii.eqb c sep || contains sep s'
  end.

(** [os.path.join(a, b)] on POSIX: an absolute [b] replaces [a];
    otherwise the two are joined by exactly one slash. *)
Definition path_join2 (a b : string) : string :=
  if startswith b "/" then b
  else if String.eqb a "" || endswith_slash a then a +:+ b
  else a +:+ "/" +:+ b.

(** [os.path.join(a, b, c)] *)
Definition path_join (a b c : string) : string :=
  path_join2 (path_join2 a b) c.

(** *** The pseudo-file system *)

(** What a file operation can raise. *)
Inductive io_error :=
| EOS (errno : Z)       (* OSError and its subclasses *)
| EDecode.              (* undecodable bytes in a text-mode read *)

Definition io_exn (e : io_error) : exn :=
  match e with
  | EOS n => OSError n
  | EDecode => UnicodeDecodeError
  end.

(** A path that exists either cannot be opened, or opens and then yields
    its lines one read at a time, any of which may fail instead. *)
Inductive file :=
| Unopenable (e : io_error)
| Opens (reads : list (io_error + string)).

Definition ENOENT : Z := 2.

Section FileSystem.
Variable fs : gmap string file.

(** [os.path.exists(p)] *)
Definition path_exists (p : string) : bool :=
  match fs !! p with Some _ => true | None => false end.

(** [open(p, "r")] *)
Definition open (p : string) : res (list (io_error + string)) :=
  match fs !! p with
  | None => Raise (OSError ENOENT)
  | Some (Unopenable e) => Raise (io_exn e)
  | Some (Opens reads) => Ret reads
  end.
End FileSystem.

(** [f.read()]: the whole content, or the first failure. *)
Fixpoint read (reads : list (io_error + string)) : res string :=
  match reads with
  | [] => Ret EmptyString
  | inl e :: _ => Raise (io_exn e)
  | inr l :: rest => bind (read rest) (λ s, Ret (l +:+ s))
  end.

(** Truthiness of an [Optional[str]]: [None] and [""] are false. *)
Definition truthy (o : option string) : bool :=
  match o with
  | None | Some EmptyString => false
  | Some _ => true
  end.

End Py.

(** ** The probing functions of [stress_long.py] and [ml_benchmark.py]

  The two files define [read_linux_cpu_affinity] and
  [read_linux_cgroup_cpuset] with the same bodies. *)

Module Probe.
Import Py.

Record os_env := OsEnv
  { os_name : string;                 (* os.name *)
    os_fs : gmap string file }.

(** The loop of [read_linux_cpu_affinity] over the opened status file:
<<
    for line in f:
        if line.startswith("Cpus_allowed_list:"):
            return line.split(":", 1)[1].strip()
>>
    [Ret None] is falling out of the loop. *)
Fixpoint scan_status (reads : list (io_error + string))
    : res (option string) :=
  match reads with
  | [] => Ret None
  | inl e :: _ => Raise (io_exn e)
  | inr line :: rest =>
      if startswith line "Cpus_allowed_list:"
      then bind (index (split1 ":" line) 1) (λ v, Ret (Some (strip v)))
      else scan_status rest
  end.

Definition read_linux_cpu_affinity (w : os_env) : res (option string) :=
  if negb (String.eqb (os_name w) "posix")
     || negb (path_exists (os_fs w) "/proc/self/status")
  then Ret None
  else
    try_except
      (bind (open (os_fs w) "/proc/self/status") scan_status)
      is_Exception (λ _, Ret None).

(** The inner [try] of [read_linux_cgroup_cpuset]:
<<
    try:
        with open(cpuset_path, "r") as cf:
            return cf.read().strip()
    except Exception:
        return None
>> *)
Definition read_cpuset (fs : gmap string file) (cpuset_path : string)
    : res (option string) :=
  try_except
    (bind (open fs cpuset_path) (λ cf,
     bind (read cf) (λ s, Ret (Some (strip s)))))
    is_Exception (λ _, Ret None).

(** The path probed for one line of [/proc/self/cgroup], when the line
    has the three-field form [0:<controllers>:<path>]. *)
Definition cpuset_path_of (line : string) : option string :=
  match split ":" (strip line) with
  | [p0; _; p2] =>
      if String.eqb p0 "0"
      then Some (path_join "/sys/fs/cgroup" (lstrip_slash p2) "cpuset.cpus")
      else None
  | _ => None
  end.

(** The loop over the opened cgroup file.  A line whose cpuset file does
    not exist is passed over; the first one that exists decides. *)
Fixpoint scan_cgroup (fs : gmap string file)
    (reads : list (io_error + string)) : res (option string) :=
  match reads with
  | [] => Ret None
  | inl e :: _ => Raise (io_exn e)
  | inr line :: rest =>
      match cpuset_path_of line with
      | Some cpuset_path =>
          if path_exists fs cpuset_path then read_cpuset fs cpuset_path
          else scan_cgroup fs rest
      | None => scan_cgroup fs rest
      end
  end.

Definition read_linux_cgroup_cpuset (w : os_env) : res (option string) :=
  if negb (String.eqb (os_name w) "posix") then Ret None
  else if negb (path_exists (os_fs w) "/proc/self/cgroup") then Ret None
  else
    try_except
      (bind (open (os_fs w) "/proc/self/cgroup") (scan_cgroup (os_fs w)))
      is_Exception (λ _, Ret None).

(** The lines of the report that the probes contribute
    ([main] of [stress_long.py] lines 109-114, [print_device_info] of
    [ml_benchmark.py] lines 144-149): a field is printed only when its
    probe returned a non-empty string. *)
Inductive field :=
| CpuAffinity (v : string)     (* "CPU affinity (Cpus_allowed_list): v" *)
| CgroupCpuset (v : string).   (* "Cgroup cpuset.cpus: v" *)

Definition print_if (mk : string → field) (o : option string) : list field :=
  match o with
  | Some v => if truthy o then [mk v] else []
  | None => []
  end.

Definition report_fields (w : os_env) : res (list field) :=
  bind (read_linux_cpu_affinity w) (λ cpu_aff,
  bind (read_linux_cgroup_cpuset w) (λ cg_cpuset,
  Ret (print_if CpuAffinity cpu_aff ++ print_if CgroupCpuset cg_cpuset))).

(** *** Vocabulary for the statements about the probes *)

(** A computation is [guarded] when everything it can raise is an
    [Exception], so that [except Exception] absorbs it. *)
Definition guarded {A} (c : res A) : Prop :=
  ∀ e, c = Raise e → is_Exception e = true.

(** The text of a file whose reads all succeed. *)
Definition text (lines : list string) : string :=
  foldr String.append EmptyString lines.

(** [clean_status fs s]: the status file opened, every line up to the
    first [Cpus_allowed_list:] line was read without error, and [s] is
    that line's value. *)
Definition clean_status (fs : gmap string file) (s : string) : Prop :=
  ∃ before line rest v,
    fs !! "/proc/self/status"%string
      = Some (Opens ((inr <$> before) ++ inr line :: rest)) ∧
    Forall (λ l, startswith l "Cpus_allowed_list:" = false) before ∧
    startswith line "Cpus_allowed_list:" = true ∧
    split1 ":" line !! 1%nat = Some v ∧ s = strip v.

(** [clean_cgroup fs s]: the cgroup file opened, every line up to the
    deciding one was read without error, the deciding line names a
    cpuset file that exists, opens and is read without error, and [s]
    is its stripped text. *)
Definition clean_cgroup (fs : gmap string file) (s : string) : Prop :=
  ∃ before line rest p content,
    fs !! "/proc/self/cgroup"%string
      = Some (Opens ((inr <$> before) ++ inr line :: rest)) ∧
    cpuset_path_of line = Some p ∧
    fs !! p = Some (Opens (inr <$> content)) ∧
    s = strip (text content).

(** A Linux host in control group [/mig/mig0] whose cpuset is [0-3]. *)
Definition mig0_host : os_env :=
  OsEnv "posix"
    (<["/proc/self/status"%string :=
         Opens [inr "Name:	python3
"%string; inr "Cpus_allowed_list:	0-3
"%string; inr "Mems_allowed_list:	0
"%string]]>
     (<["/proc/self/cgroup"%string :=
          Opens [inr "1:name=systemd:/user.slice
"%string; inr "0::/mig/mig0
"%string]]>
     (<["/sys/fs/cgroup/mig/mig0/cpuset.cpus"%string :=
          Opens [inr "0-3
"%string]]> ∅))).

End Probe.

(** ** Command lines: [argparse] as the two [main]s use it

    Both parsers are built the same way: [ArgumentParser(description=...)]
    followed by [add_argument("--name", type=int, default=d)] calls (and one
    [action="store_true"] in [ml_benchmark.py]), then [parse_args()].  The
    model follows CPython 3.11's [argparse] for such parsers: every
    registered option is a long option, [-h] / [--help] are added by the
    library, abbreviations are allowed, there are no positionals.
    Argument strings are ASCII text. *)

Module Argparse.
Import Py.

Inductive action :=
| StoreInt (dest : string)       (* type=int, nargs=None *)
| StoreTrue (dest : string)      (* action="store_true" *)
| Help.                          (* -h / --help *)

Inductive value :=
| VInt (z : Z)
| VBool (b : bool)
| VEmptyList.   (* an int option given as [--name=--] is left with [[]] *)

(** [long_options] are the registered names without their leading [--]. *)
Record parser := Parser
  { long_options : list (string * action);
    defaults : gmap string value }.

(** [parser._option_string_actions], in registration order *)
Definition option_strings (P : parser) : list (string * action) :=
  ("-h"%string, Help) :: ("--help"%string, Help)
  :: ((λ na, ("--" +:+ na.1, na.2)) <$> long_options P).

Fixpoint assoc {A} (k : string) (l : list (string * A)) : option A :=
  match l with
  | [] => None
  | (k', a) :: l' => if String.eqb k' k then Some a else assoc k l'
  end.

(** *** [int(s)] for a string

    The interpreter's bound on the number of digits of such a string (a
    setting of the interpreter, 4300 where it is on) is not part of this
    model. *)

Definition is_digit (c : ascii) : bool :=
  let k := nat_of_ascii c in ((48 <=? k) && (k <=? 57))%nat.

Definition digit_value (c : ascii) : Z := Z.of_nat (nat_of_ascii c) - 48.

(** The white space [int()] skips: tab, LF, VT, FF, CR, space. *)
Definition is_int_space (c : ascii) : bool :=
  let k := nat_of_ascii c in (((9 <=? k) && (k <=? 13)) || (k =? 32))%nat.

(** Decimal digits, single underscores allowed between two digits. *)
Fixpoint digits (s : string) (acc : Z) (after_digit : bool) : option Z :=
  match s with
  | EmptyString => if after_digit then Some acc else None
  | String c s' =>
      if is_digit c then digits s' (10 * acc + digit_value c) true
      else if Ascii.eqb c "_" && after_digit then digits s' acc false
      else None
  end.

Definition python_int (s : string) : option Z :=
  match rstrip_with is_int_space (lstrip_with is_int_space s) with
  | String "-" r => Z.opp <$> digits r 0 false
  | String "+" r => digits r 0 false
  | t => digits t 0 false
  end.

(** *** Classifying the argument strings ([_parse_optional]) *)

Inductive token :=
| TArg (s : string)                                  (* pattern 'A' *)
| TSep                                               (* the first [--] *)
| TOpt (a : action) (opt : string) (explicit : option string)
| TUnknown (s : string).                             (* 'O', no action *)

Fixpoint all_digits (s : string) : bool :=
  match s with
  | EmptyString => true
  | String c s' => is_digit c && all_digits s'
  end.

Definition nonempty (s : string) : bool :=
  match s with EmptyString => false | _ => true end.

(** [^\d+$] or [^\d*\.\d+$] on the text after the minus sign *)
Definition number_body (s : string) : bool :=
  (nonempty s && all_digits s)
  || match split1 "." s with
     | [i; f] => all_digits i && nonempty f && all_digits f
     | _ => false
     end.

Fixpoint chop_newline (s : string) : string :=
  match s with
  | EmptyString => EmptyString
  | String c EmptyString => if Ascii.eqb c "010" then EmptyString else s
  | String c s' => String c (chop_newline s')
  end.

(** [_negative_number_matcher]; [$] also matches before a final newline. *)
Definition is_negative_number (s : string) : bool :=
  match s with
  | String "-" body => number_body body || number_body (chop_newline body)
  | _ => false
  end.

(** [option_string[1] not in prefix_chars] *)
Definition single_dash (opt : string) : bool :=
  match opt with
  | String _ (String c _) => negb (Ascii.eqb c "-")
  | _ => false
  end.

(** [_get_option_tuples]: the abbreviations [tok] may stand for. *)
Definition option_tuples (P : parser) (tok : string)
    : list (action * string * option string) :=
  if single_dash tok then
    let short := String.substring 0 2 tok in
    let short_explicit := String.substring 2 (String.length tok - 2) tok in
    omap (λ oa : string * action,
            if String.eqb oa.1 short then Some (oa.2, oa.1, Some short_explicit)
            else if startswith oa.1 tok then Some (oa.2, oa.1, None)
            else None) (option_strings P)
  else
    let pe := if contains "=" tok
              then match split1 "=" tok with
                   | [p; e] => (p, Some e)
                   | _ => (tok, None)
                   end
              else (tok, None) in
    omap (λ oa : string * action,
            if startswith oa.1 pe.1 then Some (oa.2, oa.1, pe.2) else None)
         (option_strings P).

(** The option named exactly by the text before the first [=]. *)
Definition exact_with_explicit (P : parser) (tok : string) : option token :=
  if contains "=" tok then
    match split1 "=" tok with
    | [o; e] => (λ a, TOpt a o (Some e)) <$> assoc o (option_strings P)
    | _ => None
    end
  else None.

(** [None] is the "ambiguous option" error. *)
Definition classify_one (P : parser) (tok : string) : option token :=
  match tok with
  | EmptyString => Some (TArg tok)
  | String c0 _ =>
      if negb (Ascii.eqb c0 "-") then Some (TArg tok)
      else
        match assoc tok (option_strings P) with
        | Some a => Some (TOpt a tok None)
        | None =>
            if (String.length tok =? 1)%nat then Some (TArg tok)
            else
              match exact_with_explicit P tok with
              | Some t => Some t
              | None =>
                  match option_tuples P tok with
                  | [(a, o, e)] => Some (TOpt a o e)
                  | _ :: _ :: _ => None
                  | [] =>
                      if is_negative_number tok then Some (TArg tok)
                      else if contains " " tok then Some (TArg tok)
                      else Some (TUnknown tok)
                  end
              end
        end
  end.

(** The first pass of [_parse_known_args]: everything after the first
    [--] is an argument. *)
Fixpoint classify (P : parser) (argv : list string) : option (list token) :=
  match argv with
  | [] => Some []
  | tok :: rest =>
      if String.eqb tok "--" then Some (TSep :: (TArg <$> rest))
      else
        match classify_one P tok, classify P rest with
        | Some t, Some ts => Some (t :: ts)
        | _, _ => None
        end
  end.

(** *** Consuming the tokens *)

Inductive result :=
| Parsed (ns : gmap string value)
| Exit (code : Z).       (* [parser.error] exits 2, [--help] exits 0 *)

(** [_get_values] for [nargs=None]: a lone [--] is dropped first, which
    leaves an empty list; anything else goes through [int]. *)
Definition get_value (s : string) : option value :=
  if String.eqb s "--" then Some VEmptyList else VInt <$> python_int s.

(** The tail of a clustered short option ([-hh]): every further character
    must name a registered short option.  [-h] is the only one. *)
Fixpoint short_cluster (P : parser) (e : string) : bool :=
  match e with
  | EmptyString => true
  | String c e' =>
      match assoc (String "-" (String c EmptyString)) (option_strings P) with
      | Some Help => short_cluster P e'
      | _ => false
      end
  end.

(** The second pass.  [extras] collects what no option took; the parser
    has no positional to give it to. *)
Fixpoint consume (P : parser) (ts : list token) (ns : gmap string value)
    (extras : list string) : result :=
  match ts with
  | [] => match extras with [] => Parsed ns | _ => Exit 2 end
  | TArg s :: rest => consume P rest ns (extras ++ [s])
  | TSep :: rest => consume P rest ns (extras ++ ["--"%string])
  | TUnknown s :: rest => consume P rest ns (extras ++ [s])
  | TOpt (StoreInt dest) _ (Some e) :: rest =>
      match get_value e with
      | Some v => consume P rest (<[dest := v]> ns) extras
      | None => Exit 2                         (* invalid int value *)
      end
  | TOpt (StoreInt dest) _ None :: TArg s :: rest =>
      match get_value s with
      | Some v => consume P rest (<[dest := v]> ns) extras
      | None => Exit 2                         (* invalid int value *)
      end
  | TOpt (StoreInt dest) _ None :: _ => Exit 2   (* expected one argument *)
  | TOpt (StoreTrue dest) _ None :: rest =>
      consume P rest (<[dest := VBool true]> ns) extras
  | TOpt (StoreTrue dest) _ (Some _) :: _ => Exit 2  (* ignored explicit arg *)
  | TOpt Help _ None :: _ => Exit 0
  | TOpt Help opt (Some e) :: _ =>
      if single_dash opt && nonempty e && short_cluster P e then Exit 0
      else Exit 2                               (* ignored explicit arg *)
  end.

(** [parser.parse_args(argv)] *)
Definition parse_args (P : parser) (argv : list string) : result :=
  match classify P argv with
  | None => Exit 2                              (* ambiguous option *)
  | Some ts => consume P ts (defaults P) []
  end.

(** [stress_long.py], lines 88-92 *)
Definition stress_parser : parser :=
  Parser [("seconds"%string, StoreInt "seconds");
          ("cpu-threads"%string, StoreInt "cpu_threads");
          ("matrix"%string, StoreInt "matrix")]
         (<["seconds"%string := VInt 180]>
          (<["cpu_threads"%string := VInt 8]>
          (<["matrix"%string := VInt 4096]> ∅))).

(** [ml_benchmark.py], lines 154-160 *)
Definition benchmark_parser : parser :=
  Parser [("steps"%string, StoreInt "steps");
          ("batch-size"%string, StoreInt "batch_size");
          ("input-dim"%string, StoreInt "input_dim");
          ("num-classes"%string, StoreInt "num_classes");
          ("gpu-first"%string, StoreTrue "gpu_first")]
         (<["steps"%string := VInt 100]>
          (<["batch_size"%string := VInt 256]>
          (<["input_dim"%string := VInt 4096]>
          (<["num_classes"%string := VInt 1000]>
          (<["gpu_first"%string := VBool false]> ∅))))).

(** *** Vocabulary for the statements about the parsers *)

Definition dest_of (a : action) : option string :=
  match a with
  | StoreInt d | StoreTrue d => Some d
  | Help => None
  end.

(** A flag the parser does not know: it looks like an option and no
    registered option, nor any abbreviation of one, matches it. *)
Definition unrecognised (P : parser) (tok : string) : Prop :=
  classify_one P tok = Some (TUnknown tok).

(** A token that no option can take as its argument. *)
Definition stray (t : token) : Prop :=
  match t with
  | TUnknown _ | TSep => True
  | _ => False
  end.

(** No argument string of [argv] selects the option stored at [dest]. *)
Definition flag_missing (P : parser) (argv : list string) (dest : string)
    : Prop :=
  ∀ tok a opt e,
    tok ∈ argv → classify_one P tok = Some (TOpt a opt e) →
    dest_of a ≠ Some dest.

End Argparse.

(** ** Threads, clocks and the observable trace *)

Module Load.
Import Py.

(** [time.time()] as one thread reads it: the list holds the successive
    values the calls return, in milliseconds.  A thread that has used up
    its list is never seen to move again: the call in progress (a kernel
    launch, a sleep, the scheduler) does not come back. *)
Definition clock := list Z.

Inductive device := Cpu | Cuda.

Definition is_cuda (d : device) : bool :=
  match d with Cuda => true | Cpu => false end.

(** [threading.Thread(target=..., args=(...,), daemon=...)] *)
Inductive target :=
| CpuBurn (stop_time : Z)        (* stress_long.py *)
| CpuBurner (cpu : Z).           (* cpu_partition_stress.py *)

(** What the scripts print. *)
Inductive line :=
| LSetupHeader                   (* "=== Stress setup ===" *)
| LPlatform                      (* "Platform: ..." *)
| LPython                        (* "Python: ..." *)
| LCudaVisibleDevices            (* "CUDA_VISIBLE_DEVICES: ..." *)
| LCudaAvailable                 (* "CUDA available: True  Device index: ..." *)
| LCudaDeviceCount               (* "CUDA device count (visible): ..." *)
| LCudaUnavailable  (* "CUDA available: False - will run GPU loop on CPU device" *)
| LField (f : Probe.field)
| LSetupFooter                   (* "====================" *)
| LGpuLoopError (msg : string)   (* "GPU loop error: msg" *)
| LDone                          (* "Done." *)
| LHostPid (host : string) (pid : Z)   (* "Host: h PID: p" *)
| LAllowedCpus (affinity : list Z)     (* "Allowed CPUs (affinity): [...]" *)
| LLaunching (k : nat)           (* "Launching k workers (one per allowed CPU)" *)
| LDoneLoaded                    (* "Done. All allowed CPUs should have ..." *)
| LCheckMpstat.                  (* "Check with mpstat or sar logs ..." *)

Inductive event :=
| Print (l : line)
| ThreadStart (tg : target) (daemon : bool)
| Randn (d : device) (rows cols : Z)      (* torch.randn(n, n, device=d) *)
| Matmul (d : device)                     (* x = x @ x *)
| CudaSynchronize                         (* torch.cuda.synchronize() *)
| Sleep (millis : Z)                      (* time.sleep(0.005) *)
| Join (thread : nat) (timeout : option Z).

(** How a started thread ends. *)
Inductive thread_end :=
| Exited (at_time : Z)
| Died (e : exn)
| Hung.

(** How the main thread ends: it returns at some time, dies of an
    uncaught exception, or never comes back. *)
Inductive finish :=
| Returns (at_time : Z)
| Raises (e : exn)
| Blocks.

Record outcome := Outcome
  { trace : list event;
    threads : list thread_end;     (* in the order they were started *)
    ending : finish }.

(** [t.join(timeout)] called at time [now]: the time at which the call
    returns, [None] when it never does.  [timeout = None] is [t.join()]. *)
Definition join (timeout : option Z) (now : Z) (t : thread_end) : option Z :=
  match t, timeout with
  | Died _, _ => Some now
  | Exited e, None => Some (Z.max now e)
  | Exited e, Some d => Some (if e <=? now + d then Z.max now e else now + d)
  | Hung, None => None
  | Hung, Some d => Some (now + d)
  end.

(** [for t in threads: t.join(timeout)], the threads numbered from [i]. *)
Fixpoint join_all (timeout : option Z) (i : nat) (ts : list thread_end)
    (now : Z) : list event * option Z :=
  match ts with
  | [] => ([], Some now)
  | t :: ts' =>
      match join timeout now t with
      | None => ([Join i timeout], None)
      | Some now' =>
          let r := join_all timeout (S i) ts' now' in
          (Join i timeout :: r.1, r.2)
      end
  end.

(** The exit status of the process once the main thread has ended.  The
    interpreter waits for the threads that are not daemons; a daemon thread
    is abandoned.  [None]: the process never exits. *)
Definition exit_status (daemon : bool) (o : outcome) : option Z :=
  match ending o with
  | Blocks => None
  | Raises (SystemExit c) => Some c
  | Raises _ => Some 1
  | Returns _ =>
      if daemon then Some 0
      else if forallb (λ t, match t with Hung => false | _ => true end)
                      (threads o)
           then Some 0 else None
  end.

(** [sum(range(n))]: [i] runs over [0 .. n-1] and is added to the total. *)
Definition sum_range (n : Z) : Z :=
  (Z.iter n (λ p : Z * Z, (p.1 + 1, p.2 + p.1)) (0, 0)).2.

Definition is_thread_start (e : event) : bool :=
  match e with ThreadStart _ _ => true | _ => false end.

Definition thread_events (o : outcome) : list event :=
  List.filter is_thread_start (trace o).

(** The number of clock readings before the first one at or past [t]:
    the number of times a loop [while time.time() < t] goes round. *)
Fixpoint readings_before (c : clock) (t : Z) : nat :=
  match c with
  | [] => 0%nat
  | now :: later => if now <? t then S (readings_before later t) else 0%nat
  end.

End Load.

(** ** [stress_long.py] *)

Module StressLong.
Import Py Argparse Load.

(** [cpu_burn(stop_time)], lines 68-73:
<<
    s = 0
    while time.time() < stop_time:
        s += sum(range(50000))
    return s
>>
    [Some (t, s)]: the loop left at the reading [t] with the sum [s];
    [work] is what one turn adds. *)
Fixpoint cpu_burn_from (work s : Z) (c : clock) (stop_time : Z)
    : option (Z * Z) :=
  match c with
  | [] => None
  | now :: later =>
      if now <? stop_time
      then cpu_burn_from work (s + work) later stop_time
      else Some (now, s)
  end.

Definition cpu_burn (c : clock) (stop_time : Z) : option (Z * Z) :=
  cpu_burn_from (sum_range 50000) 0 c stop_time.

(** The thread running [cpu_burn]. *)
Definition burner_thread (c : clock) (stop_time : Z) : thread_end :=
  match cpu_burn c stop_time with
  | Some (t, _) => Exited t
  | None => Hung
  end.

(** The largest float, and the least integer that [float + int] cannot
    convert to a float: the conversion rounds to nearest, so the integers
    up to half-way between [DBL_MAX] and [2^1024] still convert. *)
Definition DBL_MAX : Z := 2 ^ 1024 - 2 ^ 971.
Definition FLOAT_LIMIT : Z := 2 ^ 1024 - 2 ^ 970.

(** What [time.time()] can return in the main thread: a finite float of
    seconds since the epoch, here in milliseconds. *)
Definition is_time (t : Z) : bool := (0 <=? t) && (t <=? 1000 * DBL_MAX).

(** The accelerator runtime and the rest of the environment of one run.
    A fault is the message of the [RuntimeError] the call raises. *)
Record env := Env
  { cuda_available : bool;                      (* torch.cuda.is_available() *)
    randn_fault : device → Z → option string;   (* torch.randn *)
    matmul_fault : nat → option string;         (* the k-th [x @ x] *)
    sync_fault : nat → option string;           (* the k-th synchronize *)
    os : Probe.os_env;
    now0 : Z;                        (* time.time() at line 117 *)
    main_clock : clock;              (* time.time() inside gpu_loop *)
    worker_clock : nat → clock;      (* time.time() inside worker i *)
    main_reads_floats :              (* the main thread's readings are floats *)
      is_time now0 && forallb is_time main_clock = true }.

(** The loop of [gpu_loop], lines 79-84; [k] counts the iterations done
    and [last] is the latest clock value seen.  The result carries the
    events, the latest clock value and how the loop ended ([None]: it
    returned). *)
Fixpoint gpu_iterate (E : env) (d : device) (stop_time : Z) (k : nat)
    (last : Z) (c : clock) : list event * Z * option finish :=
  match c with
  | [] => ([], last, Some Blocks)
  | now :: later =>
      if now <? stop_time then
        match matmul_fault E k with
        | Some msg => ([Matmul d], now, Some (Raises (RuntimeError msg)))
        | None =>
            if is_cuda d then
              match sync_fault E k with
              | Some msg =>
                  ([Matmul d; CudaSynchronize], now,
                   Some (Raises (RuntimeError msg)))
              | None =>
                  let r := gpu_iterate E d stop_time (S k) now later in
                  (Matmul d :: CudaSynchronize :: Sleep 5 :: r.1.1,
                   r.1.2, r.2)
              end
            else
              let r := gpu_iterate E d stop_time (S k) now later in
              (Matmul d :: Sleep 5 :: r.1.1, r.1.2, r.2)
        end
      else ([], now, None)
  end.

(** [gpu_loop(device, n, stop_time)], lines 76-84 *)
Definition gpu_loop (E : env) (d : device) (n : Z) (stop_time : Z)
    : list event * Z * option finish :=
  match randn_fault E d n with
  | Some msg => ([Randn d n n], now0 E, Some (Raises (RuntimeError msg)))
  | None =>
      let r := gpu_iterate E d stop_time 0 (now0 E) (main_clock E) in
      (Randn d n n :: r.1.1, r.1.2, r.2)
  end.

(** An attribute of the parsed namespace used as an integer: [max(5, v)],
    [max(1, v)] and [torch.randn(v, v)] raise [TypeError] on a list. *)
Definition int_attr (ns : gmap string value) (name : string) : res Z :=
  match ns !! name with
  | Some (VInt z) => Ret z
  | Some _ => Raise TypeError
  | None => Raise AttributeError
  end.

(** [time.time() + max(5, args.seconds)], line 117, for the reading [now]:
    the integer is converted to a float before the sum is taken, and that
    raises [OverflowError] from [FLOAT_LIMIT] on. *)
Definition stop_time_at (now seconds : Z) : res Z :=
  if FLOAT_LIMIT <=? Z.max 5 seconds then Raise OverflowError
  else Ret (now + 1000 * Z.max 5 seconds).

(** Device selection, lines 98-108. *)
Definition select_device (E : env) : list line * device :=
  if cuda_available E
  then ([LCudaAvailable; LCudaDeviceCount], Cuda)
  else ([LCudaUnavailable], Cpu).

(** Everything printed before the load starts, lines 94-115. *)
Definition setup_lines (E : env) (fields : list Probe.field) : list line :=
  [LSetupHeader; LPlatform; LPython; LCudaVisibleDevices]
  ++ (select_device E).1 ++ (LField <$> fields) ++ [LSetupFooter].

(** Lines 119-124: [max(1, cpu_threads)] daemon threads, all given the one
    [stop_time]. *)
Definition burner_count (cpu_threads : Z) : nat := Z.to_nat (Z.max 1 cpu_threads).

Definition start_burners (cpu_threads stop_time : Z) : list event :=
  replicate (burner_count cpu_threads) (ThreadStart (CpuBurn stop_time) true).

Definition burner_threads (E : env) (cpu_threads stop_time : Z)
    : list thread_end :=
  (λ i, burner_thread (worker_clock E i) stop_time)
    <$> seq 0 (burner_count cpu_threads).

(** Lines 126-136, once the burners run: the GPU loop in the main thread
    under [except RuntimeError], the joins with [timeout=1], "Done.". *)
Definition gpu_and_join (E : env) (d : device) (matrix stop_time : Z)
    (ts : list thread_end) : list event * finish :=
  let g := gpu_loop E d matrix stop_time in
  let joined (evs : list event) :=
    let j := join_all (Some 1000) 0 ts g.1.2 in
    match j.2 with
    | Some t => (evs ++ j.1 ++ [Print LDone], Returns t)
    | None => (evs ++ j.1, Blocks)
    end in
  match g.2 with
  | None => joined g.1.1
  | Some (Raises (RuntimeError msg)) =>
      joined (g.1.1 ++ [Print (LGpuLoopError msg)])
  | Some f => (g.1.1, f)
  end.

(** [main()], lines 87-136, on the command line [argv].  The module has
    imported [torch] by then (lines 22-28 end the process otherwise); a
    rejected command line ends [main] in [SystemExit] before anything is
    printed on standard output. *)
Definition main (E : env) (argv : list string) : outcome :=
  match parse_args stress_parser argv with
  | Exit c => Outcome [] [] (Raises (SystemExit c))
  | Parsed args =>
      match Probe.report_fields (os E) with
      | Raise e => Outcome (Print <$> [LSetupHeader; LPlatform; LPython;
                                       LCudaVisibleDevices]
                                      ++ (select_device E).1) [] (Raises e)
      | Ret fields =>
          let setup := Print <$> setup_lines E fields in
          let device := (select_device E).2 in
          match int_attr args "seconds" with
          | Raise e => Outcome setup [] (Raises e)
          | Ret seconds =>
              match stop_time_at (now0 E) seconds with
              | Raise e => Outcome setup [] (Raises e)
              | Ret stop_time =>
                  match int_attr args "cpu_threads" with
                  | Raise e => Outcome setup [] (Raises e)
                  | Ret cpu_threads =>
                      let started := start_burners cpu_threads stop_time in
                      let ts := burner_threads E cpu_threads stop_time in
                      match int_attr args "matrix" with
                      | Raise e => Outcome (setup ++ started) ts (Raises e)
                      | Ret matrix =>
                          let r := gpu_and_join E device matrix stop_time ts in
                          Outcome (setup ++ started ++ r.1) ts r.2
                      end
                  end
              end
          end
      end
  end.

(** *** Vocabulary for the statements about [main] *)

(** The number of threads a run starts. *)
Definition threads_started (o : outcome) : nat := length (thread_events o).

(** The events of the accelerator loop in a trace. *)
Definition is_gpu_event (e : event) : bool :=
  match e with
  | Randn _ _ _ | Matmul _ | CudaSynchronize => true
  | _ => false
  end.

Definition gpu_events (o : outcome) : list event :=
  List.filter is_gpu_event (trace o).

Definition is_matmul (e : event) : bool :=
  match e with Matmul _ => true | _ => false end.

(** The number of products [x @ x] of a run. *)
Definition products (o : outcome) : nat :=
  length (List.filter is_matmul (trace o)).

(** The accelerator loop was skipped: the run did no accelerator work. *)
Definition gpu_loop_skipped (o : outcome) : Prop := gpu_events o = [].

Definition is_join (e : event) : bool :=
  match e with Join _ _ => true | _ => false end.

(** The joins of a run, in order. *)
Definition join_events (o : outcome) : list event :=
  List.filter is_join (trace o).

(** The deadline of a run asked to last [seconds]. *)
Definition deadline (E : env) (seconds : Z) : Z :=
  now0 E + 1000 * Z.max 5 seconds.

(** The clock of a thread reaches the time [t]. *)
Definition reaches (c : clock) (t : Z) : Prop := ∃ now, now ∈ c ∧ t ≤ now.

(** A run on a host without CUDA, with no fault, whose clocks pass the
    three-minute default deadline. *)
Definition quiet_env : env :=
  Env false (λ _ _, None) (λ _, None) (λ _, None)
      (Probe.OsEnv "posix" ∅) 0 [60000; 120000; 180000] (λ _, [0; 180001])
      eq_refl.

(** The same host with workers that never see their deadline pass. *)
Definition stuck_workers_env : env :=
  Env false (λ _ _, None) (λ _, None) (λ _, None)
      (Probe.OsEnv "posix" ∅) 0 [60000; 120000; 180000] (λ _, [0])
      eq_refl.

(** A host without CUDA on which the matrix cannot be allocated, the
    workers' clocks passing the three-minute default deadline. *)
Definition no_memory_env : env :=
  Env false (λ _ _, Some "not enough memory"%string) (λ _, None) (λ _, None)
      (Probe.OsEnv "posix" ∅) 0 [60000; 120000; 180000] (λ _, [0; 180001])
      eq_refl.

(** A duration of [10^400] seconds, as it is written on a command line. *)
Definition huge_seconds : string :=
  "1" +:+ String.concat "" (replicate 400 "0"%string).

(** What one turn of the accelerator loop does on a device. *)
Definition turn (d : device) : list event :=
  if is_cuda d then [Matmul d; CudaSynchronize; Sleep 5] else [Matmul d; Sleep 5].

(** No accelerator call of the run raises. *)
Definition fault_free (E : env) : Prop :=
  (∀ d n, randn_fault E d n = None) ∧
  (∀ k, matmul_fault E k = None) ∧
  (∀ k, sync_fault E k = None).

(** A host with CUDA on which the second product fails. *)
Definition faulty_env : env :=
  Env true (λ _ _, None)
      (λ k, if (k =? 1)%nat then Some "CUDA error: unspecified launch failure"%string
            else None)
      (λ _, None)
      (Probe.OsEnv "posix" ∅) 0 [60000; 120000; 180000] (λ _, [0; 180001])
      eq_refl.

End StressLong.

(** ** [cpu_partition_stress.py] *)

Module Partition.
Import Py Load.

Record env := Env
  { sched_getaffinity : res (gset Z);   (* os.sched_getaffinity(0) *)
    cpu_count : option Z;               (* os.cpu_count(); None is possible *)
    hostname : string;
    pid : Z;
    sched_setaffinity : Z → res unit;   (* os.sched_setaffinity(0, {cpu}) *)
    join_start : Z;                     (* the time the main thread reaches
                                           the joins *)
    worker_clock : nat → clock }.       (* time.time() inside worker i *)

(** [sorted(s)] for a set of integers *)
Definition sorted (s : gset Z) : list Z := merge_sort Z.le (elements s).

(** [list(range(n))]; [range(None)] is a [TypeError]. *)
Definition range (n : option Z) : res (list Z) :=
  match n with
  | Some n => Ret (seqZ 0 n)
  | None => Raise TypeError
  end.

(** Lines 13-16:
<<
    try:
        affinity = sorted(os.sched_getaffinity(0))
    except Exception:
        affinity = list(range(os.cpu_count()))
>> *)
Definition affinity (E : env) : res (list Z) :=
  try_except (bind (sched_getaffinity E) (λ s, Ret (sorted s)))
             is_Exception (λ _, range (cpu_count E)).

(** The loop of [cpu_burner], lines 31-33: [t0] is the first reading. *)
Fixpoint burn (t0 : Z) (c : clock) : thread_end :=
  match c with
  | [] => Hung
  | now :: later => if now - t0 <? 20000 then burn t0 later else Exited now
  end.

(** What one worker does: the CPU it asked to be pinned to, whether the
    request was granted, what it printed, how it ended. *)
Record worker := Worker
  { pin_request : Z;
    pinned : bool;
    printed : list line;
    worker_end : thread_end }.

(** [cpu_burner(cpu)] as run by the [i]-th thread, lines 26-33:
<<
    try:
        os.sched_setaffinity(0, {cpu})
    except Exception:
        pass
    t0 = time.time()
    while time.time() - t0 < 20:
        _ = sum(range(10000))
>> *)
Definition cpu_burner (E : env) (i : nat) (cpu : Z) : worker :=
  let granted := match sched_setaffinity E cpu with
                 | Ret _ => true
                 | Raise _ => false
                 end in
  match try_except (sched_setaffinity E cpu) is_Exception (λ _, Ret tt) with
  | Raise e => Worker cpu false [] (Died e)
  | Ret _ =>
      match worker_clock E i with
      | [] => Worker cpu granted [] Hung
      | t0 :: later => Worker cpu granted [] (burn t0 later)
      end
  end.

Definition workers (E : env) (cpus : list Z) : list worker :=
  imap (cpu_burner E) cpus.

(** The module body, lines 13-45. *)
Definition script (E : env) : outcome :=
  match affinity E with
  | Raise e => Outcome [] [] (Raises e)
  | Ret cpus =>
      let header := Print <$> [LHostPid (hostname E) (pid E);
                               LAllowedCpus cpus;
                               LLaunching (length cpus)] in
      let started := (λ cpu, ThreadStart (CpuBurner cpu) true) <$> cpus in
      let ts := worker_end <$> workers E cpus in
      let j := join_all None 0 ts (join_start E) in
      match j.2 with
      | Some t =>
          Outcome (header ++ started ++ j.1
                   ++ [Print LDoneLoaded; Print LCheckMpstat]) ts (Returns t)
      | None => Outcome (header ++ started ++ j.1) ts Blocks
      end
  end.

(** Everything the process writes to standard output: the main thread's
    lines and then the workers'. *)
Definition stdout (E : env) : list line :=
  omap (λ e, match e with Print l => Some l | _ => None end) (trace (script E))
  ++ match affinity E with
     | Ret cpus => workers E cpus ≫= printed
     | Raise _ => []
     end.

(** *** Vocabulary for the statements about the script *)

(** The same environment with a working affinity call that reports [s]. *)
Definition with_affinity (E : env) (s : gset Z) : env :=
  Env (Ret s) (cpu_count E) (hostname E) (pid E) (sched_setaffinity E)
      (join_start E) (worker_clock E).

(** The same environment with every pinning request granted. *)
Definition with_pinning (E : env) : env :=
  Env (sched_getaffinity E) (cpu_count E) (hostname E) (pid E)
      (λ _, Ret tt) (join_start E) (worker_clock E).

(** The report notes the fall-back when it differs from the report of
    every run in which the affinity call worked. *)
Definition fallback_noted (E : env) : Prop :=
  ∀ s, stdout (with_affinity E s) ≠ stdout E.

(** A pinning failure is logged when the output differs from the output
    of the same run with every request granted. *)
Definition pin_failure_logged (E : env) : Prop :=
  stdout E ≠ stdout (with_pinning E).

(** A host on which the affinity call is missing, two cores are visible,
    CPU 0 refuses to be pinned and every worker sees its 20 s pass. *)
Definition fallback_env : env :=
  Env (Raise AttributeError) (Some 2) "node" 4242
      (λ cpu, if cpu =? 0 then Raise (OSError 22) else Ret tt)
      0 (λ _, [0; 10000; 20000]).

(** A host whose only allowed CPU is 5 and whose worker never sees its
    20 s pass. *)
Definition hung_worker_env : env :=
  Env (Ret {[ 5 ]}) (Some 8) "node" 4242 (λ _, Ret tt) 0 (λ _, [0; 10000]).

(** A host whose allowed CPUs are 4, 0 and 2. *)
Definition three_cpu_env : env :=
  Env (Ret {[ 4; 0; 2 ]}) (Some 8) "node" 4242 (λ _, Ret tt) 0
      (λ _, [0; 10000; 20000]).

(** A host without the affinity call on which the core count is unknown. *)
Definition no_count_env : env :=
  Env (Raise AttributeError) None "node" 4242 (λ _, Ret tt) 0 (λ _, [0; 20000]).

End Partition.

(** ** ml_benchmark.py: the training loop and its driver *)

Module Benchmark.
Import Py Argparse Load.

(** The calls [one_run] makes into torch, in the order of the source. *)
Inductive call :=
| ManualSeed                                     (* torch.manual_seed(0) *)
| NewMLP (input_dim hidden_dim num_classes : Z)  (* MLP(...) *)
| To (d : device)                                (* .to(device) *)
| NewSGD                        (* torch.optim.SGD(model.parameters(), lr=0.01) *)
| NewCrossEntropyLoss                            (* nn.CrossEntropyLoss() *)
| RandnBatch (d : device) (rows cols : Z)
                                (* torch.randn(batch_size, input_dim, device=d) *)
| RandintLabels (d : device) (high count : Z)
                     (* torch.randint(0, num_classes, (batch_size,), device=d) *)
| ZeroGrad                               (* optimizer.zero_grad(set_to_none=True) *)
| Forward                                        (* model(x) *)
| Criterion                                      (* criterion(out, y) *)
| Backward                                       (* loss.backward() *)
| Step                                           (* optimizer.step() *)
| CudaSync                                       (* torch.cuda.synchronize() *)
| NewMLPOfList (input_dim num_classes : value)
                                (* MLP(...), one of the two sizes a list *)
| RandnOfList (d : device) (rows : value) (cols : Z).
                                (* torch.randn(batch_size, input_dim,
                                   device=d), [batch_size] a list *)

(** What [one_run] returns: [total_samples / elapsed], or [float("nan")].
    The quotient is kept as its two operands; [elapsed] is in units of
    0.0001 s, the precision [round(_, 4)] leaves. *)
Inductive rate :=
| SamplesPerSec (total_samples elapsed : Z)
| NaN.

Record env := Env
  { cuda_available : bool;               (* torch.cuda.is_available() *)
    fault : device → nat → option exn;   (* what the k-th torch call of the
                                            run on a device raises, if
                                            anything *)
    elapsed : device → Z;   (* round(time.perf_counter() - start, 4) of the
                               run on a device, in units of 0.0001 s *)
    os : Probe.os_env }.

(** Line 97, [warmup = min(5, max(1, steps // 10))].  The value is never
    used: one step is run before the timer starts, whatever it is. *)
Definition warmup (steps : Z) : Z := Z.min 5 (Z.max 1 (steps / 10)).

(** Lines 100-105 and 113-119: one batch through the model. *)
Definition train_step (d : device) (batch_size input_dim num_classes : Z)
    : list call :=
  [RandnBatch d batch_size input_dim; RandintLabels d num_classes batch_size;
   ZeroGrad; Forward; Criterion; Backward; Step].

(** [if device.type == "cuda": torch.cuda.synchronize()] *)
Definition sync (d : device) : list call :=
  if is_cuda d then [CudaSync] else [].

(** The body of the timed loop for the index [i], lines 113-122. *)
Definition timed_step (d : device) (batch_size input_dim num_classes i : Z)
    : list call :=
  train_step d batch_size input_dim num_classes
  ++ (if is_cuda d && ((i + 1) `mod` 10 =? 0) then [CudaSync] else []).

(** Every torch call of [one_run], lines 90-124, when none of them raises.
    [range(steps)] is empty for [steps <= 0], as [seqZ 0 steps] is. *)
Definition calls (d : device) (steps batch_size input_dim num_classes : Z)
    : list call :=
  [ManualSeed; NewMLP input_dim 4096 num_classes; To d; NewSGD;
   NewCrossEntropyLoss]
  ++ train_step d batch_size input_dim num_classes
  ++ sync d
  ++ flat_map (timed_step d batch_size input_dim num_classes) (seqZ 0 steps)
  ++ sync d.

(** The calls are made one after the other, the first of them numbered
    [k], until one raises. *)
Fixpoint run_calls (faults : nat → option exn) (k : nat) (cs : list call)
    : list call * option exn :=
  match cs with
  | [] => ([], None)
  | c :: cs' =>
      match faults k with
      | Some e => ([c], Some e)
      | None => let r := run_calls faults (S k) cs' in (c :: r.1, r.2)
      end
  end.

(** [total_samples] after the loop: [batch_size] is added once per turn. *)
Definition total_samples (steps batch_size : Z) : Z :=
  foldl (λ total _, total + batch_size) 0 (seqZ 0 steps).

(** [one_run(device, steps, batch_size, input_dim, num_classes)], lines
    88-128: the calls made and what comes back. *)
Definition one_run (E : env) (d : device)
    (steps batch_size input_dim num_classes : Z) : list call * res rate :=
  let r := run_calls (fault E d) 0
             (calls d steps batch_size input_dim num_classes) in
  match r.2 with
  | Some e => (r.1, Raise e)
  | None =>
      (r.1,
       Ret (if 0 <? elapsed E d
            then SamplesPerSec (total_samples steps batch_size) (elapsed E d)
            else NaN))
  end.

(** The attribute holds an integer. *)
Definition as_int (v : value) : option Z :=
  match v with VInt z => Some z | _ => None end.

(** The torch calls of [one_run] up to the one that a list among its
    arguments stops with [TypeError]: [MLP(...)] builds its layers with
    [nn.Linear(input_dim, 4096)] and [nn.Linear(4096, num_classes)]; line
    97 computes [steps // 10], which is no torch call; line 100 passes
    [batch_size] to [torch.randn]. *)
Definition calls_to_TypeError (d : device)
    (steps batch_size input_dim num_classes : value) : list call :=
  match as_int input_dim, as_int num_classes with
  | Some i, Some n =>
      [ManualSeed; NewMLP i 4096 n; To d; NewSGD; NewCrossEntropyLoss]
      ++ match as_int steps with
         | Some _ => [RandnOfList d batch_size i]
         | None => []
         end
  | _, _ => [ManualSeed; NewMLPOfList input_dim num_classes]
  end.

(** [one_run] on the attributes of the namespace, each an integer or,
    after [--name=--], the empty list.  With a list among them the run ends
    in [TypeError], unless a torch call raises before. *)
Definition one_run_values (E : env) (d : device)
    (steps batch_size input_dim num_classes : value) : list call * res rate :=
  match as_int steps, as_int batch_size, as_int input_dim,
        as_int num_classes with
  | Some s, Some b, Some i, Some n => one_run E d s b i n
  | _, _, _, _ =>
      let r := run_calls (fault E d) 0
                 (calls_to_TypeError d steps batch_size input_dim
                    num_classes) in
      (r.1, Raise (default TypeError r.2))
  end.

(** What the script prints. *)
Inductive line :=
| EnvHeader                       (* "=== Environment ===" *)
| Platform                        (* "Platform: ..." *)
| Python                          (* "Python: ..." *)
| CudaVisibleDevices              (* "CUDA_VISIBLE_DEVICES: ..." *)
| CudaAvailable                   (* "CUDA available: True  Device index: ..." *)
| CudaDeviceCount                 (* "CUDA device count (visible): ..." *)
| CudaUnavailable                 (* "CUDA available: False" *)
| Field (f : Probe.field)
| EnvFooter                       (* "===================" *)
| SkippingGpu                     (* "[GPU] Skipping: CUDA is not available." *)
| RunningOn (d : device)          (* "Running on CPU..." *)
| Throughput (d : device) (sps : rate)  (* "CPU throughput: ... samples/sec" *)
| ErrorOn (d : device) (msg : string)   (* "Error on device cpu: msg" *)
| Done.                           (* "Done." *)

Inductive event :=
| Out (l : line)
| Torch (c : call)
| SetCudnnBenchmark.              (* torch.backends.cudnn.benchmark = True *)

Inductive ending :=
| Completes
| Fails (e : exn).

Record outcome := Outcome
  { trace : list event;
    ending_of : ending }.

(** Lines 132-143 of [print_device_info()]: what is printed before the
    probes are called. *)
Definition device_lines (E : env) : list line :=
  [EnvHeader; Platform; Python; CudaVisibleDevices]
  ++ (if cuda_available E then [CudaAvailable; CudaDeviceCount]
      else [CudaUnavailable]).

(** [print_device_info()], lines 131-150 *)
Definition print_device_info (E : env) : res (list line) :=
  bind (Probe.report_fields (os E)) (λ fields,
  Ret (device_lines E ++ (Field <$> fields) ++ [EnvFooter])).

(** The parsed namespace, when its numeric attributes are integers. *)
Record args := Args
  { steps : Z;
    batch_size : Z;
    input_dim : Z;
    num_classes : Z;
    gpu_first : bool }.

(** Lines 164-166 *)
Definition order (a : args) : list device :=
  if gpu_first a then [Cuda; Cpu] else [Cpu; Cuda].

(** One turn of the loop over [order], lines 169-186, [run] being the call
    of [one_run] of lines 177-183.  The second component is the exception
    that leaves the loop, if any: only [RuntimeError] is caught. *)
Definition run_device_with (E : env) (run : device → list call * res rate)
    (dev : device) : list event * option exn :=
  if is_cuda dev && negb (cuda_available E) then ([Out SkippingGpu], None)
  else
    let before := (if is_cuda dev then [SetCudnnBenchmark] else [])
                  ++ [Out (RunningOn dev)] in
    let r := run dev in
    match r.2 with
    | Ret sps =>
        (before ++ (Torch <$> r.1) ++ [Out (Throughput dev sps)], None)
    | Raise (RuntimeError msg) =>
        (before ++ (Torch <$> r.1) ++ [Out (ErrorOn dev msg)], None)
    | Raise e => (before ++ (Torch <$> r.1), Some e)
    end.

Fixpoint run_devices_with (E : env) (run : device → list call * res rate)
    (devs : list device) : list event * option exn :=
  match devs with
  | [] => ([], None)
  | dev :: devs' =>
      let r := run_device_with E run dev in
      match r.2 with
      | Some e => r
      | None =>
          let r' := run_devices_with E run devs' in (r.1 ++ r'.1, r'.2)
      end
  end.

(** [main()] from line 162 on: [order] is what lines 164-166 make of
    [args.gpu_first]. *)
Definition main_with (E : env) (order : res (list device))
    (run : device → list call * res rate) : outcome :=
  match print_device_info E with
  | Raise e => Outcome (Out <$> device_lines E) (Fails e)
  | Ret info =>
      match order with
      | Raise e => Outcome (Out <$> info) (Fails e)
      | Ret devs =>
          let r := run_devices_with E run devs in
          match r.2 with
          | Some e => Outcome ((Out <$> info) ++ r.1) (Fails e)
          | None => Outcome ((Out <$> info) ++ r.1 ++ [Out Done]) Completes
          end
      end
  end.

(** Lines 177-183 for a namespace of integers. *)
Definition run_of (E : env) (a : args) (dev : device)
    : list call * res rate :=
  one_run E dev (steps a) (batch_size a) (input_dim a) (num_classes a).

Definition run_device (E : env) (a : args) (dev : device)
    : list event * option exn :=
  run_device_with E (run_of E a) dev.

Definition run_devices (E : env) (a : args) (devs : list device)
    : list event * option exn :=
  run_devices_with E (run_of E a) devs.

(** [main()] from line 162 on, for a namespace [a] of integers. *)
Definition main_body (E : env) (a : args) : outcome :=
  main_with E (Ret (order a)) (run_of E a).

(** Truth of an attribute, as [if args.gpu_first] takes it. *)
Definition truth (v : value) : bool :=
  match v with
  | VBool b => b
  | VInt z => negb (z =? 0)
  | VEmptyList => false
  end.

(** Lines 164-166 on the namespace that [parse_args] returned; reading an
    attribute that is not there is an [AttributeError]. *)
Definition order_ns (ns : gmap string value) : res (list device) :=
  match ns !! "gpu_first"%string with
  | Some v => Ret (if truth v then [Cuda; Cpu] else [Cpu; Cuda])
  | None => Raise AttributeError
  end.

(** Lines 177-183 on that namespace. *)
Definition run_ns (E : env) (ns : gmap string value) (dev : device)
    : list call * res rate :=
  match ns !! "steps"%string, ns !! "batch_size"%string,
        ns !! "input_dim"%string, ns !! "num_classes"%string with
  | Some s, Some b, Some i, Some n => one_run_values E dev s b i n
  | _, _, _, _ => ([], Raise AttributeError)
  end.

(** [main()], lines 153-188, on the command line [argv]: a rejected
    command line ends it in [SystemExit] before anything is printed on
    standard output. *)
Definition main (E : env) (argv : list string) : outcome :=
  match parse_args benchmark_parser argv with
  | Exit c => Outcome [] (Fails (SystemExit c))
  | Parsed ns => main_with E (order_ns ns) (run_ns E ns)
  end.

(** *** Vocabulary for the statements about the benchmark *)

Definition is_sync (c : call) : bool :=
  match c with CudaSync => true | _ => false end.

Definition is_step (c : call) : bool :=
  match c with Step => true | _ => false end.

(** How many calls of a run satisfy [p]. *)
Definition count (p : call → bool) (cs : list call) : Z :=
  Z.of_nat (length (List.filter p cs)).

(** The device a call names. *)
Definition call_device (c : call) : option device :=
  match c with
  | To d | RandnBatch d _ _ | RandintLabels d _ _ | RandnOfList d _ _ => Some d
  | CudaSync => Some Cuda
  | _ => None
  end.

(** The line that closes the turn of a device: its throughput, its error
    or the notice that it was skipped. *)
Definition verdict (e : event) : option device :=
  match e with
  | Out (Throughput d _) | Out (ErrorOn d _) => Some d
  | Out SkippingGpu => Some Cuda
  | _ => None
  end.


(** The event concerns the CUDA device. *)
Definition touches_cuda (e : event) : bool :=
  match e with
  | Torch c => match call_device c with Some Cuda => true | _ => false end
  | SetCudnnBenchmark => true
  | Out (RunningOn Cuda) | Out (Throughput Cuda _) | Out (ErrorOn Cuda _) => true
  | _ => false
  end.



(** A host with CUDA on which the CPU run is too short to be timed and the
    fourth call of the CUDA run fails. *)
Definition flaky_env : env :=
  Env true
      (λ d k, if is_cuda d && (k =? 3)%nat
              then Some (RuntimeError "CUDA out of memory") else None)
      (λ d, if is_cuda d then 1500 else 0)
      (Probe.OsEnv "posix" ∅).

(** A host without CUDA on which the optimizer's first step is
    interrupted from the keyboard. *)
Definition interrupted_env : env :=
  Env false (λ _ k, if (k =? 11)%nat then Some KeyboardInterrupt else None)
      (λ _, 25000) (Probe.OsEnv "posix" ∅).

(** What [parse_args] leaves in the namespace of the benchmark: the four
    numeric attributes hold an integer or the empty list, [gpu_first] a
    boolean. *)
Definition numeric : list string :=
  ["steps"; "batch_size"; "input_dim"; "num_classes"]%string.

Definition benchmark_namespace (ns : gmap string value) : Prop :=
  (∀ name, name ∈ numeric →
           (∃ z, ns !! name = Some (VInt z)) ∨ ns !! name = Some VEmptyList) ∧
  (∃ b, ns !! "gpu_first"%string = Some (VBool b)).

End Benchmark.

(** ** The MPI scripts around the ring exchange *)

Module Mpi.
Import Py.

(** The calls into MPI and what the scripts print. *)
Inductive call :=
| Init
| Get_rank
| Get_size
| Irecv (source tag : Z)
| Isend (dest tag : Z)
| Waitall
| Barrier
| Is_finalized
| Finalize.

Inductive line :=
| NeedTwoProcesses          (* "Run with at least 2 processes, e.g.: ..." *)
| RecvFrom (rank src : Z) (recvbuf : list Z) (ok : bool)
                            (* "[rank r] recv from s: [...]  -> ok=True" *)
| AllReached                (* "All ranks reached the barrier; finishing." *)
| Header (size : Z) (gpu_count : nat)     (* lines 78-84 of mpi_mig_test.py *)
| RankHost (rank : Z) (hostname : string) (pid : Z)
| RankAffinity (rank : Z) (cpu_affinity : string)
| RankCuda (rank : Z) (cuda_devices : string)
| RankCgroup (rank : Z) (cgroup : string)
| Blank
| NoteTwoProcesses          (* "Note: Run with at least 2 processes ..." *)
| Example                   (* "Example: mpiexec -n 2 python3 mpi_mig_test.py" *)
| Starting (rank : Z)       (* "[Rank r] Starting ring communication test..." *)
| Received (rank src : Z) (recvbuf : list Z) (ok : bool)
| Results.                  (* lines 131-140 of mpi_mig_test.py *)

Inductive event :=
| Do (c : call)
| Say (l : line).

Inductive finish :=
| Returns
| Raises (e : exn)
| Blocks.

Record outcome := Outcome
  { trace : list event;
    ending : finish }.

(** How a [try] block stops once its events are behind it: it falls off
    its end or returns, its last call never comes back, or it raises. *)
Inductive stop :=
| Ends
| Hangs
| Throws (e : exn).

(** The events are gone through one after the other, the first of them
    numbered [k], until one raises. *)
Fixpoint run (faults : nat → option exn) (k : nat) (plan : list event)
    : list event * option exn :=
  match plan with
  | [] => ([], None)
  | ev :: plan' =>
      match faults k with
      | Some e => ([ev], Some e)
      | None => let r := run faults (S k) plan' in (ev :: r.1, r.2)
      end
  end.

(** The ring exchange as one rank goes through it, in a run in which every
    other rank of the communicator posts its own receive and send: what
    [Waitall] does at this rank when a neighbour has raised or hangs before
    posting is not modelled.  [Ring.main] decides whether, with all ranks
    posting, the two requests of this rank find their partners. *)
Definition exchange (junk : Z → nat → Z) (size rank : Z)
    (report : Z → Z → list Z → bool → line) (after : list event)
    : list event * stop :=
  let posted := [Do (Irecv (Ring.src rank size) 100);
                 Do (Isend (Ring.dst rank size) 100); Do Waitall] in
  match Ring.main junk size rank with
  | Ring.Exchanged recvbuf ok =>
      (posted ++ Say (report rank (Ring.src rank size) recvbuf ok) :: after,
       Ends)
  | _ => (posted, Hangs)
  end.

(** [MPI.Init()], then the [try] block whose events are [body], then
<<
    finally:
        if not MPI.Is_finalized():
            MPI.Finalize()
>>
    [faults] numbers the events from [MPI.Init()] on; [final_fault] is what
    [MPI.Finalize()] raises. *)
Definition guarded_main (faults : nat → option exn) (final_fault : option exn)
    (body : list event * stop) : outcome :=
  match faults 0%nat with
  | Some e => Outcome [Do Init] (Raises e)
  | None =>
      let r := run faults 1 body.1 in
      let finalize (f : finish) :=
        Outcome (Do Init :: r.1 ++ [Do Is_finalized; Do Finalize])
                match final_fault with Some e => Raises e | None => f end in
      match r.2, body.2 with
      | Some e, _ | None, Throws e => finalize (Raises e)
      | None, Hangs => Outcome (Do Init :: r.1) Blocks
      | None, Ends => finalize Returns
      end
  end.

(** *** Vocabulary for the statements about the MPI scripts *)

Definition is_barrier (ev : event) : bool :=
  match ev with Do Barrier => true | _ => false end.

(** How often a run reaches a barrier. *)
Definition barriers (o : outcome) : nat :=
  length (List.filter is_barrier (trace o)).

End Mpi.

(** [mpi_cpu_test_buffers.py] *)

Module BuffersTest.
Import Py Mpi.

Record env := Env
  { faults : nat → option exn;
    final_fault : option exn;
    junk : Z → nat → Z }.          (* what [np.empty] finds at each rank *)

(** The [try] block of [main], lines 12-46, at the participant [rank] of
    [size]. *)
Definition body (E : env) (size rank : Z) : list event * stop :=
  let start := [Do Get_rank; Do Get_size] in
  if size <? 2
  then (start ++ (if rank =? 0 then [Say NeedTwoProcesses] else []), Ends)
  else
    let x := exchange (junk E) size rank RecvFrom
               (Do Barrier :: if rank =? 0 then [Say AllReached] else []) in
    (start ++ x.1, x.2).

(** [main()], lines 9-49 *)
Definition main (E : env) (size rank : Z) : outcome :=
  guarded_main (faults E) (final_fault E) (body E size rank).

End BuffersTest.

(** [mpi_mig_test.py] *)

Module MigTest.
Import Py Mpi.

(** [sub in s] *)
Fixpoint contains_sub (sub s : string) : bool :=
  String.prefix sub s
  || match s with
     | EmptyString => false
     | String _ s' => contains_sub sub s'
     end.

(** [s.split(sep)] for a non-empty [sep]: the occurrences are taken from
    the left and do not overlap; [skip] counts the characters of an
    occurrence still to be passed over. *)
Fixpoint split_str_from (sep : string) (skip : nat) (s : string)
    : list string :=
  match s with
  | EmptyString => [EmptyString]
  | String c s' =>
      match skip with
      | S k => split_str_from sep k s'
      | O =>
          if String.prefix sep s
          then EmptyString :: split_str_from sep (String.length sep - 1) s'
          else match split_str_from sep 0 s' with
               | f :: fs => String c f :: fs
               | [] => [String c EmptyString]
               end
      end
  end.

Definition split_str (sep s : string) : list string :=
  split_str_from sep 0 s.

(** [f.readlines()]: every line, or the first failure. *)
Fixpoint readlines (reads : list (io_error + string)) : res (list string) :=
  match reads with
  | [] => Ret []
  | inl e :: _ => Raise (io_exn e)
  | inr l :: rest => bind (readlines rest) (λ ls, Ret (l :: ls))
  end.

(** A bare [except:] catches everything. *)
Definition anything (e : exn) : bool := true.

Record env := Env
  { hostname : string;                 (* socket.gethostname() *)
    pid : Z;                           (* os.getpid() *)
    fs : gmap string file;
    taskset : res string;      (* stdout of [taskset -cp pid], or what
                                  [subprocess.run] raises *)
    nvidia_smi : res string;   (* stdout of [nvidia-smi -L], likewise *)
    CUDA_VISIBLE_DEVICES : option string;
    faults : nat → option exn;
    final_fault : option exn;
    junk : Z → nat → Z }.

(** [get_cpu_affinity()], lines 13-24 *)
Definition get_cpu_affinity (E : env) : res string :=
  try_except
    (bind (taskset E) (λ stdout,
     if contains_sub "list:" stdout
     then bind (index (split_str "list:" stdout) 1) (λ v, Ret (strip v))
     else Ret "unknown"%string))
    anything (λ _, Ret "error"%string).

(** [get_cuda_visible_devices()], lines 27-30 *)
Definition get_cuda_visible_devices (E : env) : string :=
  default "NOT SET"%string (CUDA_VISIBLE_DEVICES E).

(** The loop of [get_cgroup] over the lines read, lines 39-45. *)
Fixpoint scan_mig (lines : list string) : string :=
  match lines with
  | [] => "no mig cgroup"
  | line :: rest =>
      if contains_sub "mig" line
      then match split_str "::" line with
           | _ :: part :: _ => strip part
           | _ => scan_mig rest
           end
      else scan_mig rest
  end.

(** [get_cgroup()], lines 33-47 *)
Definition get_cgroup (E : env) : res string :=
  try_except
    (bind (open (fs E) ("/proc/" +:+ pretty (pid E) +:+ "/cgroup")) (λ f,
     bind (readlines f) (λ lines, Ret (scan_mig lines))))
    anything (λ _, Ret "error"%string).

(** [get_gpu_info()], lines 50-58 *)
Definition get_gpu_info (E : env) : res nat :=
  try_except
    (bind (nvidia_smi E) (λ stdout,
     Ret (length (List.filter (contains_sub "MIG") (split "010" stdout)))))
    anything (λ _, Ret 0%nat).

(** The [try] block of [main], lines 64-140, at the participant [rank] of
    [size], once the four helpers have returned. *)
Definition body (E : env) (size rank : Z)
    (cpu_affinity cgroup : string) (gpu_count : nat) : list event * stop :=
  let start :=
    [Do Get_rank; Do Get_size]
    ++ (if rank =? 0 then [Say (Header size gpu_count)] else [])
    ++ [Say (RankHost rank (hostname E) (pid E));
        Say (RankAffinity rank cpu_affinity);
        Say (RankCuda rank (get_cuda_visible_devices E));
        Say (RankCgroup rank cgroup);
        Say Blank;
        Do Barrier] in
  if size <? 2
  then (start ++ (if rank =? 0 then [Say NoteTwoProcesses; Say Example]
                  else []), Ends)
  else
    let x := exchange (junk E) size rank Received
               (Do Barrier :: if rank =? 0 then [Say Results] else []) in
    (start ++ Say (Starting rank) :: x.1, x.2).

(** [main()], lines 61-144.  A helper that raised would leave the [try]
    block before anything is printed. *)
Definition main (E : env) (size rank : Z) : outcome :=
  guarded_main (faults E) (final_fault E)
    match get_cpu_affinity E, get_cgroup E, get_gpu_info E with
    | Ret cpu_affinity, Ret cgroup, Ret gpu_count =>
        body E size rank cpu_affinity cgroup gpu_count
    | Raise e, _, _ | _, Raise e, _ | _, _, Raise e =>
        ([Do Get_rank; Do Get_size], Throws e)
    end.

(** *** Vocabulary for the statements about the helpers *)

(** [sep.join(fields)] *)
Fixpoint join (sep : string) (fields : list string) : string :=
  match fields with
  | [] => EmptyString
  | [f] => f
  | f :: fs => f +:+ sep +:+ join sep fs
  end.

(** A rank in control group [/mig/mig0] on a host with two MIG devices. *)
Definition mig0_rank : env :=
  Env "node" 4242
      (<["/proc/4242/cgroup"%string :=
           Opens [inr "1:name=systemd:/user.slice/mig
"%string; inr "0::/mig/mig0
"%string]]> ∅)
      (Ret "pid 4242's current affinity list: 0-3
"%string)
      (Ret "GPU 0: NVIDIA A100 (UUID: GPU-1)
  MIG 3g.20gb Device 0: (UUID: MIG-1)
  MIG 3g.20gb Device 1: (UUID: MIG-2)
"%string)
      (Some "MIG-1"%string) (λ _, None) None (λ _ _, 7).

(** The same rank whose cgroup file breaks off after its second line. *)
Definition broken_read_rank : env :=
  Env "node" 4242
      (<["/proc/4242/cgroup"%string :=
           Opens [inr "1:name=systemd:/user.slice
"%string; inr "0::/mig/mig0
"%string; inl (EOS 5)]]> ∅)
      (Raise (OSError 2)) (Raise (OSError 2))
      None (λ _, None) None (λ _ _, 7).

End MigTest.

(** ** The other reads of cgroup and NUMA information
    ([train.py], [new_mig_setup/simple_test.py],
    [new_mig_setup/test_gpu_cpu.py]) *)

(** A stretch of a script that prints as it goes: the lines printed, and
    the exception that leaves the stretch, if any. *)
Module Script.
Import Py.

Section Out.
Context {line : Type}.

Definition out : Type := list line * option exn.

Definition say (ls : list line) : out := (ls, None).

(** [a; b] *)
Definition and_then (a b : out) : out :=
  match a.2 with
  | Some _ => a
  | None => (a.1 ++ b.1, b.2)
  end.

(** A computation that prints nothing, followed by what is done with its
    value. *)
Definition with_value {A} (c : res A) (k : A → out) : out :=
  match c with
  | Ret a => k a
  | Raise e => ([], Some e)
  end.

(** [try: body  except <catches> as e: print(h e)] *)
Definition except (body : out) (catches : exn → bool) (h : exn → list line)
    : out :=
  match body.2 with
  | Some e => if catches e then (body.1 ++ h e, None) else body
  | None => body
  end.

End Out.

(** [f"/proc/{pid}/<name>"] *)
Definition proc_path (pid : Z) (name : string) : string :=
  "/proc/" +:+ pretty pid +:+ "/" +:+ name.

(** *** Vocabulary for the statements about the reads *)

(** The first read that fails. *)
Fixpoint first_error {E A} (reads : list (E + A)) : option E :=
  match reads with
  | [] => None
  | inl e :: _ => Some e
  | inr _ :: rest => first_error rest
  end.

(** What opening [p] and reading it to its end raises, if anything: the
    path is missing, it cannot be opened, or one of the reads fails. *)
Definition failure (fs : gmap string file) (p : string) : option exn :=
  match fs !! p with
  | None => Some (OSError ENOENT)
  | Some (Unopenable e) => Some (io_exn e)
  | Some (Opens reads) => io_exn <$> first_error reads
  end.

End Script.

Module Train.
Import Py Script.

Inductive line :=
| Cgroup (mig_path : string)     (* "Cgroup: mig_path" *)
| CgroupUnknown.                 (* "Cgroup: Could not determine" *)

(** The cgroup part of [get_system_info()], lines 41-49:
<<
    try:
        with open(f'/proc/{pid}/cgroup', 'r') as f:
            cgroup_line = f.read().strip()
            if 'mig' in cgroup_line:
                mig_path = [line for line in cgroup_line.split('\n')
                            if 'mig' in line][0]
                print(f"Cgroup: {mig_path}")
    except:
        print("Cgroup: Could not determine")
>> *)
Definition cgroup_lines (fs : gmap string file) (pid : Z) : out :=
  except
    (with_value (open fs (proc_path pid "cgroup")) (λ f,
     with_value (read f) (λ text,
       let cgroup_line := strip text in
       if MigTest.contains_sub "mig" cgroup_line
       then with_value
              (index (List.filter (MigTest.contains_sub "mig")
                        (split "010" cgroup_line)) 0)
              (λ mig_path, say [Cgroup mig_path])
       else say [])))
    MigTest.anything (λ _, [CgroupUnknown]).

End Train.

Module SimpleTest.
Import Py Script.

(** The two pseudo-files are opened with [errors='ignore']: no read fails
    to decode.  A read fails with an [OSError] or for lack of memory. *)
Inductive lenient_error :=
| LOS (errno : Z)
| LMemory.

Definition lenient_exn (e : lenient_error) : exn :=
  match e with
  | LOS n => OSError n
  | LMemory => MemoryError
  end.

Inductive lenient_file :=
| Refuses (errno : Z)
| Yields (reads : list (lenient_error + string)).

Record env := Env
  { pid : Z;
    cgroup_file : option lenient_file;     (* /proc/<pid>/cgroup *)
    status_file : option lenient_file }.   (* /proc/<pid>/status *)

Definition open_lenient (f : option lenient_file)
    : res (list (lenient_error + string)) :=
  match f with
  | None => Raise (OSError ENOENT)
  | Some (Refuses n) => Raise (OSError n)
  | Some (Yields reads) => Ret reads
  end.

Fixpoint readlines (reads : list (lenient_error + string))
    : res (list string) :=
  match reads with
  | [] => Ret []
  | inl e :: _ => Raise (lenient_exn e)
  | inr l :: rest => bind (readlines rest) (λ ls, Ret (l :: ls))
  end.

Inductive line :=
| CgroupHeader                   (* "3. Cgroup:" *)
| CgroupPath (cgroup_path : string)
| InMigCgroup                    (* "   ✓ In MIG cgroup" *)
| NotInMigCgroup                 (* "   ⚠ Not in expected /mig/migN cgroup" *)
| NoCgroupInfo                   (* "   ✗ No cgroup information available" *)
| CouldNotRead (e : exn)         (* "   ✗ Could not read: e" *)
| NumaHeader                     (* "4. NUMA Memory Nodes:" *)
| AllowedNodes (mems : string)   (* "   Allowed nodes: mems" *)
| NumaBinding                    (* "   ✓ NUMA binding detected" *)
| MultipleNodes                  (* "   ⚠ Multiple NUMA nodes" *)
| NoMemsLine                     (* "   ⚠ Could not find Mems_allowed_list" *)
| MemoryErrorLine                (* "   ✗ Memory error reading status file" *)
| CouldNotCheck (e : exn)        (* "   ✗ Could not check: e" *)
| Blank.

(** Section 3, lines 47-64. *)
Definition cgroup_section (E : env) : out :=
  and_then (say [CgroupHeader])
  (and_then
     (except
        (with_value (open_lenient (cgroup_file E)) (λ f,
         with_value (readlines f) (λ lines,
           match lines with
           | line0 :: _ =>
               let cgroup_line := strip line0 in
               let cgroup_path := default EmptyString
                                    (last (split ":" cgroup_line)) in
               say [CgroupPath cgroup_path;
                    if MigTest.contains_sub "/mig/mig" cgroup_path
                    then InMigCgroup else NotInMigCgroup]
           | [] => say [NoCgroupInfo]
           end)))
        is_Exception (λ e, [CouldNotRead e]))
     (say [Blank])).

(** The loop of section 4, lines 72-83; falling out of it leaves [found]
    false. *)
Fixpoint scan_mems (reads : list (lenient_error + string)) : out :=
  match reads with
  | [] => say [NoMemsLine]
  | inl e :: _ => ([], Some (lenient_exn e))
  | inr line :: rest =>
      if MigTest.contains_sub "Mems_allowed_list" line
      then with_value (index (split ":" line) 1) (λ part,
             let mems := strip part in
             say [AllowedNodes mems;
                  if (String.length mems <=? 3)%nat then NumaBinding
                  else MultipleNodes])
      else scan_mems rest
  end.

Definition is_MemoryError (e : exn) : bool :=
  match e with MemoryError => true | _ => false end.

(** Section 4, lines 67-88: [except MemoryError] comes first. *)
Definition numa_section (E : env) : out :=
  and_then (say [NumaHeader])
  (and_then
     (except
        (except (with_value (open_lenient (status_file E)) scan_mems)
                is_MemoryError (λ _, [MemoryErrorLine]))
        is_Exception (λ e, [CouldNotCheck e]))
     (say [Blank])).

(** *** Vocabulary for the statements about the two sections *)

(** What opening the file and reading it to its end raises, if anything. *)
Definition failure (f : option lenient_file) : option exn :=
  match f with
  | None => Some (OSError ENOENT)
  | Some (Refuses n) => Some (OSError n)
  | Some (Yields reads) => lenient_exn <$> first_error reads
  end.

(** The line section 4 prints for an exception. *)
Definition numa_error_line (e : exn) : line :=
  if is_MemoryError e then MemoryErrorLine else CouldNotCheck e.

End SimpleTest.

Module TestGpuCpu.
Import Py Script.

Record env := Env
  { pid : Z;
    fs : gmap string file;
    numastat : io_error + (Z * string) }.
      (* [numastat -p pid]: its return code and output, or what
         [subprocess.run] raises *)

Inductive line :=
| CgroupTitle                    (* "3. Cgroup Assignment:" *)
| NumaTitle                      (* "4. NUMA Memory Status:" *)
| Rule                           (* "-" * 60 *)
| Text (s : string)
| CouldNotReadCgroup (e : exn)   (* "Could not read cgroup info: e" *)
| NumastatFailed                 (* "numastat not available or failed" *)
| AllowedMemoryNodes (s : string)  (* "Allowed memory nodes: s" *)
| CouldNotDetermineNuma (e : exn)  (* "Could not determine NUMA binding: e" *)
| Blank.

(** The loop of section 3, lines 58-60. *)
Fixpoint print_lines (reads : list (io_error + string)) : out :=
  match reads with
  | [] => say []
  | inl e :: _ => ([], Some (io_exn e))
  | inr l :: rest =>
      and_then (say (if Argparse.nonempty (strip l) then [Text (strip l)]
                     else []))
               (print_lines rest)
  end.

(** Section 3, lines 53-63. *)
Definition cgroup_section (E : env) : out :=
  and_then (say [CgroupTitle; Rule])
  (and_then
     (except (with_value (open (fs E) (proc_path (pid E) "cgroup"))
                         print_lines)
             is_Exception (λ e, [CouldNotReadCgroup e]))
     (say [Blank])).

(** The loop of section 4, lines 78-81. *)
Fixpoint find_mems (reads : list (io_error + string)) : out :=
  match reads with
  | [] => say []
  | inl e :: _ => ([], Some (io_exn e))
  | inr l :: rest =>
      if MigTest.contains_sub "Mems_allowed_list" l
      then say [AllowedMemoryNodes (strip l)]
      else find_mems rest
  end.

(** Section 4, lines 66-84: the status file is tried only when
    [numastat] ran and failed. *)
Definition numa_section (E : env) : out :=
  and_then (say [NumaTitle; Rule])
  (and_then
     (except
        match numastat E with
        | inl e => ([], Some (io_exn e))
        | inr (returncode, stdout) =>
            if returncode =? 0 then say [Text stdout]
            else and_then (say [NumastatFailed])
                   (with_value (open (fs E) (proc_path (pid E) "status"))
                               find_mems)
        end
        is_Exception (λ e, [CouldNotDetermineNuma e]))
     (say [Blank])).

End TestGpuCpu.

(** * Theorems *)

(** ** Ring exchange *)

Section RingFacts.
Import Ring.

Lemma find_app_first {A} (p : A → bool) (l1 l2 : list A) :
  Forall (λ x, p x = false) l1 → find p (l1 ++ l2) = find p l2.
Proof.
  induction 1 as [|x l1 Hx _ IH]; simpl; [done|]. by rewrite Hx.
Qed.

(** In a list indexed by the ranks, the first element satisfying a test
    that singles out rank [k] is the one at rank [k]. *)
Lemma find_rank {A} (f : Z → A) (p : A → bool) (size k : Z) :
  0 ≤ k < size →
  (∀ i, 0 ≤ i < k → p (f i) = false) →
  p (f k) = true →
  find p (f <$> ranks size) = Some (f k).
Proof.
  intros Hk Hbefore Hat. unfold ranks.
  replace size with (k + (size - k)) by lia.
  rewrite seqZ_app, fmap_app by lia.
  rewrite find_app_first.
  - rewrite (seqZ_cons (0 + k)) by lia. simpl.
    replace (0 + k) with k by lia. by rewrite Hat.
  - apply Forall_fmap, Forall_seqZ. intros i Hi. apply Hbefore. lia.
Qed.

Lemma dst_src (size rank : Z) :
  0 ≤ rank < size → dst (src rank size) size = rank.
Proof.
  intros H. unfold dst, src.
  rewrite Zplus_mod_idemp_l. replace (rank - 1 + 1) with rank by lia.
  apply Z.mod_small. lia.
Qed.

Lemma src_dst (size rank : Z) :
  0 ≤ rank < size → src (dst rank size) size = rank.
Proof.
  intros H. unfold dst, src.
  rewrite Zminus_mod_idemp_l. replace (rank + 1 - 1) with rank by lia.
  apply Z.mod_small. lia.
Qed.

Lemma src_range (size rank : Z) : 0 < size → 0 ≤ src rank size < size.
Proof. intros. unfold src. apply Z.mod_pos_bound. lia. Qed.

Lemma dst_range (size rank : Z) : 0 < size → 0 ≤ dst rank size < size.
Proof. intros. unfold dst. apply Z.mod_pos_bound. lia. Qed.

Lemma int32_small (z : Z) : - 2 ^ 31 ≤ z < 2 ^ 31 → int32 z = z.
Proof. intros H. unfold int32. rewrite Z.mod_small; lia. Qed.

Lemma np_all_eq_replicate (k : nat) (v : Z) :
  np_all_eq (replicate k v) v = true.
Proof.
  unfold np_all_eq. induction k as [|k IH]; simpl; [done|].
  by rewrite Z.eqb_refl.
Qed.

Lemma length_np_empty junk k : length (np_empty junk k) = k.
Proof. unfold np_empty. by rewrite length_fmap, length_seq. Qed.

(** The receive posted by [rank] is matched by the send of its left
    neighbour and by no send posted before it. *)
Lemma recv_finds_left junk size rank :
  0 ≤ rank < size →
  find (send_matches (post_recv junk rank size)) (posted_sends size)
  = Some (post_send (src rank size) size).
Proof.
  intros H. unfold posted_sends.
  apply (find_rank (λ r, post_send r size)).
  - apply src_range. lia.
  - intros i Hi. unfold send_matches. simpl.
    destruct (Z.eqb_spec i (src rank size)); [lia | done].
  - unfold send_matches. simpl.
    rewrite Z.eqb_refl, dst_src, Z.eqb_refl by done. done.
Qed.

(** The send posted by [rank] is taken by the receive of its right
    neighbour. *)
Lemma send_finds_right junk size rank :
  0 ≤ rank < size →
  find (recv_matches (post_send rank size)) (posted_recvs junk size)
  = Some (post_recv (junk (dst rank size)) (dst rank size) size).
Proof.
  intros H. unfold posted_recvs.
  apply (find_rank (λ r, post_recv (junk r) r size)).
  - apply dst_range. lia.
  - intros i Hi. unfold recv_matches, send_matches. simpl.
    destruct (Z.eqb_spec (dst rank size) i); [lia|].
    by rewrite andb_false_r.
  - unfold recv_matches, send_matches. simpl.
    rewrite src_dst, !Z.eqb_refl by done. done.
Qed.

(** C2.  For every number of participants [size >= 2] (an MPI size, hence
    at most [INT_MAX]) and every rank [0 <= rank < size], whatever the
    receive buffers held before, the exchange completes, the received
    buffer holds eight copies of the left neighbour's rank
    [(rank - 1) mod size], and the element-wise check [ok] is true. *)
Theorem ring_exchange_left_neighbour (junk : Z → nat → Z) (size rank : Z) :
  2 ≤ size ≤ INT_MAX →
  0 ≤ rank < size →
  main junk size rank
  = Exchanged (replicate 8 ((rank - 1) `mod` size)) true.
Proof.
  intros Hsize Hrank. unfold main.
  destruct (Z.ltb_spec size 2) as [?|_]; [lia|].
  unfold waitall.
  rewrite recv_finds_left, send_finds_right by done.
  assert (Hs : 0 ≤ src rank size < size) by (apply src_range; lia).
  unfold deliver, post_send, post_recv; simpl s_buf; simpl r_buf.
  unfold np_full. rewrite length_replicate, length_np_empty. unfold n.
  simpl Nat.leb. cbv iota.
  rewrite drop_ge by (rewrite length_np_empty; lia).
  rewrite app_nil_r, int32_small by (unfold INT_MAX in *; lia).
  by rewrite np_all_eq_replicate.
Qed.

Lemma ring_exchange_left_neighbour_witness :
  main (λ _ _, 7) 3 0 = Exchanged (replicate 8 2) true.
Proof.
  apply (ring_exchange_left_neighbour (λ _ _, 7) 3 0);
    unfold INT_MAX; lia.
Defined.

End RingFacts.

(** ** Best-effort probing *)

Section ProbeFacts.
Import Py Probe.

Lemma guarded_try {A} (c : res (option A)) :
  guarded c →
  ∃ v, try_except c is_Exception (λ _, Ret None) = Ret v.
Proof.
  intros Hc. destruct c as [v|e]; simpl; [by eexists|].
  rewrite (Hc e eq_refl). by eexists.
Qed.

Lemma try_Some {A} (c : res (option A)) (a : A) :
  try_except c is_Exception (λ _, Ret None) = Ret (Some a) →
  c = Ret (Some a).
Proof.
  destruct c as [v|e]; simpl; [done|]. by destruct (is_Exception e).
Qed.

Lemma io_exn_Exception e : is_Exception (io_exn e) = true.
Proof. by destruct e. Qed.

Lemma guarded_open fs p : guarded (open fs p).
Proof.
  intros e. unfold open. destruct (fs !! p) as [[e'|reads]|]; intros [= <-];
    [apply io_exn_Exception | done].
Qed.

Lemma guarded_bind {A B} (c : res A) (k : A → res B) :
  guarded c → (∀ a, guarded (k a)) → guarded (bind c k).
Proof.
  intros Hc Hk e. destruct c as [a|e']; simpl; [apply Hk|].
  intros [= <-]. by apply Hc.
Qed.

Lemma guarded_index {A} (l : list A) i : guarded (index l i).
Proof. intros e. unfold index. destruct (l !! i); by intros [= <-]. Qed.

Lemma guarded_read reads : guarded (read reads).
Proof.
  induction reads as [|[e'|l] rest IH]; intros e; simpl; [done|..].
  - intros [= <-]. apply io_exn_Exception.
  - destruct (read rest) as [s|e'']; simpl; [done|].
    intros [= <-]. by apply IH.
Qed.

Lemma guarded_scan_status reads : guarded (scan_status reads).
Proof.
  induction reads as [|[e'|l] rest IH]; intros e; simpl; [done|..].
  - intros [= <-]. apply io_exn_Exception.
  - destruct (startswith l _); [|apply IH].
    apply guarded_bind; [apply guarded_index | done].
Qed.

Lemma read_cpuset_returns fs p : ∃ v, read_cpuset fs p = Ret v.
Proof.
  apply guarded_try, guarded_bind; [apply guarded_open|].
  intros cf. apply guarded_bind; [apply guarded_read | done].
Qed.

Lemma guarded_scan_cgroup fs reads : guarded (scan_cgroup fs reads).
Proof.
  induction reads as [|[e'|l] rest IH]; intros e; simpl; [done|..].
  - intros [= <-]. apply io_exn_Exception.
  - destruct (cpuset_path_of l) as [p|]; [|apply IH].
    destruct (path_exists fs p); [|apply IH].
    destruct (read_cpuset_returns fs p) as [v ->]. done.
Qed.

Lemma read_linux_cpu_affinity_returns w :
  ∃ v, read_linux_cpu_affinity w = Ret v.
Proof.
  unfold read_linux_cpu_affinity.
  destruct (_ || _); [by eexists|].
  apply guarded_try, guarded_bind;
    [apply guarded_open | apply guarded_scan_status].
Qed.

Lemma read_linux_cgroup_cpuset_returns w :
  ∃ v, read_linux_cgroup_cpuset w = Ret v.
Proof.
  unfold read_linux_cgroup_cpuset.
  destruct (negb (String.eqb _ _)); [by eexists|].
  destruct (negb (path_exists _ _)); [by eexists|].
  apply guarded_try, guarded_bind;
    [apply guarded_open | apply guarded_scan_cgroup].
Qed.

Lemma read_Ret reads s :
  read reads = Ret s → ∃ lines, reads = inr <$> lines ∧ s = text lines.
Proof.
  revert s. induction reads as [|[e|l] rest IH]; intros s; simpl.
  - intros [= <-]. by exists [].
  - done.
  - destruct (read rest) as [s'|e] eqn:Hrest; simpl; [|done].
    intros [= <-]. destruct (IH s' eq_refl) as (lines & -> & ->).
    by exists (l :: lines).
Qed.

Lemma scan_status_Some reads s :
  scan_status reads = Ret (Some s) →
  ∃ before line rest v,
    reads = (inr <$> before) ++ inr line :: rest ∧
    Forall (λ l, startswith l "Cpus_allowed_list:" = false) before ∧
    startswith line "Cpus_allowed_list:" = true ∧
    split1 ":" line !! 1%nat = Some v ∧ s = strip v.
Proof.
  induction reads as [|[e|l] rest IH]; simpl; [done..|].
  destruct (startswith l _) eqn:Hl.
  - unfold index. destruct (split1 ":" l !! 1%nat) as [v|] eqn:Hv; simpl; [|done].
    intros [= <-]. by exists [], l, rest, v.
  - intros H. destruct (IH H) as (before & line & rest' & v & -> & ? & ? & ? & ?).
    exists (l :: before), line, rest', v. split_and!; try done.
    by constructor.
Qed.

Lemma read_cpuset_Some fs p s :
  read_cpuset fs p = Ret (Some s) →
  ∃ content, fs !! p = Some (Opens (inr <$> content)) ∧ s = strip (text content).
Proof.
  intros H%try_Some. unfold open in H.
  destruct (fs !! p) as [[e|reads]|]; simpl in H; [done| |done].
  destruct (read reads) as [s'|e] eqn:Hr; simpl in H; [|done].
  injection H as <-. destruct (read_Ret _ _ Hr) as (content & -> & ->).
  by exists content.
Qed.

Lemma scan_cgroup_Some fs reads s :
  scan_cgroup fs reads = Ret (Some s) →
  ∃ before line rest p content,
    reads = (inr <$> before) ++ inr line :: rest ∧
    cpuset_path_of line = Some p ∧
    fs !! p = Some (Opens (inr <$> content)) ∧
    s = strip (text content).
Proof.
  induction reads as [|[e|l] rest IH]; simpl; [done..|].
  assert (Hskip : scan_cgroup fs rest = Ret (Some s) →
    ∃ before line rest' p content,
      inr l :: rest = (inr <$> before) ++ inr line :: rest' ∧
      cpuset_path_of line = Some p ∧
      fs !! p = Some (Opens (inr <$> content)) ∧
      s = strip (text content)).
  { intros H. destruct (IH H) as (before & line & rest' & p & c & -> & ? & ? & ?).
    by exists (l :: before), line, rest', p, c. }
  destruct (cpuset_path_of l) as [p|] eqn:Hp; [|done].
  destruct (path_exists fs p); [|done].
  intros (content & ? & ?)%read_cpuset_Some.
  by exists [], l, rest, p, content.
Qed.

Lemma read_linux_cpu_affinity_Some w s :
  read_linux_cpu_affinity w = Ret (Some s) →
  os_name w = "posix"%string ∧ clean_status (os_fs w) s.
Proof.
  unfold read_linux_cpu_affinity.
  destruct (String.eqb_spec (os_name w) "posix") as [Hos|]; simpl; [|done].
  destruct (negb (path_exists _ _)); [done|].
  intros H%try_Some. split; [done|]. unfold open in H.
  destruct (os_fs w !! _) as [[e|reads]|] eqn:Hfs; simpl in H; [done| |done].
  destruct (scan_status_Some _ _ H) as (before & line & rest & v & -> & ?).
  by exists before, line, rest, v.
Qed.

Lemma read_linux_cgroup_cpuset_Some w s :
  read_linux_cgroup_cpuset w = Ret (Some s) →
  os_name w = "posix"%string ∧ clean_cgroup (os_fs w) s.
Proof.
  unfold read_linux_cgroup_cpuset.
  destruct (String.eqb_spec (os_name w) "posix") as [Hos|]; simpl; [|done].
  destruct (negb (path_exists _ _)); [done|].
  intros H%try_Some. split; [done|]. unfold open in H.
  destruct (os_fs w !! _) as [[e|reads]|] eqn:Hfs; simpl in H; [done| |done].
  destruct (scan_cgroup_Some _ _ _ H)
    as (before & line & rest & p & content & -> & ?).
  by exists before, line, rest, p, content.
Qed.

Lemma report_fields_returns w : ∃ fields, report_fields w = Ret fields.
Proof.
  unfold report_fields.
  destruct (read_linux_cpu_affinity_returns w) as [a ->].
  destruct (read_linux_cgroup_cpuset_returns w) as [c ->].
  simpl. by eexists.
Qed.

Lemma print_if_elem mk o f :
  f ∈ print_if mk o → ∃ s, o = Some s ∧ f = mk s.
Proof.
  destruct o as [s|]; simpl; [|by intros ?%elem_of_nil].
  destruct s; simpl; [by intros ?%elem_of_nil|].
  intros ->%list_elem_of_singleton. by eexists.
Qed.

(** Whatever the operating system and the pseudo-file system look like,
    [read_linux_cpu_affinity] and [read_linux_cgroup_cpuset] return (they
    never raise), and they return a value only when every step on the way
    succeeded: the platform is POSIX, the pseudo-file exists and opens,
    every line read up to the deciding one was read without error and, for
    the cgroup probe, the cpuset file exists, opens and is read without
    error.  In every other case (a missing path, a failing open, a failing
    read) the result is [None].  The report is always produced and carries
    a field only for a probe that returned a value. *)
Lemma probes_return_clean_values (w : os_env) :
  (∃ v, read_linux_cpu_affinity w = Ret v ∧
        ∀ s, v = Some s →
             os_name w = "posix"%string ∧ clean_status (os_fs w) s) ∧
  (∃ v, read_linux_cgroup_cpuset w = Ret v ∧
        ∀ s, v = Some s →
             os_name w = "posix"%string ∧ clean_cgroup (os_fs w) s) ∧
  (∃ fields, report_fields w = Ret fields ∧
     (∀ s, CpuAffinity s ∈ fields →
           read_linux_cpu_affinity w = Ret (Some s)) ∧
     (∀ s, CgroupCpuset s ∈ fields →
           read_linux_cgroup_cpuset w = Ret (Some s))).
Proof.
  destruct (read_linux_cpu_affinity_returns w) as [a Ha].
  destruct (read_linux_cgroup_cpuset_returns w) as [c Hc].
  split_and!.
  - exists a. split; [done|]. intros s ->.
    by apply read_linux_cpu_affinity_Some.
  - exists c. split; [done|]. intros s ->.
    by apply read_linux_cgroup_cpuset_Some.
  - unfold report_fields. rewrite Ha, Hc. simpl. eexists. split; [done|].
    split; intros s [Hs|Hs]%elem_of_app;
      apply print_if_elem in Hs as (s' & -> & Heq); by try injection Heq as ->.
Qed.

(** The failures spelt out: a missing pseudo-file, a pseudo-file that
    cannot be opened and a read that fails on the first line all give
    [None], for both probes. *)
Lemma probes_absent_on_failure (w : os_env) (p : string) :
  (os_fs w !! p = None ∨
   (∃ e, os_fs w !! p = Some (Unopenable e)) ∨
   (∃ e rest, os_fs w !! p = Some (Opens (inl e :: rest)))) →
  (p = "/proc/self/status"%string → read_linux_cpu_affinity w = Ret None) ∧
  (p = "/proc/self/cgroup"%string → read_linux_cgroup_cpuset w = Ret None).
Proof.
  intros Hfail. split; intros ->.
  - destruct (read_linux_cpu_affinity_returns w) as [a Ha].
    rewrite Ha. f_equal. destruct a as [s|]; [|done].
    apply read_linux_cpu_affinity_Some in Ha
      as (_ & before & line & rest & v & Hfs & _).
    destruct Hfail as [Hf|[[e Hf]|(e & rest' & Hf)]]; rewrite Hf in Hfs;
      try done.
    by destruct before.
  - destruct (read_linux_cgroup_cpuset_returns w) as [c Hc].
    rewrite Hc. f_equal. destruct c as [s|]; [|done].
    apply read_linux_cgroup_cpuset_Some in Hc
      as (_ & before & line & rest & q & ct & Hfs & _).
    destruct Hfail as [Hf|[[e Hf]|(e & rest' & Hf)]]; rewrite Hf in Hfs;
      try done.
    by destruct before.
Qed.

End ProbeFacts.

(** ** Command lines *)

Section ArgparseFacts.
Import Py Argparse.
Variable P : parser.

(** Induction following the recursion of [consume], which steps over one
    token or over an option and its argument. *)
Lemma token_list_ind (Q : list token → Prop) :
  Q [] →
  (∀ t ts, Q ts → (∀ t' ts', ts = t' :: ts' → Q ts') → Q (t :: ts)) →
  ∀ ts, Q ts.
Proof.
  intros Hnil Hcons ts.
  enough (Q ts ∧ ∀ t' ts', ts = t' :: ts' → Q ts') by tauto.
  induction ts as [|t ts [IH1 IH2]]; [by split|].
  split; [by apply Hcons|]. by intros t' ts' [= _ <-].
Qed.

Lemma app_not_nil {A} (l : list A) (x : A) : l ++ [x] ≠ [].
Proof. by destruct l. Qed.

(** Once something is left over, or a stray token is still to come, the
    command line is not accepted. *)
Lemma consume_rejects ts :
  ∀ ns extras, extras ≠ [] ∨ Exists stray ts →
  ∀ ns', consume P ts ns extras ≠ Parsed ns'.
Proof.
  induction ts as [|t ts IH IH2] using token_list_ind; intros ns extras H ns'.
  - destruct H as [H|H%Exists_nil]; [|done]. simpl. by destruct extras.
  - destruct t as [s| |a opt e|s]; simpl.
    + apply IH. left. apply app_not_nil.
    + apply IH. left. apply app_not_nil.
    + assert (Hts : extras ≠ [] ∨ Exists stray ts).
      { destruct H as [H|H]; [by left|].
        apply Exists_cons in H as [[]|H]. by right. }
      destruct a as [dest|dest|], e as [e|]; try done.
      * destruct (get_value e); [by apply IH | done].
      * destruct ts as [|[s| | |] ts']; try done.
        destruct (get_value s); [|done].
        apply (IH2 _ _ eq_refl).
        destruct Hts as [?|Hts]; [by left|].
        apply Exists_cons in Hts as [[]|?]. by right.
      * by apply IH.
      * by destruct (_ && _).
    + apply IH. left. apply app_not_nil.
Qed.

(** Options stored elsewhere leave [dest] as it was. *)
Lemma consume_keeps dest ts :
  ∀ ns extras ns',
    (∀ a opt e, TOpt a opt e ∈ ts → dest_of a ≠ Some dest) →
    consume P ts ns extras = Parsed ns' →
    ns' !! dest = ns !! dest.
Proof.
  induction ts as [|t ts IH IH2] using token_list_ind;
    intros ns extras ns' Hno.
  - simpl. destruct extras; [by intros [= ->] | done].
  - assert (Hts : ∀ a opt e, TOpt a opt e ∈ ts → dest_of a ≠ Some dest).
    { intros a opt e Hin. apply (Hno a opt e). by right. }
    destruct t as [s| |a opt e|s]; simpl; try by apply IH.
    assert (Ha : dest_of a ≠ Some dest) by (apply (Hno a opt e); left).
    destruct a as [d|d|], e as [e|]; simpl in Ha; try done.
    + destruct (get_value e); [|done]. intros H.
      rewrite (IH _ _ _ Hts H). apply lookup_insert_ne. congruence.
    + destruct ts as [|[s| | |] ts']; try done.
      destruct (get_value s); [|done]. intros H.
      rewrite (IH2 _ _ eq_refl _ _ _ (λ a opt e Hin,
                 Hts a opt e (list_elem_of_further _ _ _ Hin)) H).
      apply lookup_insert_ne. congruence.
    + intros H. rewrite (IH _ _ _ Hts H). apply lookup_insert_ne. congruence.
    + by destruct (_ && _).
Qed.

(** The exit status is 2, or 0 when a help option was reached. *)
Lemma consume_exit ts :
  ∀ ns extras c,
    consume P ts ns extras = Exit c →
    c = 2 ∨ (c = 0 ∧ ∃ opt e, TOpt Help opt e ∈ ts).
Proof.
  induction ts as [|t ts IH IH2] using token_list_ind; intros ns extras c.
  - simpl. destruct extras; [done|]. intros [= <-]. by left.
  - assert (Hup : c = 2 ∨ (c = 0 ∧ ∃ opt e, TOpt Help opt e ∈ ts) →
                  c = 2 ∨ (c = 0 ∧ ∃ opt e, TOpt Help opt e ∈ t :: ts)).
    { intros [?|(? & opt & e & ?)]; [by left|].
      right. split; [done|]. exists opt, e. by right. }
    destruct t as [s| |a opt e|s]; simpl;
      try (intros H; apply Hup; by eapply IH).
    destruct a as [d|d|], e as [e|].
    + destruct (get_value e); [|intros [= <-]; by left].
      intros H; apply Hup; by eapply IH.
    + destruct ts as [|[s| | |] ts']; try (intros [= <-]; by left).
      destruct (get_value s); [|intros [= <-]; by left].
      intros H. apply Hup.
      destruct (IH2 _ _ eq_refl _ _ _ H) as [?|(? & o & e & ?)]; [by left|].
      right. split; [done|]. exists o, e. by right.
    + intros [= <-]; by left.
    + intros H; apply Hup; by eapply IH.
    + destruct (_ && _); intros [= <-]; [right | by left].
      split; [done|]. exists opt, (Some e). by left.
    + intros [= <-]. right. split; [done|]. exists opt, None. by left.
Qed.

(** Every option token comes from an argument string that selects it. *)
Lemma classify_options argv :
  ∀ ts a opt e,
    classify P argv = Some ts → TOpt a opt e ∈ ts →
    ∃ tok, tok ∈ argv ∧ classify_one P tok = Some (TOpt a opt e).
Proof.
  induction argv as [|tok0 rest IH]; intros ts a opt e; simpl.
  - intros [= <-] ?%elem_of_nil. done.
  - destruct (String.eqb tok0 "--").
    + intros [= <-] [?|Hin]%elem_of_cons; [done|].
      apply list_elem_of_fmap in Hin as (? & ? & ?). done.
    + destruct (classify_one P tok0) as [t|] eqn:Ht; [|done].
      destruct (classify P rest) as [ts'|]; [|done].
      intros [= <-] [->|Hin]%elem_of_cons.
      * exists tok0. split; [by left | done].
      * destruct (IH _ _ _ _ eq_refl Hin) as (tok & ? & ?).
        exists tok. split; [by right | done].
Qed.

(** An unrecognised flag leaves a stray token behind. *)
Lemma classify_stray argv :
  ∀ ts tok,
    classify P argv = Some ts → tok ∈ argv → unrecognised P tok →
    Exists stray ts.
Proof.
  induction argv as [|tok0 rest IH]; intros ts tok; simpl.
  - by intros _ ?%elem_of_nil.
  - destruct (String.eqb tok0 "--").
    + intros [= <-] _ _. by left.
    + destruct (classify_one P tok0) as [t|] eqn:Ht; [|done].
      destruct (classify P rest) as [ts'|]; [|done].
      intros [= <-] [->|Hin]%elem_of_cons Hun.
      * unfold unrecognised in Hun. rewrite Ht in Hun.
        injection Hun as ->. by left.
      * right. by eapply IH.
Qed.

(** C9, as the code has it.  For either parser and every command line:
    a flag that no argument string selects keeps its documented default
    whenever the command line is accepted; and a command line holding an
    unrecognised flag is never accepted: [parse_args] ends the process
    with status 2, or with status 0 when a help flag is reached first. *)
Theorem flags_default_or_exit (argv : list string) :
  (∀ args dest,
     parse_args P argv = Parsed args → flag_missing P argv dest →
     args !! dest = defaults P !! dest) ∧
  (∀ tok,
     tok ∈ argv → unrecognised P tok →
     parse_args P argv = Exit 2 ∨
     (parse_args P argv = Exit 0 ∧
      ∃ tok' opt e, tok' ∈ argv ∧
                    classify_one P tok' = Some (TOpt Help opt e))).
Proof.
  unfold parse_args. split.
  - intros args dest Hparsed Hmissing.
    destruct (classify P argv) as [ts|] eqn:Hts; [|done].
    eapply consume_keeps; [|done].
    intros a opt e Hin.
    destruct (classify_options _ _ _ _ _ Hts Hin) as (tok & ? & ?).
    by eapply Hmissing.
  - intros tok Hin Hun.
    destruct (classify P argv) as [ts|] eqn:Hts; [|by left].
    destruct (consume P ts (defaults P) []) as [args|c] eqn:Hc.
    + exfalso. eapply consume_rejects; [|done].
      right. by eapply classify_stray.
    + apply consume_exit in Hc as [->|(-> & opt & e & Hhelp)]; [by left|].
      right. split; [done|].
      destruct (classify_options _ _ _ _ _ Hts Hhelp) as (tok' & ? & ?).
      by exists tok', opt, e.
Qed.

End ArgparseFacts.

(** With no flag at all, [stress_long.py] runs on its three defaults and
    [ml_benchmark.py] on its five. *)
Lemma parse_args_no_flags :
  Argparse.parse_args Argparse.stress_parser []
  = Argparse.Parsed (Argparse.defaults Argparse.stress_parser) ∧
  Argparse.parse_args Argparse.benchmark_parser []
  = Argparse.Parsed (Argparse.defaults Argparse.benchmark_parser).
Proof. by split. Qed.

(** ** The load generator of [stress_long.py] *)

Section StressFacts.
Import Py Argparse Load StressLong.

Lemma filter_none {A} (p : A → bool) (l : list A) :
  Forall (λ x, p x = false) l → List.filter p l = [].
Proof. induction 1 as [|x l Hx _ IH]; simpl; [done|]. by rewrite Hx. Qed.

Lemma filter_all {A} (p : A → bool) (l : list A) :
  Forall (λ x, p x = true) l → List.filter p l = l.
Proof.
  induction 1 as [|x l Hx _ IH]; simpl; [done|]. by rewrite Hx, IH.
Qed.

(** The loop emits products, synchronisations (on CUDA only) and sleeps. *)
Lemma gpu_iterate_events E d stop_time c :
  ∀ k last,
    Forall (λ e, e = Matmul d ∨ (is_cuda d = true ∧ e = CudaSynchronize)
                 ∨ e = Sleep 5)
           (gpu_iterate E d stop_time k last c).1.1.
Proof.
  induction c as [|now later IH]; intros k last; simpl; [done|].
  destruct (now <? stop_time); [|done].
  destruct (matmul_fault E k); [simpl; constructor; by auto|].
  destruct (is_cuda d) eqn:Hd.
  - destruct (sync_fault E k); simpl;
      repeat (constructor; [by auto|]); [done | apply IH].
  - simpl. repeat (constructor; [by auto|]). apply IH.
Qed.

(** The loop returns, raises a [RuntimeError] or never comes back. *)
Lemma gpu_iterate_ends E d stop_time c :
  ∀ k last,
    let f := (gpu_iterate E d stop_time k last c).2 in
    f = None ∨ (∃ msg, f = Some (Raises (RuntimeError msg))) ∨ f = Some Blocks.
Proof.
  induction c as [|now later IH]; intros k last; simpl; [by auto|].
  destruct (now <? stop_time); [|by auto].
  destruct (matmul_fault E k); [by eauto|].
  destruct (is_cuda d); [destruct (sync_fault E k); [by eauto|]|]; apply IH.
Qed.

(** It comes back whenever the clock reaches the deadline. *)
Lemma gpu_iterate_reaches E d stop_time c :
  reaches c stop_time →
  ∀ k last, (gpu_iterate E d stop_time k last c).2 ≠ Some Blocks.
Proof.
  intros (t & Hin & Ht).
  induction c as [|now later IH]; intros k last; simpl.
  - by apply elem_of_nil in Hin.
  - destruct (Z.ltb_spec now stop_time) as [Hlt|]; [|done].
    apply elem_of_cons in Hin as [->|Hin]; [lia|].
    destruct (matmul_fault E k); [done|].
    destruct (is_cuda d); [destruct (sync_fault E k); [done|]|]; by apply IH.
Qed.

Lemma join_all_events timeout ts :
  ∀ i now, Forall (λ e, is_join e = true) (join_all timeout i ts now).1.
Proof.
  induction ts as [|t ts IH]; intros i now; simpl; [done|].
  destruct (join timeout now t); simpl; [|by repeat constructor].
  constructor; [done | apply IH].
Qed.

(** Joins with a timeout all return, each within its timeout. *)
Lemma join_all_timeout d ts :
  0 ≤ d →
  ∀ i now, ∃ t, (join_all (Some d) i ts now).2 = Some t ∧
                now ≤ t ≤ now + d * Z.of_nat (length ts).
Proof.
  intros Hd. induction ts as [|w ts IH]; intros i now; simpl.
  - exists now. split; [done | lia].
  - assert (∃ now', join (Some d) now w = Some now' ∧ now ≤ now' ≤ now + d)
      as (now' & -> & Hnow').
    { destruct w as [e| |]; simpl; eexists; (split; [done|]); [|lia..].
      destruct (Z.leb_spec e (now + d)); lia. }
    simpl. destruct (IH (S i) now') as (t & -> & Ht).
    exists t. split; [done | lia].
Qed.

Lemma join_all_joins timeout ts :
  ∀ i now,
    (join_all timeout i ts now).2 ≠ None →
    (join_all timeout i ts now).1
    = (λ k, Join k timeout) <$> seq i (length ts).
Proof.
  induction ts as [|t ts IH]; intros i now; simpl; [done|].
  destruct (join timeout now t); simpl; [|done].
  intros H. by rewrite IH.
Qed.

Lemma setup_no_thread (ls : list line) :
  Forall (λ e, is_thread_start e = false) (Print <$> ls).
Proof. by apply Forall_fmap, Forall_true. Qed.

Lemma gpu_loop_events E d n stop_time :
  ∃ rest, (gpu_loop E d n stop_time).1.1 = Randn d n n :: rest ∧
    Forall (λ e, e = Matmul d ∨ (is_cuda d = true ∧ e = CudaSynchronize)
                 ∨ e = Sleep 5) rest.
Proof.
  unfold gpu_loop. destruct (randn_fault E d n); simpl.
  - by exists [].
  - eexists. split; [done | apply gpu_iterate_events].
Qed.

(** The second phase of [main] is made of the loop's events, the line of
    a caught fault, the joins and the last line. *)
Lemma gpu_and_join_events E d m stop_time ts :
  ∃ err joins fin,
    (gpu_and_join E d m stop_time ts).1
    = (gpu_loop E d m stop_time).1.1 ++ err ++ joins ++ fin ∧
    Forall (λ e, ∃ l, e = Print l) err ∧
    Forall (λ e, is_join e = true) joins ∧
    Forall (λ e, ∃ l, e = Print l) fin.
Proof.
  unfold gpu_and_join.
  set (g := gpu_loop E d m stop_time).
  set (j := join_all (Some 1000) 0 ts g.1.2).
  assert (Hj : Forall (λ e, is_join e = true) j.1) by apply join_all_events.
  assert (Hgo : ∀ err, Forall (λ e, ∃ l, e = Print l) err →
    ∃ err' joins fin,
      (match j.2 with
       | Some t => ((g.1.1 ++ err) ++ j.1 ++ [Print LDone], Returns t)
       | None => ((g.1.1 ++ err) ++ j.1, Blocks)
       end).1 = g.1.1 ++ err' ++ joins ++ fin ∧
      Forall (λ e, ∃ l, e = Print l) err' ∧
      Forall (λ e, is_join e = true) joins ∧
      Forall (λ e, ∃ l, e = Print l) fin).
  { intros err Herr. destruct j.2; simpl.
    - exists err, j.1, [Print LDone]. rewrite <- !app_assoc.
      split_and!; try done. repeat constructor. by eexists.
    - exists err, j.1, []. rewrite <- !app_assoc, app_nil_r. by split_and!. }
  destruct g.2 as [[t|e|]|] eqn:Hg.
  - exists [], [], []. simpl. by rewrite app_nil_r.
  - destruct e; try (exists [], [], []; simpl; by rewrite app_nil_r).
    apply Hgo. repeat constructor. by eexists.
  - exists [], [], []. simpl. by rewrite app_nil_r.
  - destruct (Hgo []) as (err & joins & fin & H & ?); [done|].
    exists err, joins, fin. by rewrite app_nil_r in H.
Qed.

Lemma int_attr_int args name z :
  args !! name = Some (VInt z) → int_attr args name = Ret z.
Proof. unfold int_attr. by intros ->. Qed.

Lemma float_limits : 5 < FLOAT_LIMIT ∧ DBL_MAX < FLOAT_LIMIT.
Proof. by vm_compute. Qed.

(** Line 117 for a duration that converts to a float, and for one that
    does not. *)
Lemma stop_time_at_fits now s :
  s < FLOAT_LIMIT → stop_time_at now s = Ret (now + 1000 * Z.max 5 s).
Proof.
  intros Hs. unfold stop_time_at. pose proof float_limits as [H5 _].
  destruct (Z.leb_spec FLOAT_LIMIT (Z.max 5 s)); [lia | done].
Qed.

Lemma stop_time_at_overflow now s :
  FLOAT_LIMIT ≤ s → stop_time_at now s = Raise OverflowError.
Proof.
  intros Hs. unfold stop_time_at.
  destruct (Z.leb_spec FLOAT_LIMIT (Z.max 5 s)); [done | lia].
Qed.

(** The readings of the main thread are floats, taken after the epoch: a
    deadline that one of them reaches was computed without overflow. *)
Lemma reaches_fits E s :
  reaches (main_clock E) (deadline E s) → s < FLOAT_LIMIT.
Proof.
  intros (now & Hin & Hnow). unfold deadline in Hnow.
  pose proof (main_reads_floats E) as [H0 Hc]%andb_true_iff.
  apply andb_true_iff in H0 as [H0%Z.leb_le _].
  rewrite forallb_forall in Hc. apply list_elem_of_In, Hc in Hin.
  apply andb_true_iff in Hin as [_ Hmax%Z.leb_le].
  pose proof float_limits as [_ Hlim]. lia.
Qed.

(** [main] on an accepted command line whose three values are integers. *)
Lemma main_run E argv args s n m :
  parse_args stress_parser argv = Parsed args →
  args !! "seconds"%string = Some (VInt s) →
  s < FLOAT_LIMIT →
  args !! "cpu_threads"%string = Some (VInt n) →
  args !! "matrix"%string = Some (VInt m) →
  ∃ fields,
    let ts := burner_threads E n (deadline E s) in
    let r := gpu_and_join E (select_device E).2 m (deadline E s) ts in
    main E argv
    = Outcome ((Print <$> setup_lines E fields)
               ++ start_burners n (deadline E s) ++ r.1) ts r.2.
Proof.
  intros Hp Hs Hfit Hn Hm. unfold main. rewrite Hp.
  destruct (report_fields_returns (os E)) as [fields ->].
  rewrite (int_attr_int _ _ _ Hs), (stop_time_at_fits _ _ Hfit),
    (int_attr_int _ _ _ Hn), (int_attr_int _ _ _ Hm).
  by exists fields.
Qed.

(** [main] up to the start of the burners: nothing after them starts a
    thread. *)
Lemma main_started E argv args s n :
  parse_args stress_parser argv = Parsed args →
  args !! "seconds"%string = Some (VInt s) →
  s < FLOAT_LIMIT →
  args !! "cpu_threads"%string = Some (VInt n) →
  ∃ fields rest f,
    main E argv
    = Outcome ((Print <$> setup_lines E fields)
               ++ start_burners n (deadline E s) ++ rest)
              (burner_threads E n (deadline E s)) f ∧
    Forall (λ e, is_thread_start e = false) rest.
Proof.
  intros Hp Hs Hfit Hn. unfold main. rewrite Hp.
  destruct (report_fields_returns (os E)) as [fields ->].
  rewrite (int_attr_int _ _ _ Hs), (stop_time_at_fits _ _ Hfit),
    (int_attr_int _ _ _ Hn).
  fold (deadline E s).
  destruct (int_attr args "matrix") as [m|e].
  - eexists fields, _, _. split; [done|].
    destruct (gpu_and_join_events E (select_device E).2 m (deadline E s)
                (burner_threads E n (deadline E s)))
      as (err & joins & fin & -> & Herr & Hjoins & Hfin).
    destruct (gpu_loop_events E (select_device E).2 m (deadline E s))
      as (rest & -> & Hrest).
    rewrite !Forall_app. split_and!.
    + constructor; [done|]. eapply Forall_impl; [done|].
      by intros e [->|[[_ ->]| ->]].
    + eapply Forall_impl; [done|]. by intros e [l ->].
    + eapply Forall_impl; [done|]. by intros [].
    + eapply Forall_impl; [done|]. by intros e [l ->].
  - exists fields, [], (Raises e). by rewrite app_nil_r.
Qed.

Lemma thread_events_started setup k stop_time rest :
  Forall (λ e, is_thread_start e = false) rest →
  List.filter is_thread_start
    ((Print <$> setup)
     ++ replicate k (ThreadStart (CpuBurn stop_time) true) ++ rest)
  = replicate k (ThreadStart (CpuBurn stop_time) true).
Proof.
  intros Hrest. rewrite !List.filter_app.
  rewrite (filter_none _ (Print <$> setup)) by apply setup_no_thread.
  rewrite (filter_none _ rest) by done.
  rewrite filter_all by (by apply Forall_replicate).
  by rewrite app_nil_r.
Qed.

Lemma main_thread_events E argv args s n :
  parse_args stress_parser argv = Parsed args →
  args !! "seconds"%string = Some (VInt s) →
  s < FLOAT_LIMIT →
  args !! "cpu_threads"%string = Some (VInt n) →
  thread_events (main E argv)
  = replicate (burner_count n) (ThreadStart (CpuBurn (deadline E s)) true) ∧
  threads (main E argv) = burner_threads E n (deadline E s).
Proof.
  intros Hp Hs Hfit Hn.
  destruct (main_started E _ _ _ _ Hp Hs Hfit Hn)
    as (fields & rest & f & -> & Hrest).
  split; [|done]. unfold thread_events. simpl.
  by apply thread_events_started.
Qed.

Lemma gpu_loop_reaches E d m stop_time :
  reaches (main_clock E) stop_time →
  (gpu_loop E d m stop_time).2 ≠ Some Blocks.
Proof.
  intros H. unfold gpu_loop. destruct (randn_fault E d m); simpl; [done|].
  by apply gpu_iterate_reaches.
Qed.

Lemma gpu_loop_ends E d m stop_time :
  let f := (gpu_loop E d m stop_time).2 in
  f = None ∨ (∃ msg, f = Some (Raises (RuntimeError msg))) ∨ f = Some Blocks.
Proof.
  unfold gpu_loop. destruct (randn_fault E d m); simpl; [by eauto|].
  apply gpu_iterate_ends.
Qed.

(** Once the loop has ended, by returning or by a caught fault, [main]
    joins every thread and returns within one second per thread. *)
Lemma gpu_and_join_returns E d m stop_time ts :
  (gpu_loop E d m stop_time).2 ≠ Some Blocks →
  let g := gpu_loop E d m stop_time in
  let r := gpu_and_join E d m stop_time ts in
  List.filter is_join r.1 = (λ i, Join i (Some 1000)) <$> seq 0 (length ts) ∧
  ∃ t, r.2 = Returns t ∧
       g.1.2 ≤ t ≤ g.1.2 + 1000 * Z.of_nat (length ts).
Proof.
  intros Hg g r.
  destruct (join_all_timeout 1000 ts ltac:(lia) 0%nat g.1.2) as (t & Ht & Hbound).
  assert (Hjoins : (join_all (Some 1000) 0 ts g.1.2).1
                   = (λ i, Join i (Some 1000)) <$> seq 0 (length ts)).
  { apply join_all_joins. by rewrite Ht. }
  destruct (gpu_loop_events E d m stop_time) as (rest & Hev & Hrest).
  assert (Hnj : List.filter is_join g.1.1 = []).
  { subst g. rewrite Hev. apply filter_none. constructor; [done|].
    eapply Forall_impl; [done|]. by intros e [->|[[_ ->]| ->]]. }
  assert (Hj : List.filter is_join ((λ i, Join i (Some 1000)) <$> seq 0 (length ts))
               = (λ i, Join i (Some 1000)) <$> seq 0 (length ts)).
  { apply filter_all, Forall_fmap, Forall_true. done. }
  subst r. unfold gpu_and_join. fold g.
  destruct (gpu_loop_ends E d m stop_time) as [Hf|[[msg Hf]|Hf]];
    fold g in Hf; [| |done]; rewrite Hf, Ht, Hjoins; simpl;
    rewrite !List.filter_app, Hnj, Hj; simpl; rewrite ?app_nil_r;
    (split; [done|]); by exists t.
Qed.

Lemma gpu_and_join_gpu_events E d m stop_time ts :
  List.filter is_gpu_event (gpu_and_join E d m stop_time ts).1
  = List.filter is_gpu_event (gpu_loop E d m stop_time).1.1.
Proof.
  destruct (gpu_and_join_events E d m stop_time ts)
    as (err & joins & fin & -> & Herr & Hjoins & Hfin).
  rewrite !List.filter_app.
  rewrite (filter_none _ err), (filter_none _ joins), (filter_none _ fin).
  - by rewrite !app_nil_r.
  - eapply Forall_impl; [done|]. by intros e [l ->].
  - eapply Forall_impl; [done|]. by intros [].
  - eapply Forall_impl; [done|]. by intros e [l ->].
Qed.

Lemma main_gpu_events E argv args s n m :
  parse_args stress_parser argv = Parsed args →
  args !! "seconds"%string = Some (VInt s) →
  s < FLOAT_LIMIT →
  args !! "cpu_threads"%string = Some (VInt n) →
  args !! "matrix"%string = Some (VInt m) →
  gpu_events (main E argv)
  = List.filter is_gpu_event
      (gpu_loop E (select_device E).2 m (deadline E s)).1.1.
Proof.
  intros Hp Hs Hfit Hn Hm.
  destruct (main_run E _ _ _ _ _ Hp Hs Hfit Hn Hm) as (fields & ->).
  unfold gpu_events. cbn [trace]. rewrite !List.filter_app.
  rewrite (filter_none _ (Print <$> _)) by (by apply Forall_fmap, Forall_true).
  rewrite (filter_none _ (start_burners _ _)) by (by apply Forall_replicate).
  apply gpu_and_join_gpu_events.
Qed.

Lemma main_returns E argv args s n m :
  parse_args stress_parser argv = Parsed args →
  args !! "seconds"%string = Some (VInt s) →
  args !! "cpu_threads"%string = Some (VInt n) →
  args !! "matrix"%string = Some (VInt m) →
  reaches (main_clock E) (deadline E s) →
  let g := gpu_loop E (select_device E).2 m (deadline E s) in
  join_events (main E argv)
  = (λ i, Join i (Some 1000)) <$> seq 0 (burner_count n) ∧
  (∃ t, ending (main E argv) = Returns t ∧
        g.1.2 ≤ t ≤ g.1.2 + 1000 * Z.of_nat (burner_count n)) ∧
  exit_status true (main E argv) = Some 0.
Proof.
  intros Hp Hs Hn Hm Hreach g.
  destruct (main_run E _ _ _ _ _ Hp Hs (reaches_fits E s Hreach) Hn Hm)
    as (fields & ->).
  destruct (gpu_and_join_returns E (select_device E).2 m (deadline E s)
              (burner_threads E n (deadline E s)))
    as (Hjoins & t & Hret & Hbound); [by apply gpu_loop_reaches|].
  assert (Hlen : length (burner_threads E n (deadline E s)) = burner_count n).
  { unfold burner_threads. by rewrite length_fmap, length_seq. }
  rewrite Hlen in Hjoins, Hbound.
  unfold join_events, exit_status. cbn [trace ending]. rewrite Hret. split_and!.
  - rewrite !List.filter_app.
    rewrite (filter_none _ (Print <$> _)) by (by apply Forall_fmap, Forall_true).
    rewrite (filter_none _ (start_burners _ _)) by (by apply Forall_replicate).
    done.
  - by exists t.
  - done.
Qed.

End StressFacts.

(** ** The busy loop of [stress_long.py] *)

Section BurnerFacts.
Import Load StressLong.

Lemma Z_iter_succ {A} (f : A → A) (x : A) (k : Z) :
  0 ≤ k → Z.iter (Z.succ k) f x = f (Z.iter k f x).
Proof.
  destruct k as [|p|p]; intros Hk; [done| |lia].
  change (Z.succ (Z.pos p)) with (Z.pos p + 1). simpl.
  rewrite Pos.add_1_r. apply Pos.iter_succ.
Qed.

(** [sum(range(n))] in closed form. *)
Lemma sum_range_closed (n : Z) : 0 ≤ n → 2 * sum_range n = n * (n - 1).
Proof.
  intros Hn. unfold sum_range.
  enough (Z.iter n (λ p : Z * Z, (p.1 + 1, p.2 + p.1)) (0, 0)
          = (n, n * (n - 1) / 2)) as ->.
  { simpl. assert (H : (n * (n - 1)) `mod` 2 = 0).
    { destruct (Z.even n) eqn:He.
      - apply Z.even_spec in He as [k ->].
        replace (2 * k * (2 * k - 1)) with ((k * (2 * k - 1)) * 2) by lia.
        apply Z.mod_mul. lia.
      - assert (Ho : Z.odd n = true) by (by rewrite <- Z.negb_even, He).
        apply Z.odd_spec in Ho as [k ->].
        replace ((2 * k + 1) * (2 * k + 1 - 1)) with (((2 * k + 1) * k) * 2) by lia.
        apply Z.mod_mul. lia. }
    pose proof (Z.div_mod (n * (n - 1)) 2 ltac:(lia)). lia. }
  pattern n. apply natlike_ind; [done| |done].
  intros k Hk IH. rewrite Z_iter_succ by done. rewrite IH. cbn [fst snd].
  replace (Z.succ k * (Z.succ k - 1)) with (k * (k - 1) + k * 2) by lia.
  rewrite Z.div_add by lia. by f_equal.
Qed.

(** A burner leaves its loop at the first clock reading at or past the
    deadline, having done one round of work per earlier reading. *)
Lemma cpu_burn_from_exits work c stop_time :
  reaches c stop_time →
  ∀ s, ∃ t k, cpu_burn_from work s c stop_time = Some (t, s + Z.of_nat k * work) ∧
              stop_time ≤ t ∧ t ∈ c.
Proof.
  intros (now & Hin & Hnow). induction c as [|r later IH]; intros s; simpl.
  - by apply elem_of_nil in Hin.
  - destruct (Z.ltb_spec r stop_time) as [Hlt|Hge].
    + apply elem_of_cons in Hin as [->|Hin]; [lia|].
      destruct (IH Hin (s + work)) as (t & k & -> & Ht & Htin).
      exists t, (S k). split_and!; [f_equal; f_equal; lia | done | by right].
    + exists r, 0%nat. split_and!; [f_equal; f_equal; lia | done | by left].
Qed.

Lemma burner_thread_exits c stop_time :
  reaches c stop_time →
  ∃ t, burner_thread c stop_time = Exited t ∧ stop_time ≤ t.
Proof.
  intros H. unfold burner_thread, cpu_burn.
  destruct (cpu_burn_from_exits (sum_range 50000) c stop_time H 0)
    as (t & k & -> & Ht & _).
  by exists t.
Qed.

Lemma burner_thread_not_early c stop_time t :
  burner_thread c stop_time = Exited t → stop_time ≤ t.
Proof.
  unfold burner_thread, cpu_burn. generalize 0 as s.
  induction c as [|r later IH]; intros s; simpl; [done|].
  destruct (Z.ltb_spec r stop_time) as [Hlt|Hge]; [apply IH|].
  intros [= <-]. done.
Qed.

End BurnerFacts.

(** ** The two loops of [stress_long.py], reading by reading *)

Section StressLoops.
Import Py Argparse Load StressLong.

Lemma sum_range_50000 : sum_range 50000 = 1249975000.
Proof. pose proof (sum_range_closed 50000 ltac:(lia)). lia. Qed.

Lemma cpu_burn_from_rounds work (c : list Z) stop_time :
  ∀ s,
    cpu_burn_from work s c stop_time
    = (λ t, (t, s + Z.of_nat (readings_before c stop_time) * work))
        <$> c !! readings_before c stop_time.
Proof.
  induction c as [|now later IH]; intros s; [done|].
  cbn [cpu_burn_from readings_before].
  destruct (now <? stop_time).
  - rewrite IH.
    change ((now :: later) !! S (readings_before later stop_time))
      with (later !! readings_before later stop_time).
    destruct (later !! readings_before later stop_time) as [t|]; simpl; [|done].
    do 2 f_equal. lia.
  - simpl. do 2 f_equal. lia.
Qed.

Lemma readings_before_spec (c : list Z) t :
  (∀ now, c !! readings_before c t = Some now → t ≤ now) ∧
  (∀ i now, (i < readings_before c t)%nat → c !! i = Some now → now < t).
Proof.
  induction c as [|r later [IH1 IH2]]; simpl.
  - split; [done|]. intros i now Hi. lia.
  - destruct (Z.ltb_spec r t) as [Hlt|Hge]; simpl.
    + split; [done|]. intros [|i] now Hi; simpl.
      * by intros [= <-].
      * apply IH2. lia.
    + split; [by intros now [= <-]|]. intros i now Hi. lia.
Qed.

Lemma gpu_iterate_fault_free E d stop_time (c : list Z) :
  fault_free E →
  ∀ k last,
    let r := gpu_iterate E d stop_time k last c in
    r.1.1 = concat (replicate (readings_before c stop_time) (turn d)) ∧
    (∀ t, c !! readings_before c stop_time = Some t → r.2 = None ∧ r.1.2 = t) ∧
    (c !! readings_before c stop_time = None → r.2 = Some Blocks).
Proof.
  intros (_ & Hmat & Hsync).
  induction c as [|now later IH]; intros k last; simpl; [done|].
  destruct (now <? stop_time); simpl.
  - rewrite Hmat. specialize (IH (S k) now). simpl in IH.
    destruct IH as (Hev & Hret & Hblock). unfold turn in *.
    destruct (is_cuda d); [rewrite Hsync|]; simpl; rewrite Hev; done.
  - split_and!; [done| |done]. by intros t [= <-].
Qed.

Lemma gpu_iterate_late E d stop_time c :
  ∀ k last,
    (gpu_iterate E d stop_time k last c).2 = None →
    stop_time ≤ (gpu_iterate E d stop_time k last c).1.2.
Proof.
  induction c as [|now later IH]; intros k last; simpl; [done|].
  destruct (Z.ltb_spec now stop_time); [|done].
  destruct (matmul_fault E k); [done|].
  destruct (is_cuda d); [destruct (sync_fault E k); [done|]|]; apply IH.
Qed.

(** A worker leaves at its first reading at or past the deadline. *)
Lemma burner_thread_rounds (c : list Z) stop_time :
  burner_thread c stop_time
  = match c !! readings_before c stop_time with
    | Some t => Exited t
    | None => Hung
    end.
Proof.
  unfold burner_thread, cpu_burn. rewrite cpu_burn_from_rounds.
  by destruct (c !! _).
Qed.

Lemma readings_before_all (c : list Z) t :
  c !! readings_before c t = None → Forall (λ now, now < t) c.
Proof.
  induction c as [|r later IH]; simpl; [done|].
  destruct (Z.ltb_spec r t) as [Hlt|]; [|done]. intros Hnone.
  constructor; [done|]. by apply IH.
Qed.

(** The loop makes a product only at a reading before the deadline. *)
Lemma gpu_iterate_products E d stop_time (c : list Z) :
  ∀ k last,
    (length (List.filter is_matmul (gpu_iterate E d stop_time k last c).1.1)
     ≤ readings_before c stop_time)%nat.
Proof.
  induction c as [|now later IH]; intros k last; simpl; [done|].
  destruct (now <? stop_time); [|done].
  destruct (matmul_fault E k); [simpl; lia|].
  destruct (is_cuda d); [destruct (sync_fault E k); [simpl; lia|]|];
    simpl; specialize (IH (S k) now); lia.
Qed.

Lemma products_turns d k :
  length (List.filter is_matmul (concat (replicate k (turn d)))) = k.
Proof.
  induction k as [|k IH]; [done|].
  cbn [replicate concat]. rewrite List.filter_app, length_app, IH.
  unfold turn. by destruct (is_cuda d).
Qed.

(** A loop that returned has seen a reading at or past its deadline. *)
Lemma gpu_loop_returned E d m stop_time :
  (gpu_loop E d m stop_time).2 = None → reaches (main_clock E) stop_time.
Proof.
  unfold gpu_loop. destruct (randn_fault E d m); [done|]. cbn [snd].
  generalize 0%nat (now0 E).
  induction (main_clock E) as [|now later IH]; intros k last; simpl; [done|].
  destruct (Z.ltb_spec now stop_time).
  - destruct (matmul_fault E k); [done|].
    assert (Hgo : (gpu_iterate E d stop_time (S k) now later).2 = None →
                  reaches (now :: later) stop_time).
    { intros (t & ? & ?)%IH. exists t. split; [by right | done]. }
    destruct (is_cuda d); [destruct (sync_fault E k); [done|]|]; exact Hgo.
  - intros _. exists now. split; [by left | done].
Qed.

(** Joins with a timeout wait for every thread that leaves in time. *)
Lemma join_all_waits d ts :
  0 ≤ d →
  ∀ base i now t,
    base ≤ now →
    Forall (λ th, ∃ e, th = Exited e ∧ e ≤ base + d) ts →
    (join_all (Some d) i ts now).2 = Some t →
    now ≤ t ∧ ∀ e, Exited e ∈ ts → e ≤ t.
Proof.
  intros Hd. induction ts as [|th ts IH]; intros base i now t Hbase Hall; simpl.
  - intros [= <-]. split; [lia|]. by intros e ?%elem_of_nil.
  - apply Forall_cons in Hall as [(e & -> & He) Hall]. simpl.
    destruct (Z.leb_spec e (now + d)); [|lia].
    intros Ht. apply (IH base) in Ht as [Hle Hts]; [|lia|done].
    split; [lia|]. intros e' [[= ->]|Hin]%elem_of_cons; [lia | by apply Hts].
Qed.

(** When the loop comes back, [main] returns when its last join does. *)
Lemma gpu_and_join_ending E d m stop_time ts t :
  (gpu_loop E d m stop_time).2 ≠ Some Blocks →
  (gpu_and_join E d m stop_time ts).2 = Returns t →
  (join_all (Some 1000) 0 ts (gpu_loop E d m stop_time).1.2).2 = Some t.
Proof.
  intros Hg. unfold gpu_and_join.
  destruct (gpu_loop_ends E d m stop_time) as [Hf|[[msg Hf]|Hf]];
    [| |done]; rewrite Hf;
    by destruct (join_all (Some 1000) 0 ts _).2; simpl; intros [= ->].
Qed.

Lemma filter_matmul_gpu (l : list event) :
  List.filter is_matmul (List.filter is_gpu_event l) = List.filter is_matmul l.
Proof.
  induction l as [|e l IH]; [done|]. destruct e; simpl; by rewrite ?IH.
Qed.

End StressLoops.

(** ** What the specification says about [stress_long.py] *)

Section StressClaims.
Import Py Argparse Load StressLong.

(** C10, as the code has it.  On every accepted command line whose worker
    count is the integer [n] and whose duration is an integer that converts
    to a float, so that line 117 is passed, [main] starts exactly
    [max(1, n)] CPU worker threads, whatever the environment; in particular
    one thread when [n <= 0]. *)
Theorem burners_started_is_max_1 E argv args s n :
  parse_args stress_parser argv = Parsed args →
  args !! "seconds"%string = Some (VInt s) →
  s < FLOAT_LIMIT →
  args !! "cpu_threads"%string = Some (VInt n) →
  threads_started (main E argv) = Z.to_nat (Z.max 1 n) ∧
  length (threads (main E argv)) = Z.to_nat (Z.max 1 n) ∧
  (n ≤ 0 → threads_started (main E argv) = 1%nat).
Proof.
  intros Hp Hs Hfit Hn.
  destruct (main_thread_events E _ _ _ _ Hp Hs Hfit Hn) as [Hev Hts].
  unfold threads_started. rewrite Hev, Hts, length_replicate.
  unfold burner_threads. rewrite length_fmap, length_seq.
  unfold burner_count. split_and!; [done..|]. intros Hle.
  by replace (Z.max 1 n) with 1 by lia.
Qed.

Lemma burners_started_is_max_1_witness :
  threads_started (main quiet_env ["--cpu-threads"; "-3"]%string)
  = Z.to_nat (Z.max 1 (-3)) ∧
  length (threads (main quiet_env ["--cpu-threads"; "-3"]%string))
  = Z.to_nat (Z.max 1 (-3)) ∧
  (-3 ≤ 0 →
   threads_started (main quiet_env ["--cpu-threads"; "-3"]%string) = 1%nat).
Proof.
  apply (burners_started_is_max_1 quiet_env ["--cpu-threads"; "-3"]%string
           (<["cpu_threads"%string := VInt (-3)]> (defaults stress_parser))
           180 (-3)); vm_compute; reflexivity.
Defined.

(** The claim of C10 fails when line 117 is not passed: with three workers
    asked for, no worker is started when the duration does not convert to
    a float ([OverflowError]) and when it is the empty list that
    [--seconds=--] leaves ([TypeError]). *)
Lemma no_worker_without_a_deadline :
  (∃ args,
     parse_args stress_parser
       ["--seconds"; huge_seconds; "--cpu-threads"; "3"]%string = Parsed args
     ∧ args !! "cpu_threads"%string = Some (VInt 3)) ∧
  ending (main quiet_env ["--seconds"; huge_seconds; "--cpu-threads"; "3"]%string)
  = Raises OverflowError ∧
  threads_started
    (main quiet_env ["--seconds"; huge_seconds; "--cpu-threads"; "3"]%string)
  = 0%nat ∧
  ending (main quiet_env ["--seconds=--"; "--cpu-threads"; "3"]%string)
  = Raises TypeError ∧
  threads_started
    (main quiet_env ["--seconds=--"; "--cpu-threads"; "3"]%string)
  = 0%nat.
Proof.
  split_and!; try (vm_compute; reflexivity).
  eexists. split; vm_compute; reflexivity.
Qed.

(** C5, as the code has it.  On every accepted command line with integer
    values whose duration converts to a float, the clock is read once, at
    line 117, and the deadline is that reading plus [max(5, seconds)]
    seconds.  Every worker thread is started on that one value and polls
    its own clock against it: it leaves at its first reading at or past
    the value, not before, and stays for ever when no reading gets there.
    The accelerator loop polls the main thread's clock against the same
    value: it makes no product but at a reading before it, and one at
    every such reading when no accelerator call fails. *)
Theorem one_deadline_for_all E argv args s n m :
  parse_args stress_parser argv = Parsed args →
  args !! "seconds"%string = Some (VInt s) →
  s < FLOAT_LIMIT →
  args !! "cpu_threads"%string = Some (VInt n) →
  args !! "matrix"%string = Some (VInt m) →
  let stop_time := now0 E + 1000 * Z.max 5 s in
  thread_events (main E argv)
  = replicate (Z.to_nat (Z.max 1 n)) (ThreadStart (CpuBurn stop_time) true) ∧
  length (threads (main E argv)) = Z.to_nat (Z.max 1 n) ∧
  (∀ i th,
     threads (main E argv) !! i = Some th →
     match th with
     | Exited t =>
         ∃ k, worker_clock E i !! k = Some t ∧ stop_time ≤ t ∧
              ∀ j now, (j < k)%nat → worker_clock E i !! j = Some now →
                       now < stop_time
     | Hung => Forall (λ now, now < stop_time) (worker_clock E i)
     | Died _ => False
     end) ∧
  (products (main E argv) ≤ readings_before (main_clock E) stop_time)%nat ∧
  (fault_free E →
   products (main E argv) = readings_before (main_clock E) stop_time).
Proof.
  intros Hp Hs Hfit Hn Hm stop_time.
  destruct (main_thread_events E _ _ _ _ Hp Hs Hfit Hn) as [Hev Hts].
  pose proof (main_gpu_events E _ _ _ _ _ Hp Hs Hfit Hn Hm) as Hgpu.
  fold (deadline E s) in stop_time.
  assert (Hprod : products (main E argv)
                  = length (List.filter is_matmul
                      (gpu_loop E (select_device E).2 m stop_time).1.1)).
  { unfold products. rewrite <- filter_matmul_gpu.
    fold (gpu_events (main E argv)). by rewrite Hgpu, filter_matmul_gpu. }
  split_and!.
  - done.
  - rewrite Hts. unfold burner_threads. by rewrite length_fmap, length_seq.
  - intros i th. rewrite Hts. unfold burner_threads.
    rewrite list_lookup_fmap.
    destruct (seq 0 (burner_count n) !! i) as [i'|] eqn:Hi; [|done].
    apply lookup_seq in Hi as [-> _]. simpl. intros [= <-].
    rewrite burner_thread_rounds.
    destruct (readings_before_spec (worker_clock E i) stop_time) as [H1 H2].
    generalize dependent (worker_clock E i). unfold clock.
    intros c H1 H2.
    destruct (c !! readings_before c (deadline E s)) as [t|] eqn:Ht.
    + exists (readings_before c stop_time).
      split_and!; [done | by apply H1 | done].
    + by apply readings_before_all.
  - rewrite Hprod. unfold gpu_loop.
    destruct (randn_fault E _ m); simpl; [lia|]. apply gpu_iterate_products.
  - intros Hff. rewrite Hprod. pose proof Hff as (Hrandn & _).
    unfold gpu_loop. rewrite Hrandn. cbn [fst snd].
    destruct (gpu_iterate_fault_free E (select_device E).2 stop_time
                (main_clock E) Hff 0%nat (now0 E)) as (-> & _).
    simpl. apply products_turns.
Qed.

Lemma one_deadline_for_all_witness :
  thread_events
    (main quiet_env ["--seconds"; "100"; "--cpu-threads"; "2"]%string)
  = replicate 2 (ThreadStart (CpuBurn 100000) true) ∧
  (∀ i th,
     threads (main quiet_env ["--seconds"; "100"; "--cpu-threads"; "2"]%string)
       !! i = Some th →
     th = Exited 180001) ∧
  products (main quiet_env ["--seconds"; "100"; "--cpu-threads"; "2"]%string)
  = 1%nat.
Proof.
  destruct (one_deadline_for_all quiet_env
              ["--seconds"; "100"; "--cpu-threads"; "2"]%string
              (<["cpu_threads"%string := VInt 2]>
                 (<["seconds"%string := VInt 100]> (defaults stress_parser)))
              100 2 4096) as (Hev & _ & Hth & _ & Hprod);
    [vm_compute; reflexivity..|].
  split_and!; [exact Hev | | by apply Hprod].
  replace (threads (main quiet_env
                      ["--seconds"; "100"; "--cpu-threads"; "2"]%string))
    with [Exited 180001; Exited 180001] by (vm_compute; reflexivity).
  intros [|[|i]] th; [by intros [= <-].. | done].
Defined.

(** The claim of C5 fails for a duration below five seconds: asked for one
    second at time 0, no worker is given the deadline 0 + 1 s; all are given
    0 + 5 s.  It also fails for a duration that does not convert to a
    float: no deadline is computed, line 117 raises [OverflowError] and no
    thread is started. *)
Lemma deadline_is_not_now_plus_d :
  (ThreadStart (CpuBurn (now0 quiet_env + 1000 * 1)) true
     ∉ trace (main quiet_env ["--seconds"; "1"]%string)) ∧
  thread_events (main quiet_env ["--seconds"; "1"]%string)
  = replicate 8 (ThreadStart (CpuBurn (now0 quiet_env + 1000 * 5)) true) ∧
  ending (main quiet_env ["--seconds"; huge_seconds]%string)
  = Raises OverflowError ∧
  thread_events (main quiet_env ["--seconds"; huge_seconds]%string) = [].
Proof.
  assert (Hhuge : ending (main quiet_env ["--seconds"; huge_seconds]%string)
                  = Raises OverflowError
                  ∧ thread_events
                      (main quiet_env ["--seconds"; huge_seconds]%string) = [])
    by (split; vm_compute; reflexivity).
  enough ((ThreadStart (CpuBurn (now0 quiet_env + 1000 * 1)) true
             ∉ trace (main quiet_env ["--seconds"; "1"]%string)) ∧
          thread_events (main quiet_env ["--seconds"; "1"]%string)
          = replicate 8 (ThreadStart (CpuBurn (now0 quiet_env + 1000 * 5)) true))
    by tauto.
  clear Hhuge.
  assert (Hev : thread_events (main quiet_env ["--seconds"; "1"]%string)
    = replicate 8 (ThreadStart (CpuBurn (now0 quiet_env + 1000 * 5)) true)).
  { vm_compute. reflexivity. }
  split; [|done]. intros Hin.
  assert (Hin' : ThreadStart (CpuBurn (now0 quiet_env + 1000 * 1)) true
                 ∈ thread_events (main quiet_env ["--seconds"; "1"]%string)).
  { apply list_elem_of_In, filter_In. split; [by apply list_elem_of_In | done]. }
  rewrite Hev in Hin'. apply elem_of_replicate in Hin' as [Heq _].
  discriminate Heq.
Qed.

(** C1, as the code has it.  On every accepted command line with integer
    values whose duration converts to a float, when CUDA is not available
    [main] says so and runs the accelerator loop on the CPU device: the run
    allocates the matrix on [Cpu] and every further accelerator event is a
    product on [Cpu] (there is no device synchronisation).  The
    [max(1, cpu_threads)] workers are started all the same, and a worker
    left running comes to its end, leaving its loop at or past the
    deadline, whenever its own clock reaches the deadline.  When the main
    thread's clock reaches the deadline [main] returns and the process
    exits 0; it returns after every worker has left its loop when each
    worker leaves within a second of the end of the accelerator loop (the
    workers are daemon threads, joined for one second each: the process
    does not wait longer for them). *)
Theorem no_cuda_loop_runs_on_cpu E argv args s n m :
  cuda_available E = false →
  parse_args stress_parser argv = Parsed args →
  args !! "seconds"%string = Some (VInt s) →
  s < FLOAT_LIMIT →
  args !! "cpu_threads"%string = Some (VInt n) →
  args !! "matrix"%string = Some (VInt m) →
  Print LCudaUnavailable ∈ trace (main E argv) ∧
  (∃ rest, gpu_events (main E argv) = Randn Cpu m m :: rest ∧
           Forall (λ e, e = Matmul Cpu) rest) ∧
  threads_started (main E argv) = Z.to_nat (Z.max 1 n) ∧
  length (threads (main E argv)) = Z.to_nat (Z.max 1 n) ∧
  (∀ i th,
     threads (main E argv) !! i = Some th →
     reaches (worker_clock E i) (deadline E s) →
     ∃ e, th = Exited e ∧ deadline E s ≤ e) ∧
  (reaches (main_clock E) (deadline E s) →
   ∃ t, ending (main E argv) = Returns t ∧
        exit_status true (main E argv) = Some 0 ∧
        (Forall (λ th, ∃ e, th = Exited e ∧
                            e ≤ (gpu_loop E Cpu m (deadline E s)).1.2 + 1000)
                (threads (main E argv)) →
         ∀ e, Exited e ∈ threads (main E argv) → e ≤ t)).
Proof.
  intros Hcuda Hp Hs Hfit Hn Hm.
  assert (Hdev : select_device E = ([LCudaUnavailable], Cpu)).
  { unfold select_device. by rewrite Hcuda. }
  destruct (main_thread_events E _ _ _ _ Hp Hs Hfit Hn) as [Hev Hts].
  split_and!.
  - destruct (main_run E _ _ _ _ _ Hp Hs Hfit Hn Hm) as (fields & ->).
    cbn [trace]. apply elem_of_app. left.
    apply list_elem_of_fmap. exists LCudaUnavailable. split; [done|].
    unfold setup_lines. rewrite Hdev. cbn [fst].
    apply elem_of_app. right. apply elem_of_app. left. by left.
  - rewrite (main_gpu_events E _ _ _ _ _ Hp Hs Hfit Hn Hm), Hdev. cbn [snd].
    destruct (gpu_loop_events E Cpu m (deadline E s)) as (rest & -> & Hrest).
    exists (List.filter is_gpu_event rest). split; [done|].
    induction Hrest as [|e rest He _ IH]; [done|].
    destruct He as [->|[[? _]| ->]]; simpl; [by constructor | done | done].
  - unfold threads_started. by rewrite Hev, length_replicate.
  - rewrite Hts. unfold burner_threads. by rewrite length_fmap, length_seq.
  - intros i th. rewrite Hts. unfold burner_threads.
    rewrite list_lookup_fmap.
    destruct (seq 0 (burner_count n) !! i) as [i'|] eqn:Hi; [|done].
    apply lookup_seq in Hi as [-> _]. simpl. intros [= <-] Hreach.
    by apply burner_thread_exits.
  - intros Hreach.
    destruct (main_returns E _ _ _ _ _ Hp Hs Hn Hm Hreach)
      as (_ & (t & Ht & _) & Hexit).
    exists t. split_and!; [done..|].
    destruct (main_run E _ _ _ _ _ Hp Hs Hfit Hn Hm) as (fields & Hmain).
    rewrite Hmain in Ht |- *. cbn [ending threads] in *. rewrite Hdev in Ht.
    cbn [snd] in Ht. intros Hall.
    apply gpu_and_join_ending in Ht; [|by apply gpu_loop_reaches].
    eapply (join_all_waits 1000 _ ltac:(lia) _ 0%nat); [|exact Hall|exact Ht].
    lia.
Qed.

Lemma no_cuda_loop_runs_on_cpu_witness :
  Print LCudaUnavailable ∈ trace (main quiet_env []) ∧
  (∃ rest, gpu_events (main quiet_env []) = Randn Cpu 4096 4096 :: rest ∧
           Forall (λ e, e = Matmul Cpu) rest) ∧
  threads_started (main quiet_env []) = Z.to_nat (Z.max 1 8) ∧
  (∃ t, ending (main quiet_env []) = Returns t ∧
        exit_status true (main quiet_env []) = Some 0 ∧
        ∀ e, Exited e ∈ threads (main quiet_env []) → e ≤ t).
Proof.
  destruct (no_cuda_loop_runs_on_cpu quiet_env [] (defaults stress_parser)
              180 8 4096) as (Hline & Hgpu & Hn & _ & _ & Hexit);
    [reflexivity | reflexivity | reflexivity | reflexivity | reflexivity
    | reflexivity |].
  split_and!; [exact Hline | exact Hgpu | exact Hn |].
  destruct Hexit as (t & Ht & H0 & Hall).
  { exists 180000. split; [by do 2 right; left|]. vm_compute. discriminate. }
  exists t. split_and!; [exact Ht | exact H0 |]. apply Hall.
  replace (threads (main quiet_env [])) with (replicate 8 (Exited 180001))
    by (vm_compute; reflexivity).
  apply Forall_replicate. exists 180001. split; [reflexivity|].
  vm_compute. discriminate.
Defined.

(** The claim of C1 fails on a host without CUDA.  The accelerator loop is
    not skipped, it runs on the CPU device; and the workers need not run to
    completion: when the matrix cannot be allocated, [main] reports it,
    joins its eight workers for a second each and the process exits 0
    after eight seconds, three minutes before any worker would have left
    its loop.  Nor does the process always exit 0: with a duration that
    does not convert to a float it exits 1, no worker started. *)
Lemma no_cuda_loop_not_skipped :
  cuda_available quiet_env = false ∧
  ¬ gpu_loop_skipped (main quiet_env []) ∧
  Matmul Cpu ∈ trace (main quiet_env []) ∧
  cuda_available no_memory_env = false ∧
  ending (main no_memory_env []) = Returns 8000 ∧
  exit_status true (main no_memory_env []) = Some 0 ∧
  threads (main no_memory_env []) = replicate 8 (Exited 180001) ∧
  exit_status true (main quiet_env ["--seconds"; huge_seconds]%string)
  = Some 1 ∧
  threads_started (main quiet_env ["--seconds"; huge_seconds]%string) = 0%nat.
Proof.
  split_and!; [done| | |done|vm_compute; reflexivity..].
  - unfold gpu_loop_skipped. vm_compute. discriminate.
  - apply list_elem_of_In. vm_compute. do 17 right. by left.
Qed.

End StressClaims.

(** ** The pinned workers of [cpu_partition_stress.py] *)

Section PartitionFacts.
Import Py Load Partition.

Lemma sorted_Permutation (s : gset Z) : sorted s ≡ₚ elements s.
Proof. apply merge_sort_Permutation. Qed.

Lemma length_sorted (s : gset Z) : length (sorted s) = size s.
Proof. unfold size, set_size. simpl. by rewrite sorted_Permutation. Qed.

Lemma elem_of_sorted (s : gset Z) (x : Z) : x ∈ sorted s ↔ x ∈ s.
Proof. by rewrite sorted_Permutation, elem_of_elements. Qed.

Lemma NoDup_sorted (s : gset Z) : NoDup (sorted s).
Proof. rewrite sorted_Permutation. apply NoDup_elements. Qed.

(** [sorted] lists the set in strictly increasing order. *)
Lemma sorted_increasing (s : gset Z) : StronglySorted Z.lt (sorted s).
Proof.
  pose proof (NoDup_sorted s) as Hnd.
  pose proof (StronglySorted_merge_sort Z.le (elements s)) as Hs.
  fold (sorted s) in Hs. induction Hs as [|x l _ IH Hx]; [constructor|].
  apply NoDup_cons in Hnd as [Hnot Hnd]. constructor; [by apply IH|].
  apply Forall_forall. intros y Hy.
  pose proof (proj1 (Forall_forall _ _) Hx y Hy) as Hle.
  assert (x ≠ y) by (by intros ->). lia.
Qed.

Lemma Sorted_seqZ (m n : Z) : Sorted Z.le (seqZ m n).
Proof.
  unfold seqZ. generalize (Z.to_nat n) as k, 0%nat as a.
  induction k as [|k IH]; intros a; simpl; [done|].
  constructor; [apply IH|].
  destruct k; simpl; constructor. lia.
Qed.

(** Sorting the set of the first [n] integers gives [range(n)]. *)
Lemma sorted_range (n : Z) : sorted (list_to_set (seqZ 0 n)) = seqZ 0 n.
Proof.
  apply (Sorted_unique Z.le).
  - apply (Sorted_merge_sort Z.le).
  - apply Sorted_seqZ.
  - rewrite sorted_Permutation. apply elements_list_to_set, NoDup_seqZ.
Qed.

Lemma affinity_read E s :
  sched_getaffinity E = Ret s → affinity E = Ret (sorted s).
Proof. unfold affinity. by intros ->. Qed.

Lemma affinity_fallback E e :
  sched_getaffinity E = Raise e → is_Exception e = true →
  affinity E = range (cpu_count E).
Proof. unfold affinity. intros -> He. simpl. by rewrite He. Qed.

(** Without a core count the fall-back itself raises: [range(None)]. *)
Lemma affinity_fallback_no_count E e :
  sched_getaffinity E = Raise e → is_Exception e = true →
  cpu_count E = None →
  affinity E = Raise TypeError ∧ ending (script E) = Raises TypeError.
Proof.
  intros Hs He Hc. assert (Ha : affinity E = Raise TypeError).
  { rewrite (affinity_fallback _ _ Hs He), Hc. done. }
  split; [done|]. unfold script. by rewrite Ha.
Qed.

(** The loop leaves at the first reading 20 s or more after [t0]. *)
Lemma burn_Exited t0 c t :
  burn t0 c = Exited t → t ∈ c ∧ t0 + 20000 ≤ t.
Proof.
  induction c as [|now later IH]; simpl; [done|].
  destruct (Z.ltb_spec (now - t0) 20000).
  - intros [? ?]%IH. split; [by right | done].
  - intros [= <-]. split; [by left | lia].
Qed.

Lemma burn_exits t0 c :
  (∃ now, now ∈ c ∧ t0 + 20000 ≤ now) →
  ∃ t, burn t0 c = Exited t ∧ t0 + 20000 ≤ t.
Proof.
  intros (t & Hin & Ht). induction c as [|now later IH]; simpl.
  - by apply elem_of_nil in Hin.
  - destruct (Z.ltb_spec (now - t0) 20000); [|exists now; split; [done|lia]].
    apply elem_of_cons in Hin as [->|Hin]; [lia | by apply IH].
Qed.

Lemma join_all_forever ts :
  ∀ i now, (join_all None i ts now).2 = None ↔ Hung ∈ ts.
Proof.
  induction ts as [|t ts IH]; intros i now; simpl.
  - split; [done | by intros ?%elem_of_nil].
  - destruct t as [e|e|]; simpl.
    + rewrite IH. split; [by right|]. by intros [?|?]%elem_of_cons.
    + rewrite IH. split; [by right|]. by intros [?|?]%elem_of_cons.
    + split; [by left | done].
Qed.

Lemma join_all_timeouts timeout ts :
  ∀ i now, Forall (λ e, ∃ k, e = Join k timeout) (join_all timeout i ts now).1.
Proof.
  induction ts as [|t ts IH]; intros i now; simpl; [done|].
  destruct (join timeout now t); simpl.
  - constructor; [by eexists | apply IH].
  - constructor; [by eexists | done].
Qed.

(** The shape of a run whose affinity list is [cpus]. *)
Lemma script_run E cpus :
  affinity E = Ret cpus →
  ∃ joins fin f,
    script E
    = Outcome ((Print <$> [LHostPid (hostname E) (pid E); LAllowedCpus cpus;
                           LLaunching (length cpus)])
               ++ ((λ cpu, ThreadStart (CpuBurner cpu) true) <$> cpus)
               ++ joins ++ (Print <$> fin))
              (worker_end <$> workers E cpus) f ∧
    Forall (λ e, ∃ k, e = Join k None) joins ∧
    (f = Blocks ↔ Hung ∈ worker_end <$> workers E cpus) ∧
    (∀ e, f ≠ Raises e).
Proof.
  intros Ha. unfold script. rewrite Ha.
  set (ts := worker_end <$> workers E cpus).
  pose proof (join_all_timeouts None ts 0%nat (join_start E)) as Hj.
  pose proof (join_all_forever ts 0%nat (join_start E)) as Hf.
  destruct (join_all None 0 ts (join_start E)).2 as [t|].
  - eexists _, [LDoneLoaded; LCheckMpstat], _. split; [done|].
    split_and!; [done| |done].
    split; [done|]. intros H%Hf. done.
  - eexists _, [], _. simpl. rewrite app_nil_r. split; [done|].
    split_and!; [done| |done]. split; [by intros; apply Hf | done].
Qed.

Lemma script_thread_events E cpus :
  affinity E = Ret cpus →
  thread_events (script E) = (λ cpu, ThreadStart (CpuBurner cpu) true) <$> cpus.
Proof.
  intros Ha. destruct (script_run E cpus Ha) as (joins & fin & f & -> & Hj & _).
  unfold thread_events. cbn [trace]. rewrite !List.filter_app.
  rewrite (filter_none _ (Print <$> _)) by (by apply Forall_fmap, Forall_true).
  rewrite (filter_none _ joins)
    by (eapply Forall_impl; [done|]; by intros e [k ->]).
  rewrite (filter_none _ (Print <$> fin)) by (by apply Forall_fmap, Forall_true).
  rewrite filter_all by (by apply Forall_fmap, Forall_true).
  by rewrite app_nil_r.
Qed.

Lemma workers_lookup E cpus i w :
  workers E cpus !! i = Some w →
  ∃ cpu, cpus !! i = Some cpu ∧ w = cpu_burner E i cpu.
Proof.
  unfold workers. rewrite list_lookup_imap.
  destruct (cpus !! i) as [cpu|]; simpl; [|done].
  intros [= <-]. by exists cpu.
Qed.

Lemma pin_request_burner E i cpu : pin_request (cpu_burner E i cpu) = cpu.
Proof.
  unfold cpu_burner. destruct (try_except _ _ _); [|done].
  by destruct (worker_clock E i).
Qed.

Lemma printed_burner E i cpu : printed (cpu_burner E i cpu) = [].
Proof.
  unfold cpu_burner. destruct (try_except _ _ _); [|done].
  by destruct (worker_clock E i).
Qed.

Lemma pinned_burner E i cpu :
  sched_setaffinity E cpu = Ret tt → pinned (cpu_burner E i cpu) = true.
Proof.
  unfold cpu_burner. intros ->. simpl. by destruct (worker_clock E i).
Qed.

(** A worker whose pinning request fails with an ordinary exception goes
    on exactly as a pinned one, unpinned. *)
Lemma unpinned_burner E i cpu e :
  sched_setaffinity E cpu = Raise e → is_Exception e = true →
  cpu_burner E i cpu
  = Worker cpu false []
      match worker_clock E i with
      | [] => Hung
      | t0 :: later => burn t0 later
      end.
Proof.
  unfold cpu_burner. intros -> He. simpl. rewrite He.
  by destruct (worker_clock E i).
Qed.

Lemma worker_end_with_pinning E i cpu :
  (∀ e, sched_setaffinity E cpu = Raise e → is_Exception e = true) →
  worker_end (cpu_burner (with_pinning E) i cpu)
  = worker_end (cpu_burner E i cpu).
Proof.
  intros He. unfold cpu_burner at 2.
  destruct (sched_setaffinity E cpu) as [[]|e] eqn:Hpin; simpl.
  - unfold cpu_burner. simpl. by destruct (worker_clock E i).
  - rewrite (He e eq_refl). unfold cpu_burner. simpl.
    by destruct (worker_clock E i).
Qed.

Lemma workers_with_pinning E cpus :
  (∀ cpu e, sched_setaffinity E cpu = Raise e → is_Exception e = true) →
  worker_end <$> workers (with_pinning E) cpus
  = worker_end <$> workers E cpus.
Proof.
  intros He. unfold workers. apply list_eq. intros i.
  rewrite !list_lookup_fmap, !list_lookup_imap.
  destruct (cpus !! i) as [cpu|]; simpl; [|done].
  f_equal. apply worker_end_with_pinning. intros e. apply He.
Qed.

Lemma workers_printed E cpus : workers E cpus ≫= printed = [].
Proof.
  unfold workers. generalize 0%nat as k.
  enough (∀ (f : nat → Z → worker) k,
            (∀ i cpu, printed (f i cpu) = []) →
            imap f cpus ≫= printed = []) as H
    by (intros k; apply (H _ k); apply printed_burner).
  induction cpus as [|cpu cpus IH]; intros f k Hf; [done|].
  change (printed (f 0%nat cpu) ++ (imap (f ∘ S) cpus ≫= printed) = []).
  rewrite Hf. apply (IH _ k). intros i c. apply Hf.
Qed.

Lemma script_with_pinning E :
  (∀ cpu e, sched_setaffinity E cpu = Raise e → is_Exception e = true) →
  script (with_pinning E) = script E ∧ stdout (with_pinning E) = stdout E.
Proof.
  intros He.
  assert (Hs : script (with_pinning E) = script E).
  { unfold script. change (affinity (with_pinning E)) with (affinity E).
    destruct (affinity E) as [cpus|e]; [|done].
    rewrite (workers_with_pinning E cpus He). done. }
  split; [done|]. unfold stdout. rewrite Hs.
  change (affinity (with_pinning E)) with (affinity E).
  destruct (affinity E); [|done]. by rewrite !workers_printed.
Qed.

Lemma script_with_affinity E s :
  affinity E = Ret (sorted s) →
  script (with_affinity E s) = script E ∧
  stdout (with_affinity E s) = stdout E.
Proof.
  intros Ha.
  assert (Ha' : affinity (with_affinity E s) = Ret (sorted s)) by done.
  assert (Hs : script (with_affinity E s) = script E).
  { unfold script. by rewrite Ha, Ha'. }
  split; [done|]. unfold stdout. by rewrite Hs, Ha, Ha'.
Qed.

(** C3, as the code has it.  When the affinity call is missing or raises
    an ordinary exception and the runtime reports [n >= 1] cores, the
    prober's CPU set is the full range [0 .. n-1], which is not empty, and
    nothing is raised to the caller; but the report carries no note of the
    approximation: it is the report of a run in which the affinity call
    itself returned that set. *)
Theorem affinity_falls_back_to_all_cores E e n :
  sched_getaffinity E = Raise e → is_Exception e = true →
  cpu_count E = Some n → 1 ≤ n →
  affinity E = Ret (seqZ 0 n) ∧
  seqZ 0 n ≠ [] ∧
  length (seqZ 0 n) = Z.to_nat n ∧
  (∀ e', ending (script E) ≠ Raises e') ∧
  stdout E = stdout (with_affinity E (list_to_set (seqZ 0 n))).
Proof.
  intros Hs He Hc Hn.
  assert (Ha : affinity E = Ret (seqZ 0 n)).
  { rewrite (affinity_fallback _ _ Hs He), Hc. done. }
  split_and!.
  - done.
  - rewrite seqZ_cons by lia. done.
  - apply length_seqZ.
  - destruct (script_run E _ Ha) as (joins & fin & f & -> & _ & _ & Hf).
    apply Hf.
  - symmetry. apply script_with_affinity. by rewrite sorted_range.
Qed.

Lemma affinity_falls_back_to_all_cores_witness :
  affinity fallback_env = Ret (seqZ 0 2) ∧
  seqZ 0 2 ≠ [] ∧
  length (seqZ 0 2) = Z.to_nat 2 ∧
  (∀ e', ending (script fallback_env) ≠ Raises e') ∧
  stdout fallback_env
  = stdout (with_affinity fallback_env (list_to_set (seqZ 0 2))).
Proof.
  apply (affinity_falls_back_to_all_cores fallback_env AttributeError 2);
    [reflexivity | reflexivity | reflexivity | lia].
Defined.

(** The claim of C3 fails: on a host without the affinity call the report
    is, line for line, the one printed when the call works and returns
    [{0, 1}]; nothing in it notes the fall-back. *)
Lemma fallback_is_not_noted :
  sched_getaffinity fallback_env = Raise AttributeError ∧
  ¬ fallback_noted fallback_env.
Proof.
  split; [done|]. intros Hnoted. apply (Hnoted {[ 0; 1 ]}).
  vm_compute. reflexivity.
Qed.

(** C8, as the code has it.  When every pinning failure is an ordinary
    exception (an [OSError], a missing call), the run is not aborted and
    nothing is logged: the whole run, and everything printed, is what it
    is when every request is granted.  A worker whose request failed is
    not pinned, prints nothing, and runs the same loop: it leaves at the
    first clock reading 20 s or more after its start, and it does leave
    when its clock gets there. *)
Theorem pin_failure_is_silent E :
  (∀ cpu e, sched_setaffinity E cpu = Raise e → is_Exception e = true) →
  script E = script (with_pinning E) ∧
  stdout E = stdout (with_pinning E) ∧
  ∀ i cpu e,
    sched_setaffinity E cpu = Raise e →
    pinned (cpu_burner E i cpu) = false ∧
    printed (cpu_burner E i cpu) = [] ∧
    ∀ t0 later,
      worker_clock E i = t0 :: later →
      worker_end (cpu_burner E i cpu) = burn t0 later ∧
      (∀ t, burn t0 later = Exited t → t0 + 20000 ≤ t) ∧
      ((∃ now, now ∈ later ∧ t0 + 20000 ≤ now) →
       ∃ t, worker_end (cpu_burner E i cpu) = Exited t).
Proof.
  intros He. destruct (script_with_pinning E He) as [Hs Hout].
  split_and!; [done..|].
  intros i cpu e Hpin.
  rewrite (unpinned_burner E i cpu e Hpin (He _ _ Hpin)). cbn [pinned printed].
  split_and!; [done..|]. intros t0 later ->. cbn [worker_end]. split_and!.
  - done.
  - by intros t [_ ?]%burn_Exited.
  - intros (t & -> & _)%burn_exits. by exists t.
Qed.

Lemma pin_failure_is_silent_witness :
  script fallback_env = script (with_pinning fallback_env) ∧
  pinned (cpu_burner fallback_env 0 0) = false ∧
  worker_end (cpu_burner fallback_env 0 0) = Exited 20000.
Proof.
  assert (H : ∀ cpu e, sched_setaffinity fallback_env cpu = Raise e →
                       is_Exception e = true).
  { intros cpu e. simpl. destruct (cpu =? 0); [by intros [= <-] | done]. }
  destruct (pin_failure_is_silent fallback_env H) as (Hs & _ & Hw).
  destruct (Hw 0%nat 0 (OSError 22) eq_refl) as (Hp & _ & Hc).
  destruct (Hc 0 [10000; 20000] eq_refl) as (He & _).
  split_and!; [exact Hs | exact Hp | exact He].
Defined.

(** The claim of C8 fails: CPU 0 refuses to be pinned, and the output of
    the run is the output of the run in which it accepts. *)
Lemma pin_failure_is_not_logged :
  sched_setaffinity fallback_env 0 = Raise (OSError 22) ∧
  affinity fallback_env = Ret [0; 1] ∧
  ¬ pin_failure_logged fallback_env.
Proof.
  split_and!; [done..|]. intros Hlogged. apply Hlogged.
  vm_compute. reflexivity.
Qed.

End PartitionFacts.

(** ** Worker counts and joins, across the two load generators *)

Section LoadClaims.
Import Py Argparse Load.

(** C4, as the code has it.  When [cpu_partition_stress.py] reads the CPU
    set [s], it starts exactly [size s] workers, one for each CPU of [s]
    in strictly increasing order, and each worker asks to be pinned to its
    own CPU (and is, when the request is granted).  When [stress_long.py]
    is asked for [n] workers, on a command line whose duration converts to
    a float so that line 117 is passed, it starts [max(1, n)] of them:
    exactly [n] when [n >= 1], and one otherwise. *)
Theorem workers_per_cpu_or_max_1
    (Ep : Partition.env) (s : gset Z)
    (Es : StressLong.env) (argv : list string) (args : gmap string value)
    (secs n : Z) :
  Partition.sched_getaffinity Ep = Ret s →
  parse_args stress_parser argv = Parsed args →
  args !! "seconds"%string = Some (VInt secs) →
  secs < StressLong.FLOAT_LIMIT →
  args !! "cpu_threads"%string = Some (VInt n) →
  (thread_events (Partition.script Ep)
   = (λ cpu, ThreadStart (CpuBurner cpu) true) <$> Partition.sorted s ∧
   length (thread_events (Partition.script Ep)) = size s ∧
   StronglySorted Z.lt (Partition.sorted s) ∧
   NoDup (Partition.sorted s) ∧
   (∀ cpu, cpu ∈ Partition.sorted s ↔ cpu ∈ s) ∧
   Partition.pin_request <$> Partition.workers Ep (Partition.sorted s)
   = Partition.sorted s ∧
   (∀ w, w ∈ Partition.workers Ep (Partition.sorted s) →
         Partition.sched_setaffinity Ep (Partition.pin_request w) = Ret tt →
         Partition.pinned w = true)) ∧
  (StressLong.threads_started (StressLong.main Es argv)
   = Z.to_nat (Z.max 1 n) ∧
   (1 ≤ n → StressLong.threads_started (StressLong.main Es argv) = Z.to_nat n)).
Proof.
  intros Hs Hp Hsecs Hfit Hn. split.
  - pose proof (script_thread_events Ep _ (affinity_read Ep s Hs)) as Hev.
    split_and!.
    + done.
    + by rewrite Hev, length_fmap, length_sorted.
    + apply sorted_increasing.
    + apply NoDup_sorted.
    + apply elem_of_sorted.
    + unfold Partition.workers. apply list_eq. intros i.
      rewrite list_lookup_fmap, list_lookup_imap.
      destruct (Partition.sorted s !! i); simpl; [|done].
      by rewrite pin_request_burner.
    + intros w (i & Hw)%list_elem_of_lookup.
      apply workers_lookup in Hw as (cpu & _ & ->).
      rewrite pin_request_burner. apply pinned_burner.
  - destruct (main_thread_events Es _ _ _ _ Hp Hsecs Hfit Hn) as [Hev _].
    unfold StressLong.threads_started. rewrite Hev, length_replicate.
    unfold StressLong.burner_count. split; [done|]. intros H1.
    by replace (Z.max 1 n) with n by lia.
Qed.

Lemma workers_per_cpu_or_max_1_witness :
  thread_events (Partition.script Partition.three_cpu_env)
  = [ThreadStart (CpuBurner 0) true; ThreadStart (CpuBurner 2) true;
     ThreadStart (CpuBurner 4) true] ∧
  Partition.pin_request
    <$> Partition.workers Partition.three_cpu_env [0; 2; 4] = [0; 2; 4] ∧
  StressLong.threads_started
    (StressLong.main StressLong.quiet_env ["--cpu-threads"; "3"]%string)
  = 3%nat.
Proof.
  destruct (workers_per_cpu_or_max_1
              Partition.three_cpu_env {[ 4; 0; 2 ]}
              StressLong.quiet_env ["--cpu-threads"; "3"]%string
              (<["cpu_threads"%string := VInt 3]> (defaults stress_parser))
              180 3) as [(Hev & _ & _ & _ & _ & Hpin & _) (Hn & _)];
    [reflexivity | vm_compute; reflexivity | reflexivity
    | vm_compute; reflexivity | reflexivity |].
  split_and!; [exact Hev | exact Hpin | exact Hn].
Defined.

(** The claim of C4 fails for a requested count of zero: [stress_long.py]
    accepts [--cpu-threads 0] and starts one worker, not none.  It also
    fails when line 117 is not passed: with two workers requested and a
    duration that does not convert to a float, none is started. *)
Lemma zero_workers_requested_one_started :
  parse_args stress_parser ["--cpu-threads"; "0"]%string
  = Parsed (<["cpu_threads"%string := VInt 0]> (defaults stress_parser)) ∧
  StressLong.threads_started
    (StressLong.main StressLong.quiet_env ["--cpu-threads"; "0"]%string)
  ≠ Z.to_nat 0 ∧
  StressLong.threads_started
    (StressLong.main StressLong.quiet_env
       ["--cpu-threads"; "2"; "--seconds"; StressLong.huge_seconds]%string)
  = 0%nat.
Proof.
  split_and!; [vm_compute; reflexivity | | vm_compute; reflexivity].
  vm_compute. discriminate.
Qed.

(** C6, as the code has it.  In [stress_long.py], once the main thread's
    clock has reached the deadline, [main] joins every worker with a one
    second timeout and then proceeds whatever the workers do: it returns
    at most one second per worker after the accelerator loop ended, and
    the process exits 0.  In [cpu_partition_stress.py] every join is
    without a timeout, and the script never gets past them exactly when
    some worker never ends. *)
Theorem joins_bounded_by_timeout
    (Es : StressLong.env) (argv : list string) (args : gmap string value)
    (secs n m : Z) (Ep : Partition.env) (cpus : list Z) :
  parse_args stress_parser argv = Parsed args →
  args !! "seconds"%string = Some (VInt secs) →
  args !! "cpu_threads"%string = Some (VInt n) →
  args !! "matrix"%string = Some (VInt m) →
  StressLong.reaches (StressLong.main_clock Es) (StressLong.deadline Es secs) →
  Partition.affinity Ep = Ret cpus →
  (let loop_end :=
     (StressLong.gpu_loop Es (StressLong.select_device Es).2 m
        (StressLong.deadline Es secs)).1.2 in
   StressLong.join_events (StressLong.main Es argv)
   = (λ i, Join i (Some 1000)) <$> seq 0 (Z.to_nat (Z.max 1 n)) ∧
   (∃ t, ending (StressLong.main Es argv) = Returns t ∧
         loop_end ≤ t ≤ loop_end + 1000 * Z.of_nat (Z.to_nat (Z.max 1 n))) ∧
   exit_status true (StressLong.main Es argv) = Some 0) ∧
  (Forall (λ e, StressLong.is_join e = true → ∃ i, e = Join i None)
          (trace (Partition.script Ep)) ∧
   (ending (Partition.script Ep) = Blocks
    ↔ Hung ∈ threads (Partition.script Ep))).
Proof.
  intros Hp Hsecs Hn Hm Hreach Ha. split.
  - exact (main_returns Es _ _ _ _ _ Hp Hsecs Hn Hm Hreach).
  - destruct (script_run Ep cpus Ha) as (joins & fin & f & -> & Hj & Hf & _).
    cbn [trace ending threads]. split; [|done].
    rewrite !Forall_app. split_and!.
    + by apply Forall_fmap, Forall_true.
    + by apply Forall_fmap, Forall_true.
    + eapply Forall_impl; [done|]. intros e [k ->] _. by exists k.
    + by apply Forall_fmap, Forall_true.
Qed.

Lemma joins_bounded_by_timeout_witness :
  ending (StressLong.main StressLong.stuck_workers_env
            ["--seconds"; "60"; "--cpu-threads"; "2"]%string)
  = Returns 62000 ∧
  exit_status true (StressLong.main StressLong.stuck_workers_env
                      ["--seconds"; "60"; "--cpu-threads"; "2"]%string)
  = Some 0.
Proof.
  destruct (joins_bounded_by_timeout
              StressLong.stuck_workers_env
              ["--seconds"; "60"; "--cpu-threads"; "2"]%string
              (<["cpu_threads"%string := VInt 2]>
                 (<["seconds"%string := VInt 60]> (defaults stress_parser)))
              60 2 4096 Partition.fallback_env [0; 1])
    as [(_ & _ & Hexit) _];
    [vm_compute; reflexivity | reflexivity | reflexivity | reflexivity
    | exists 60000; split; [by left | vm_compute; discriminate]
    | reflexivity |].
  split; [vm_compute; reflexivity | exact Hexit].
Defined.

(** The claim of C6 fails in [cpu_partition_stress.py]: its joins have no
    timeout, so with a worker that never ends the script stays in the join
    and the process never exits. *)
Lemma join_without_timeout_blocks :
  Join 0 None ∈ trace (Partition.script Partition.hung_worker_env) ∧
  ending (Partition.script Partition.hung_worker_env) = Blocks ∧
  exit_status true (Partition.script Partition.hung_worker_env) = None.
Proof.
  split_and!; [|vm_compute; reflexivity..].
  apply list_elem_of_In. vm_compute. do 4 right. by left.
Qed.

(** The claim of C9 fails: an unrecognised flag is not replaced by the
    defaults, the parser rejects the command line with status 2 and
    [main] does nothing at all. *)
Lemma unknown_flag_is_rejected :
  unrecognised stress_parser "--bogus" ∧
  parse_args stress_parser ["--bogus"%string] = Exit 2 ∧
  trace (StressLong.main StressLong.quiet_env ["--bogus"%string]) = [] ∧
  exit_status true (StressLong.main StressLong.quiet_env ["--bogus"%string])
  = Some 2.
Proof. split_and!; vm_compute; reflexivity. Qed.

Lemma flags_default_or_exit_witness :
  (<["seconds"%string := VInt 7]> (defaults stress_parser) !! "matrix"%string
   = defaults stress_parser !! "matrix"%string) ∧
  (parse_args stress_parser ["--seconds"; "7"; "--bogus"]%string = Exit 2 ∨
   (parse_args stress_parser ["--seconds"; "7"; "--bogus"]%string = Exit 0 ∧
    ∃ tok' opt e, tok' ∈ ["--seconds"; "7"; "--bogus"]%string ∧
                  classify_one stress_parser tok'
                  = Some (TOpt Help opt e))).
Proof.
  split.
  - apply (proj1 (flags_default_or_exit stress_parser
                    ["--seconds"; "7"]%string)).
    + vm_compute. reflexivity.
    + intros tok a opt e Hin Hcl.
      apply elem_of_cons in Hin as [->|Hin];
        [|apply list_elem_of_singleton in Hin as ->];
        vm_compute in Hcl;
        first [discriminate Hcl | injection Hcl as <- _ _; discriminate].
  - apply (proj2 (flags_default_or_exit stress_parser
                    ["--seconds"; "7"; "--bogus"]%string) "--bogus"%string).
    + do 2 right. left.
    + vm_compute. reflexivity.
Defined.

End LoadClaims.

(** ** Reads of cgroup and NUMA information, across the scripts *)

Section ReadClaims.
Import Py Probe Script.

Lemma lenient_exn_Exception err :
  is_Exception (SimpleTest.lenient_exn err) = true.
Proof. by destruct err. Qed.

Lemma first_error_split {E A} (reads : list (E + A)) err :
  first_error reads = Some err →
  ∃ before rest, reads = (inr <$> before) ++ inl err :: rest.
Proof.
  induction reads as [|[e|l] reads IH]; simpl; [done| |].
  - intros [= ->]. by exists [], reads.
  - intros (before & rest & ->)%IH. by exists (l :: before), rest.
Qed.

Lemma readlines_breaks before err rest :
  MigTest.readlines ((inr <$> before) ++ inl err :: rest)
  = Raise (io_exn err).
Proof.
  induction before as [|l before IH]; [done|].
  rewrite fmap_cons. cbn [app MigTest.readlines]. by rewrite IH.
Qed.

Lemma read_breaks before err rest :
  read ((inr <$> before) ++ inl err :: rest) = Raise (io_exn err).
Proof.
  induction before as [|l before IH]; [done|].
  rewrite fmap_cons. cbn [app read]. by rewrite IH.
Qed.

Lemma readlines_lenient_breaks before err rest :
  SimpleTest.readlines ((inr <$> before) ++ inl err :: rest)
  = Raise (SimpleTest.lenient_exn err).
Proof.
  induction before as [|l before IH]; [done|].
  rewrite fmap_cons. cbn [app SimpleTest.readlines]. by rewrite IH.
Qed.

Lemma readlines_lenient_raises reads e :
  SimpleTest.readlines reads = Raise e → is_Exception e = true.
Proof.
  revert e. induction reads as [|[err|l] reads IH]; intros e; simpl; [done| |].
  - intros [= <-]. apply lenient_exn_Exception.
  - destruct (SimpleTest.readlines reads); simpl; [done|].
    intros [= <-]. by apply IH.
Qed.

Lemma and_then_say {line} (ls : list line) (b : out) :
  and_then (say ls) b = (ls ++ b.1, b.2).
Proof. done. Qed.

(** A section of a script: a title, a guarded stretch, a closing line.
    When only [Exception]s leave the stretch, the section returns, and it
    prints the handler's line for the exception that left the stretch. *)
Lemma section_returns {line} (head tail : list line) (body : out) h :
  (∀ e, body.2 = Some e → is_Exception e = true) →
  and_then (say head) (and_then (except body is_Exception h) (say tail))
  = (head ++ (body.1 ++ match body.2 with Some e => h e | None => [] end)
          ++ tail, None).
Proof.
  intros Hex. rewrite and_then_say. unfold except.
  destruct body as [ls [e|]]; simpl in *.
  - by rewrite (Hex e eq_refl).
  - by rewrite app_nil_r.
Qed.

(** *** [simple_test.py] *)

Lemma simple_cgroup_body_raises {line}
    (f : option SimpleTest.lenient_file) (k : list string → @out line) e :
  (∀ lines, (k lines).2 = None) →
  (with_value (SimpleTest.open_lenient f) (λ reads,
     with_value (SimpleTest.readlines reads) k)).2 = Some e →
  is_Exception e = true.
Proof.
  intros Hk. destruct f as [[n|reads]|]; simpl; try by intros [= <-].
  destruct (SimpleTest.readlines reads) as [lines|e'] eqn:Hr; simpl.
  - by rewrite Hk.
  - intros [= <-]. by eapply readlines_lenient_raises.
Qed.

Lemma index_raises {A} (l : list A) i e :
  index l i = Raise e → e = IndexError.
Proof. unfold index. destruct (l !! i); [done|]. by intros [= <-]. Qed.

Lemma scan_mems_raises reads e :
  (SimpleTest.scan_mems reads).2 = Some e → is_Exception e = true.
Proof.
  induction reads as [|[err|l] reads IH]; simpl; [done| |].
  - intros [= <-]. apply lenient_exn_Exception.
  - destruct (MigTest.contains_sub _ l); [|done].
    destruct (index _ 1) as [part|e'] eqn:Hi; simpl; [done|].
    intros [= <-]. by apply index_raises in Hi as ->.
Qed.

Lemma scan_mems_breaks before err rest :
  Forall (λ l, MigTest.contains_sub "Mems_allowed_list" l = false) before →
  SimpleTest.scan_mems ((inr <$> before) ++ inl err :: rest)
  = ([], Some (SimpleTest.lenient_exn err)).
Proof.
  induction 1 as [|l before Hl _ IH]; [done|].
  rewrite fmap_cons. cbn [app SimpleTest.scan_mems]. by rewrite Hl.
Qed.

(** *** [test_gpu_cpu.py] *)

Lemma print_lines_raises reads e :
  (TestGpuCpu.print_lines reads).2 = Some e → is_Exception e = true.
Proof.
  induction reads as [|[err|l] reads IH]; cbn [TestGpuCpu.print_lines].
  - done.
  - intros [= <-]. apply io_exn_Exception.
  - by rewrite and_then_say.
Qed.

Lemma print_lines_breaks before err rest :
  ∃ printed,
    TestGpuCpu.print_lines ((inr <$> before) ++ inl err :: rest)
    = (printed, Some (io_exn err)).
Proof.
  induction before as [|l before [printed IH]]; [by eexists|].
  rewrite fmap_cons. cbn [app TestGpuCpu.print_lines].
  rewrite and_then_say, IH. by eexists.
Qed.

Lemma find_mems_raises reads e :
  (TestGpuCpu.find_mems reads).2 = Some e → is_Exception e = true.
Proof.
  induction reads as [|[err|l] reads IH]; simpl; [done| |].
  - intros [= <-]. apply io_exn_Exception.
  - by destruct (MigTest.contains_sub _ l).
Qed.

Lemma find_mems_breaks before err rest :
  Forall (λ l, MigTest.contains_sub "Mems_allowed_list" l = false) before →
  TestGpuCpu.find_mems ((inr <$> before) ++ inl err :: rest)
  = ([], Some (io_exn err)).
Proof.
  induction 1 as [|l before Hl _ IH]; [done|].
  rewrite fmap_cons. cbn [app TestGpuCpu.find_mems]. by rewrite Hl.
Qed.

Lemma open_raises fs p e : open fs p = Raise e → is_Exception e = true.
Proof.
  unfold open. destruct (fs !! p) as [[err|reads]|]; try by intros [= <-].
  intros [= <-]. apply io_exn_Exception.
Qed.

Lemma numa_body_raises (T : TestGpuCpu.env) (body : out) e :
  body = match TestGpuCpu.numastat T with
         | inl err => ([], Some (io_exn err))
         | inr (returncode, stdout) =>
             if returncode =? 0 then say [TestGpuCpu.Text stdout]
             else and_then (say [TestGpuCpu.NumastatFailed])
                    (with_value
                       (open (TestGpuCpu.fs T)
                             (proc_path (TestGpuCpu.pid T) "status"))
                       TestGpuCpu.find_mems)
         end →
  body.2 = Some e → is_Exception e = true.
Proof.
  intros ->. destruct (TestGpuCpu.numastat T) as [err|[rc stdout]]; simpl.
  - intros [= <-]. apply io_exn_Exception.
  - destruct (rc =? 0); [done|]. rewrite and_then_say. simpl.
    destruct (open _ _) as [reads|e'] eqn:Ho; simpl.
    + apply find_mems_raises.
    + intros [= <-]. by eapply open_raises.
Qed.

(** C7.  No read of cgroup or NUMA information raises, whatever the
    pseudo-file system does, but only the two probes of [stress_long.py]
    and [ml_benchmark.py] answer a failure with an absent value.

    - [read_linux_cpu_affinity] and [read_linux_cgroup_cpuset] return, and
      return a value only when the platform is POSIX and every open and
      read on the way succeeded; the report is produced and carries a
      field only for a probe that returned a value.
    - [get_cgroup] of [mpi_mig_test.py] returns a string: the string
      ["error"] when the cgroup file is missing, cannot be opened or any
      read of it fails.
    - [get_system_info] of [train.py] prints "Cgroup: Could not determine"
      in these cases.
    - Section 3 of [simple_test.py] prints "Could not read: e" and section
      3 of [test_gpu_cpu.py], after the lines read so far, "Could not read
      cgroup info: e", [e] being the exception of the failure.
    - Section 4 of [simple_test.py] prints "Could not check: e", or
      "Memory error reading status file", when the status file cannot be
      opened or a read fails before a line with [Mems_allowed_list] is
      found; section 4 of [test_gpu_cpu.py] prints "Could not determine
      NUMA binding: e" when [numastat] cannot be run, and when it ran and
      failed and the status file then fails in the same way. *)
Theorem reads_are_best_effort
    (w : os_env) (M : MigTest.env) (fs : gmap string file) (pid : Z)
    (S : SimpleTest.env) (T : TestGpuCpu.env) :
  (* stress_long.py and ml_benchmark.py *)
  (∃ v, read_linux_cpu_affinity w = Ret v ∧
        ∀ s, v = Some s →
             os_name w = "posix"%string ∧ clean_status (os_fs w) s) ∧
  (∃ v, read_linux_cgroup_cpuset w = Ret v ∧
        ∀ s, v = Some s →
             os_name w = "posix"%string ∧ clean_cgroup (os_fs w) s) ∧
  (∃ fields, report_fields w = Ret fields ∧
     (∀ s, CpuAffinity s ∈ fields →
           read_linux_cpu_affinity w = Ret (Some s)) ∧
     (∀ s, CgroupCpuset s ∈ fields →
           read_linux_cgroup_cpuset w = Ret (Some s))) ∧
  (* mpi_mig_test.py *)
  (∃ cgroup, MigTest.get_cgroup M = Ret cgroup ∧
     (failure (MigTest.fs M) (proc_path (MigTest.pid M) "cgroup") ≠ None →
      cgroup = "error"%string)) ∧
  (* train.py *)
  ((Train.cgroup_lines fs pid).2 = None ∧
   (failure fs (proc_path pid "cgroup") ≠ None →
    (Train.cgroup_lines fs pid).1 = [Train.CgroupUnknown])) ∧
  (* simple_test.py *)
  ((SimpleTest.cgroup_section S).2 = None ∧
   ∀ e, SimpleTest.failure (SimpleTest.cgroup_file S) = Some e →
        (SimpleTest.cgroup_section S).1
        = [SimpleTest.CgroupHeader; SimpleTest.CouldNotRead e;
           SimpleTest.Blank]) ∧
  ((SimpleTest.numa_section S).2 = None ∧
   (∀ e, SimpleTest.open_lenient (SimpleTest.status_file S) = Raise e →
         (SimpleTest.numa_section S).1
         = [SimpleTest.NumaHeader; SimpleTest.CouldNotCheck e;
            SimpleTest.Blank]) ∧
   (∀ before err rest,
      SimpleTest.status_file S
      = Some (SimpleTest.Yields ((inr <$> before) ++ inl err :: rest)) →
      Forall (λ l, MigTest.contains_sub "Mems_allowed_list" l = false)
             before →
      (SimpleTest.numa_section S).1
      = [SimpleTest.NumaHeader;
         SimpleTest.numa_error_line (SimpleTest.lenient_exn err);
         SimpleTest.Blank])) ∧
  (* test_gpu_cpu.py *)
  ((TestGpuCpu.cgroup_section T).2 = None ∧
   ∀ e, failure (TestGpuCpu.fs T) (proc_path (TestGpuCpu.pid T) "cgroup")
        = Some e →
        ∃ printed,
          (TestGpuCpu.cgroup_section T).1
          = [TestGpuCpu.CgroupTitle; TestGpuCpu.Rule] ++ printed
            ++ [TestGpuCpu.CouldNotReadCgroup e; TestGpuCpu.Blank]) ∧
  ((TestGpuCpu.numa_section T).2 = None ∧
   (∀ err, TestGpuCpu.numastat T = inl err →
           (TestGpuCpu.numa_section T).1
           = [TestGpuCpu.NumaTitle; TestGpuCpu.Rule;
              TestGpuCpu.CouldNotDetermineNuma (io_exn err);
              TestGpuCpu.Blank]) ∧
   (∀ returncode stdout e,
      TestGpuCpu.numastat T = inr (returncode, stdout) → returncode ≠ 0 →
      open (TestGpuCpu.fs T) (proc_path (TestGpuCpu.pid T) "status")
      = Raise e
      ∨ (∃ before err rest,
           TestGpuCpu.fs T !! proc_path (TestGpuCpu.pid T) "status"
           = Some (Opens ((inr <$> before) ++ inl err :: rest))
           ∧ Forall (λ l, MigTest.contains_sub "Mems_allowed_list" l = false)
                    before
           ∧ e = io_exn err) →
      (TestGpuCpu.numa_section T).1
      = [TestGpuCpu.NumaTitle; TestGpuCpu.Rule; TestGpuCpu.NumastatFailed;
         TestGpuCpu.CouldNotDetermineNuma e; TestGpuCpu.Blank])).
Proof.
  destruct (probes_return_clean_values w) as (Ha & Hc & Hr).
  split; [done|]. split; [done|]. split; [done|]. clear Ha Hc Hr.
  split_and!.
  - (* get_cgroup *)
    unfold MigTest.get_cgroup, failure, open.
    change ("/proc/" +:+ pretty (MigTest.pid M) +:+ "/cgroup")%string
      with (proc_path (MigTest.pid M) "cgroup").
    destruct (MigTest.fs M !! _) as [[err|reads]|]; simpl;
      [by eexists | | by eexists].
    destruct (first_error reads) as [err|] eqn:Hfirst; simpl.
    + apply first_error_split in Hfirst as (before & rest & ->).
      rewrite readlines_breaks. simpl. by eexists.
    + destruct (MigTest.readlines reads); simpl; by eexists.
  - (* train.py *)
    unfold Train.cgroup_lines, except.
    by destruct (with_value _ _) as [ls [e|]].
  - unfold Train.cgroup_lines, failure, open.
    destruct (fs !! _) as [[err|reads]|]; simpl; [done| |done].
    destruct (first_error reads) as [err|] eqn:Hfirst; simpl; [|done].
    apply first_error_split in Hfirst as (before & rest & ->).
    by rewrite read_breaks.
  - (* simple_test.py, section 3 *)
    unfold SimpleTest.cgroup_section. rewrite section_returns; [done|].
    intros e. apply simple_cgroup_body_raises. by intros [|line0 lines].
  - intros e. unfold SimpleTest.cgroup_section, SimpleTest.failure.
    rewrite section_returns
      by (intros e'; apply simple_cgroup_body_raises;
          by intros [|line0 lines]).
    destruct (SimpleTest.cgroup_file S) as [[n|reads]|]; simpl;
      try by intros [= <-].
    destruct (first_error reads) as [err|] eqn:Hfirst; simpl; [|done].
    intros [= <-].
    apply first_error_split in Hfirst as (before & rest & ->).
    by rewrite readlines_lenient_breaks.
  - (* simple_test.py, section 4 *)
    unfold SimpleTest.numa_section. rewrite section_returns; [done|].
    intros e. unfold except at 1.
    destruct (with_value _ _) as [ls [e'|]] eqn:Hbody; simpl; [|done].
    assert (is_Exception e' = true) as He'.
    { destruct (SimpleTest.status_file S) as [[n|reads]|]; simpl in Hbody;
        try by injection Hbody as _ <-.
      apply (scan_mems_raises reads). by rewrite Hbody. }
    destruct (SimpleTest.is_MemoryError e'); simpl; [done|].
    by intros [= <-].
  - intros e Hopen. unfold SimpleTest.numa_section.
    rewrite Hopen. simpl.
    assert (SimpleTest.is_MemoryError e = false ∧ is_Exception e = true)
      as [Hm He].
    { destruct (SimpleTest.status_file S) as [[n|reads]|]; simpl in Hopen;
        try done; by injection Hopen as <-. }
    unfold except. simpl. rewrite Hm. simpl. by rewrite He.
  - intros before err rest Hfile Hbefore. unfold SimpleTest.numa_section.
    rewrite Hfile. simpl. rewrite scan_mems_breaks by done.
    by destruct err.
  - (* test_gpu_cpu.py, section 3 *)
    unfold TestGpuCpu.cgroup_section. rewrite section_returns; [done|].
    intros e. destruct (open _ _) as [reads|e'] eqn:Ho; simpl.
    + apply print_lines_raises.
    + intros [= <-]. by eapply open_raises.
  - intros e. unfold TestGpuCpu.cgroup_section, failure.
    rewrite section_returns.
    2: { intros e'. destruct (open _ _) as [reads|e''] eqn:Ho; simpl.
         - apply print_lines_raises.
         - intros [= <-]. by eapply open_raises. }
    unfold open. destruct (TestGpuCpu.fs T !! _) as [[err|reads]|]; simpl.
    + intros [= <-]. by exists [].
    + destruct (first_error reads) as [err|] eqn:Hfirst; simpl; [|done].
      intros [= <-].
      apply first_error_split in Hfirst as (before & rest & ->).
      destruct (print_lines_breaks before err rest) as [printed ->].
      exists printed. cbn [fst snd]. by rewrite <- app_assoc.
    + intros [= <-]. by exists [].
  - (* test_gpu_cpu.py, section 4 *)
    unfold TestGpuCpu.numa_section. rewrite section_returns; [done|].
    intros e. by apply (numa_body_raises T).
  - intros err Hn. unfold TestGpuCpu.numa_section.
    rewrite section_returns by (intros e; by apply (numa_body_raises T)).
    rewrite Hn. done.
  - intros rc stdout e Hn Hrc Hfail. unfold TestGpuCpu.numa_section.
    rewrite section_returns by (intros e'; by apply (numa_body_raises T)).
    rewrite Hn. destruct (Z.eqb_spec rc 0) as [?|_]; [done|].
    rewrite and_then_say.
    destruct Hfail as [->|(before & err & rest & Hfs & Hbefore & ->)].
    + done.
    + unfold open. rewrite Hfs. simpl. by rewrite find_mems_breaks.
Qed.

(** The claim of C7 fails for the reads outside the two probes: a failed
    read is answered with an error marker, not with an absent value.  The
    cgroup file of a rank breaks off with an [OSError]: [get_cgroup]
    returns ["error"] and the rank prints it as its cgroup.  Without a
    cgroup file [train.py] prints that the cgroup could not be determined,
    and without a status file [simple_test.py] prints the error of
    [open]. *)
Lemma failed_read_is_reported :
  failure (MigTest.fs MigTest.broken_read_rank) (proc_path 4242 "cgroup")
  = Some (OSError 5) ∧
  MigTest.get_cgroup MigTest.broken_read_rank = Ret "error"%string ∧
  Mpi.Say (Mpi.RankCgroup 0 "error")
  ∈ Mpi.trace (MigTest.main MigTest.broken_read_rank 1 0) ∧
  Train.cgroup_lines ∅ 4242 = ([Train.CgroupUnknown], None) ∧
  SimpleTest.numa_section (SimpleTest.Env 4242 None None)
  = ([SimpleTest.NumaHeader; SimpleTest.CouldNotCheck (OSError 2);
      SimpleTest.Blank], None).
Proof.
  split_and!; try by vm_compute.
  vm_compute. repeat constructor.
Qed.

End ReadClaims.

(** * Further properties of the code *)

(** ** The ring of the MPI tests *)

Section RingMore.
Import Ring.

Lemma filter_rank {A} (f : Z → A) (p : A → bool) (size k : Z) :
  0 ≤ k < size →
  (∀ i, 0 ≤ i < size → i ≠ k → p (f i) = false) →
  p (f k) = true →
  List.filter p (f <$> ranks size) = [f k].
Proof.
  intros Hk Hother Hat. unfold ranks.
  replace size with (k + (1 + (size - k - 1))) by lia.
  rewrite seqZ_app, (seqZ_app (0 + k) 1), !fmap_app, !List.filter_app by lia.
  rewrite (filter_none p (f <$> seqZ 0 k)).
  - rewrite (filter_none p (f <$> seqZ (0 + k + 1) _)).
    + rewrite (seqZ_cons (0 + k)), seqZ_nil by lia. simpl.
      replace (0 + k) with k by lia. by rewrite Hat.
    + apply Forall_fmap, Forall_seqZ. intros i Hi. apply Hother; lia.
  - apply Forall_fmap, Forall_seqZ. intros i Hi. apply Hother; lia.
Qed.

(** X1.  Once every rank has posted, the matching is exact: among all the
    posted sends exactly one matches the receive of [rank], the send of its
    left neighbour, and among all the posted receives exactly one matches
    the send of [rank], the receive of its right neighbour.  No message is
    left over and none can be taken by two receives. *)
Theorem ring_matching_is_exact (junk : Z → nat → Z) (size rank : Z) :
  0 ≤ rank < size →
  List.filter (send_matches (post_recv (junk rank) rank size))
              (posted_sends size)
  = [post_send (src rank size) size] ∧
  List.filter (recv_matches (post_send rank size)) (posted_recvs junk size)
  = [post_recv (junk (dst rank size)) (dst rank size) size].
Proof.
  intros Hr. split.
  - unfold posted_sends. apply (filter_rank (λ r, post_send r size)).
    + apply src_range. lia.
    + intros i Hi Hne. unfold send_matches. simpl.
      destruct (Z.eqb_spec i (src rank size)); [done | done].
    + unfold send_matches. simpl.
      by rewrite Z.eqb_refl, dst_src, Z.eqb_refl.
  - unfold posted_recvs. apply (filter_rank (λ r, post_recv (junk r) r size)).
    + apply dst_range. lia.
    + intros i Hi Hne. unfold recv_matches, send_matches. simpl.
      destruct (Z.eqb_spec (dst rank size) i); [congruence|].
      by rewrite andb_false_r.
    + unfold recv_matches, send_matches. simpl.
      by rewrite src_dst, !Z.eqb_refl.
Qed.

Lemma ring_matching_is_exact_witness :
  List.filter (send_matches (post_recv (λ _, 0) 0 4)) (posted_sends 4)
  = [post_send 3 4] ∧
  List.filter (recv_matches (post_send 0 4)) (posted_recvs (λ _ _, 0) 4)
  = [post_recv (λ _, 0) 1 4].
Proof. apply (ring_matching_is_exact (λ _ _, 0) 4 0). lia. Defined.

(** X2.  With at least two participants the two neighbours of a rank are
    ranks of the ring, neither is the rank itself, the right neighbour of
    the left neighbour (and the left of the right) is the rank, and the two
    neighbours coincide exactly in a ring of two. *)
Theorem ring_neighbours (size rank : Z) :
  2 ≤ size → 0 ≤ rank < size →
  0 ≤ src rank size < size ∧ 0 ≤ dst rank size < size ∧
  src rank size ≠ rank ∧ dst rank size ≠ rank ∧
  dst (src rank size) size = rank ∧ src (dst rank size) size = rank ∧
  (src rank size = dst rank size ↔ size = 2).
Proof.
  intros Hs Hr.
  assert (Hsrc : src rank size = if rank =? 0 then size - 1 else rank - 1).
  { unfold src. destruct (Z.eqb_spec rank 0) as [->|].
    - replace (0 - 1) with (-1 * size + (size - 1)) by lia.
      rewrite Z.add_comm, Z_mod_plus_full. apply Z.mod_small. lia.
    - apply Z.mod_small. lia. }
  assert (Hdst : dst rank size = if rank =? size - 1 then 0 else rank + 1).
  { unfold dst. destruct (Z.eqb_spec rank (size - 1)) as [->|].
    - replace (size - 1 + 1) with (0 + 1 * size) by lia.
      rewrite Z_mod_plus_full. apply Z.mod_small. lia.
    - apply Z.mod_small. lia. }
  split; [apply src_range; lia|]. split; [apply dst_range; lia|].
  split_and!.
  - rewrite Hsrc. destruct (Z.eqb_spec rank 0); lia.
  - rewrite Hdst. destruct (Z.eqb_spec rank (size - 1)); lia.
  - by apply dst_src.
  - by apply src_dst.
  - rewrite Hsrc, Hdst.
    destruct (Z.eqb_spec rank 0), (Z.eqb_spec rank (size - 1)); lia.
Qed.

Lemma ring_neighbours_witness :
  0 ≤ src 0 2 < 2 ∧ 0 ≤ dst 0 2 < 2 ∧
  src 0 2 ≠ 0 ∧ dst 0 2 ≠ 0 ∧
  dst (src 0 2) 2 = 0 ∧ src (dst 0 2) 2 = 0 ∧
  (src 0 2 = dst 0 2 ↔ 2 = 2).
Proof. apply (ring_neighbours 2 0); lia. Defined.

End RingMore.

(** ** The loops and [main] of [stress_long.py] *)

Section StressMore.
Import Py Argparse Load StressLong.

(** X3.  [cpu_burn] goes round once for every clock reading before the
    first one at or past the deadline, leaves at that reading, and returns
    1249975000 (the sum of [range(50000)]) times the number of rounds; it
    never returns when no reading gets to the deadline.  With a deadline
    already passed it returns 0 at once. *)
Theorem cpu_burn_counts_rounds (c : list Z) (stop_time : Z) :
  cpu_burn c stop_time
  = (λ t, (t, Z.of_nat (readings_before c stop_time) * 1249975000))
      <$> c !! readings_before c stop_time ∧
  (∀ t, c !! readings_before c stop_time = Some t → stop_time ≤ t) ∧
  (∀ i now, (i < readings_before c stop_time)%nat →
            c !! i = Some now → now < stop_time).
Proof.
  split; [|apply readings_before_spec].
  unfold cpu_burn. rewrite cpu_burn_from_rounds, sum_range_50000.
  by destruct (c !! _).
Qed.

(** X4.  When no accelerator call fails, [gpu_loop] allocates the matrix
    and then goes round once for every clock reading before the first one
    at or past the deadline.  On CUDA every single product is followed by a
    device synchronisation and the 5 ms sleep; on the CPU device by the
    sleep alone.  The loop returns at the first reading at or past the
    deadline, and never when there is none. *)
Theorem gpu_loop_turns E d n stop_time :
  fault_free E →
  (gpu_loop E d n stop_time).1.1
  = Randn d n n
    :: concat (replicate (readings_before (main_clock E) stop_time) (turn d)) ∧
  (∀ t, main_clock E !! readings_before (main_clock E) stop_time = Some t →
        (gpu_loop E d n stop_time).2 = None ∧
        (gpu_loop E d n stop_time).1.2 = t ∧ stop_time ≤ t) ∧
  (main_clock E !! readings_before (main_clock E) stop_time = None →
   (gpu_loop E d n stop_time).2 = Some Blocks).
Proof.
  intros Hff. pose proof Hff as (Hrandn & _).
  unfold gpu_loop. rewrite Hrandn. cbn [fst snd].
  destruct (gpu_iterate_fault_free E d stop_time (main_clock E) Hff 0%nat (now0 E))
    as (Hev & Hret & Hblock).
  split_and!.
  - by rewrite Hev.
  - intros t Ht. destruct (Hret t Ht) as [? ?]. split_and!; [done..|].
    by apply (proj1 (readings_before_spec (main_clock E) stop_time)).
  - done.
Qed.

Lemma gpu_loop_turns_witness :
  (gpu_loop quiet_env Cuda 2 150000).1.1
  = [Randn Cuda 2 2; Matmul Cuda; CudaSynchronize; Sleep 5;
     Matmul Cuda; CudaSynchronize; Sleep 5] ∧
  (gpu_loop quiet_env Cuda 2 150000).2 = None.
Proof.
  destruct (gpu_loop_turns quiet_env Cuda 2 150000) as (Hev & Hret & _);
    [by split_and!|].
  split; [exact Hev|]. exact (proj1 (Hret 180000 eq_refl)).
Defined.

(** X5.  When the accelerator loop returns normally, [main] does not
    return before the deadline [now + max(5, seconds)]: the configured
    duration is a lower bound on the run. *)
Theorem main_not_before_deadline E argv args s n m :
  parse_args stress_parser argv = Parsed args →
  args !! "seconds"%string = Some (VInt s) →
  args !! "cpu_threads"%string = Some (VInt n) →
  args !! "matrix"%string = Some (VInt m) →
  (gpu_loop E (select_device E).2 m (now0 E + 1000 * Z.max 5 s)).2 = None →
  ∃ t, ending (main E argv) = Returns t ∧ now0 E + 1000 * Z.max 5 s ≤ t.
Proof.
  intros Hp Hs Hn Hm Hloop. fold (deadline E s) in *.
  pose proof (reaches_fits E s (gpu_loop_returned E _ _ _ Hloop)) as Hfit.
  destruct (main_run E _ _ _ _ _ Hp Hs Hfit Hn Hm) as (fields & ->).
  cbn [ending].
  destruct (gpu_and_join_returns E (select_device E).2 m (deadline E s)
              (burner_threads E n (deadline E s)))
    as (_ & t & -> & Hlo & _); [by rewrite Hloop|].
  exists t. split; [done|]. etrans; [|exact Hlo].
  revert Hloop. unfold gpu_loop. destruct (randn_fault E _ m); [done|].
  cbn [fst snd]. apply gpu_iterate_late.
Qed.

Lemma main_not_before_deadline_witness :
  ∃ t, ending (main quiet_env ["--seconds"; "90"]%string) = Returns t ∧
       now0 quiet_env + 1000 * Z.max 5 90 ≤ t.
Proof.
  apply (main_not_before_deadline quiet_env ["--seconds"; "90"]%string
           (<["seconds"%string := VInt 90]> (defaults stress_parser))
           90 8 4096); vm_compute; reflexivity.
Defined.

(** X6.  On a command line whose duration converts to a float, a
    [RuntimeError] raised inside the accelerator loop does not end the
    run: [main] prints "GPU loop error: ..." with the error's message,
    still joins every worker with the one second timeout, prints "Done."
    last and the process exits 0. *)
Theorem gpu_fault_is_reported E argv args s n m msg :
  parse_args stress_parser argv = Parsed args →
  args !! "seconds"%string = Some (VInt s) →
  s < FLOAT_LIMIT →
  args !! "cpu_threads"%string = Some (VInt n) →
  args !! "matrix"%string = Some (VInt m) →
  (gpu_loop E (select_device E).2 m (now0 E + 1000 * Z.max 5 s)).2
  = Some (Raises (RuntimeError msg)) →
  (∃ before,
     trace (main E argv)
     = before ++ Print (LGpuLoopError msg)
       :: ((λ i, Join i (Some 1000)) <$> seq 0 (Z.to_nat (Z.max 1 n)))
       ++ [Print LDone]) ∧
  (∃ t, ending (main E argv) = Returns t) ∧
  exit_status true (main E argv) = Some 0.
Proof.
  intros Hp Hs Hfit Hn Hm Hloop. fold (deadline E s) in *.
  destruct (main_run E _ _ _ _ _ Hp Hs Hfit Hn Hm) as (fields & ->).
  cbn [trace ending]. unfold exit_status. cbn [ending].
  set (ts := burner_threads E n (deadline E s)).
  assert (Hlen : length ts = Z.to_nat (Z.max 1 n)).
  { unfold ts, burner_threads. by rewrite length_fmap, length_seq. }
  unfold gpu_and_join. rewrite Hloop.
  set (g := gpu_loop E (select_device E).2 m (deadline E s)).
  destruct (join_all_timeout 1000 ts ltac:(lia) 0%nat g.1.2) as (t & Ht & _).
  pose proof (join_all_joins (Some 1000) ts 0%nat g.1.2) as Hj.
  rewrite Ht in Hj |- *. rewrite Hj, Hlen by done. cbn [fst snd].
  split_and!; [|by exists t|done].
  exists ((Print <$> setup_lines E fields)
          ++ start_burners n (deadline E s) ++ g.1.1).
  by rewrite <- !app_assoc.
Qed.

Lemma gpu_fault_is_reported_witness :
  Print (LGpuLoopError "CUDA error: unspecified launch failure")
    ∈ trace (main faulty_env ["--cpu-threads"; "2"]%string) ∧
  exit_status true (main faulty_env ["--cpu-threads"; "2"]%string) = Some 0.
Proof.
  destruct (gpu_fault_is_reported faulty_env ["--cpu-threads"; "2"]%string
              (<["cpu_threads"%string := VInt 2]> (defaults stress_parser))
              180 2 4096 "CUDA error: unspecified launch failure")
    as ((before & Htrace) & _ & Hexit); [vm_compute; reflexivity..|].
  split; [|exact Hexit]. rewrite Htrace.
  apply elem_of_app. right. by left.
Defined.

(** X7.  A command line that the parser accepts can still stop [main]:
    [--seconds=--] and [--cpu-threads=--] are accepted and leave an empty
    list under the flag, and [max(5, [])] is a [TypeError], as is
    [max(1, [])], which is reached when the duration is an integer that
    converts to a float.  [main] then dies after the set-up report: no
    worker is started, nothing is joined, and the exit status is 1. *)
Theorem list_valued_flag_is_a_TypeError E argv args :
  parse_args stress_parser argv = Parsed args →
  args !! "seconds"%string = Some VEmptyList ∨
  (∃ s, args !! "seconds"%string = Some (VInt s) ∧ s < FLOAT_LIMIT) ∧
  args !! "cpu_threads"%string = Some VEmptyList →
  ending (main E argv) = Raises TypeError ∧
  Forall (λ e, ∃ l, e = Print l) (trace (main E argv)) ∧
  threads (main E argv) = [] ∧
  exit_status true (main E argv) = Some 1.
Proof.
  intros Hp Hbad. unfold main, exit_status. rewrite Hp.
  destruct (report_fields_returns (os E)) as [fields ->].
  assert (Hsetup : Forall (λ e, ∃ l, e = Print l) (Print <$> setup_lines E fields)).
  { apply Forall_fmap, Forall_true. intros l. by exists l. }
  unfold int_attr.
  destruct Hbad as [Hs|[(s & Hs & Hfit) Hn]]; rewrite Hs; [done|].
  by rewrite (stop_time_at_fits _ _ Hfit), Hn.
Qed.

Lemma list_valued_flag_is_a_TypeError_witness :
  ending (main quiet_env ["--seconds=--"]%string) = Raises TypeError ∧
  Forall (λ e, ∃ l, e = Print l) (trace (main quiet_env ["--seconds=--"]%string)) ∧
  threads (main quiet_env ["--seconds=--"]%string) = [] ∧
  exit_status true (main quiet_env ["--seconds=--"]%string) = Some 1.
Proof.
  apply (list_valued_flag_is_a_TypeError quiet_env ["--seconds=--"]%string
           (<["seconds"%string := VEmptyList]> (defaults stress_parser)));
    [vm_compute; reflexivity | by left].
Defined.

(** X27.  An accepted duration of [2^1024 - 2^970] or more does not
    convert to a float: line 117 raises [OverflowError] and [main] dies
    after the set-up report, with no worker started, no accelerator call
    made, nothing joined, and exit status 1. *)
Theorem huge_duration_is_an_OverflowError E argv args s :
  parse_args stress_parser argv = Parsed args →
  args !! "seconds"%string = Some (VInt s) →
  FLOAT_LIMIT ≤ s →
  ending (main E argv) = Raises OverflowError ∧
  Forall (λ e, ∃ l, e = Print l) (trace (main E argv)) ∧
  threads (main E argv) = [] ∧
  exit_status true (main E argv) = Some 1.
Proof.
  intros Hp Hs Hbig. unfold main, exit_status. rewrite Hp.
  destruct (report_fields_returns (os E)) as [fields ->].
  assert (Hsetup : Forall (λ e, ∃ l, e = Print l) (Print <$> setup_lines E fields)).
  { apply Forall_fmap, Forall_true. intros l. by exists l. }
  by rewrite (int_attr_int _ _ _ Hs), (stop_time_at_overflow _ _ Hbig).
Qed.

Lemma huge_duration_is_an_OverflowError_witness :
  ending (main quiet_env ["--seconds"; huge_seconds]%string)
  = Raises OverflowError.
Proof.
  apply (huge_duration_is_an_OverflowError quiet_env
           ["--seconds"; huge_seconds]%string
           (<["seconds"%string := VInt (10 ^ 400)]> (defaults stress_parser))
           (10 ^ 400)); vm_compute; first [reflexivity | discriminate].
Defined.

End StressMore.

(** ** The probes, when they succeed *)

Section ProbeMore.
Import Py Probe.

Lemma scan_status_skip before r :
  Forall (λ l, startswith l "Cpus_allowed_list:" = false) before →
  scan_status ((inr <$> before) ++ r) = scan_status r.
Proof. induction 1 as [|l before Hl _ IH]; simpl; [done|]. by rewrite Hl. Qed.

(** X8.  On a POSIX host whose status file opens, when the lines up to the
    first one starting with [Cpus_allowed_list:] are read without error,
    [read_linux_cpu_affinity] returns the rest of that line, stripped; what
    follows in the file is never read. *)
Theorem read_linux_cpu_affinity_value w before rest more :
  os_name w = "posix"%string →
  os_fs w !! "/proc/self/status"%string
  = Some (Opens ((inr <$> before)
                 ++ inr ("Cpus_allowed_list:" +:+ rest)%string :: more)) →
  Forall (λ l, startswith l "Cpus_allowed_list:" = false) before →
  read_linux_cpu_affinity w = Ret (Some (strip rest)).
Proof.
  intros Hos Hfs Hbefore. unfold read_linux_cpu_affinity, path_exists, open.
  rewrite Hos, Hfs. simpl. rewrite scan_status_skip by done.
  by destruct rest.
Qed.

Lemma read_linux_cpu_affinity_value_witness :
  read_linux_cpu_affinity mig0_host = Ret (Some "0-3"%string).
Proof.
  apply (read_linux_cpu_affinity_value mig0_host
           ["Name:	python3
"%string] "	0-3
"%string [inr "Mems_allowed_list:	0
"%string]); [reflexivity | reflexivity | by repeat constructor].
Defined.

Lemma scan_cgroup_skip fs before r :
  Forall (λ l, ∀ q, cpuset_path_of l = Some q → fs !! q = None) before →
  scan_cgroup fs ((inr <$> before) ++ r) = scan_cgroup fs r.
Proof.
  induction 1 as [|l before Hl _ IH]; simpl; [done|].
  destruct (cpuset_path_of l) as [q|]; [|done].
  unfold path_exists. by rewrite (Hl q eq_refl).
Qed.

Lemma read_lines content : read (inr <$> content) = Ret (text content).
Proof.
  induction content as [|l content IH]; [done|].
  rewrite fmap_cons. cbn [read]. by rewrite IH.
Qed.

Lemma read_fails reads :
  (∀ content, reads ≠ inr <$> content) → ∃ e, read reads = Raise e.
Proof.
  intros Hno. destruct (read reads) as [s|e] eqn:Hr; [|by exists e].
  apply read_Ret in Hr as (content & -> & _). by destruct (Hno content).
Qed.

(** X9.  On a POSIX host whose cgroup file opens, the first line that
    names an existing cpuset file decides alone: when that file opens and
    is read without error the result is its stripped text, and when it
    cannot be opened or a read of it fails the result is [None], whatever
    the later lines name.  Lines naming no existing file are passed over. *)
Theorem first_existing_cpuset_decides w before line more p :
  os_name w = "posix"%string →
  os_fs w !! "/proc/self/cgroup"%string
  = Some (Opens ((inr <$> before) ++ inr line :: more)) →
  Forall (λ l, ∀ q, cpuset_path_of l = Some q → os_fs w !! q = None) before →
  cpuset_path_of line = Some p →
  (∀ content,
     os_fs w !! p = Some (Opens (inr <$> content)) →
     read_linux_cgroup_cpuset w = Ret (Some (strip (text content)))) ∧
  (∀ e, os_fs w !! p = Some (Unopenable e) →
        read_linux_cgroup_cpuset w = Ret None) ∧
  (∀ reads,
     os_fs w !! p = Some (Opens reads) →
     (∀ content, reads ≠ inr <$> content) →
     read_linux_cgroup_cpuset w = Ret None).
Proof.
  intros Hos Hfs Hbefore Hp.
  assert (Hscan : ∀ f, os_fs w !! p = Some f →
            read_linux_cgroup_cpuset w = read_cpuset (os_fs w) p).
  { intros f Hf. unfold read_linux_cgroup_cpuset, path_exists, open.
    rewrite Hos, Hfs. simpl. rewrite scan_cgroup_skip by done. simpl.
    rewrite Hp. unfold path_exists. rewrite Hf.
    destruct (read_cpuset_returns (os_fs w) p) as [v ->]. done. }
  split_and!.
  - intros content Hf. rewrite (Hscan _ Hf). unfold read_cpuset, open.
    rewrite Hf. simpl. by rewrite read_lines.
  - intros e Hf. rewrite (Hscan _ Hf). unfold read_cpuset, open.
    rewrite Hf. simpl. by rewrite io_exn_Exception.
  - intros reads Hf Hbad. rewrite (Hscan _ Hf). unfold read_cpuset, open.
    rewrite Hf. simpl. destruct (read_fails reads Hbad) as [e He].
    rewrite He. simpl. by rewrite (guarded_read reads e He).
Qed.

Lemma first_existing_cpuset_decides_witness :
  read_linux_cgroup_cpuset mig0_host = Ret (Some "0-3"%string).
Proof.
  destruct (first_existing_cpuset_decides mig0_host
              ["1:name=systemd:/user.slice
"%string] "0::/mig/mig0
"%string [] "/sys/fs/cgroup/mig/mig0/cpuset.cpus"%string) as (Hok & _);
    [reflexivity | reflexivity | | reflexivity |].
  - repeat constructor. intros q Hq. vm_compute in Hq. discriminate Hq.
  - exact (Hok ["0-3
"%string] eq_refl).
Defined.

(** X10.  The report carries a probe's field exactly when the probe
    returned a non-empty string: a value that is blank after stripping (an
    empty cpuset file, say) is left out like a missing one.  Each field
    appears at most once, the affinity before the cpuset. *)
Theorem blank_values_are_not_reported w :
  ∃ fields,
    report_fields w = Ret fields ∧
    (∀ v, CpuAffinity v ∈ fields
          ↔ read_linux_cpu_affinity w = Ret (Some v) ∧ v ≠ EmptyString) ∧
    (∀ v, CgroupCpuset v ∈ fields
          ↔ read_linux_cgroup_cpuset w = Ret (Some v) ∧ v ≠ EmptyString) ∧
    (fields = [] ∨ (∃ a, fields = [CpuAffinity a]) ∨
     (∃ c, fields = [CgroupCpuset c]) ∨
     (∃ a c, fields = [CpuAffinity a; CgroupCpuset c])).
Proof.
  unfold report_fields.
  destruct (read_linux_cpu_affinity_returns w) as [a ->].
  destruct (read_linux_cgroup_cpuset_returns w) as [c ->].
  simpl. eexists. split; [done|].
  split_and!.
  - intros v. split.
    + intros [Hin|Hin]%elem_of_app.
      * destruct a as [[|ch s]|]; simpl in Hin;
          try by apply elem_of_nil in Hin.
        apply list_elem_of_singleton in Hin as [= ->]. done.
      * destruct c as [[|ch s]|]; simpl in Hin;
          try by apply elem_of_nil in Hin.
        by apply list_elem_of_singleton in Hin.
    + intros [[= ->] Hv]. apply elem_of_app. left.
      destruct v; [done|]. by left.
  - intros v. split.
    + intros [Hin|Hin]%elem_of_app.
      * destruct a as [[|ch s]|]; simpl in Hin;
          try by apply elem_of_nil in Hin.
        by apply list_elem_of_singleton in Hin.
      * destruct c as [[|ch s]|]; simpl in Hin;
          try by apply elem_of_nil in Hin.
        apply list_elem_of_singleton in Hin as [= ->]. done.
    + intros [[= ->] Hv]. apply elem_of_app. right.
      destruct v; [done|]. by left.
  - destruct a as [[|ch s]|], c as [[|ch' s']|]; simpl; eauto 10.
Qed.

End ProbeMore.

(** ** cpu_partition_stress.py: what the last two lines stand for *)

Section PartitionMore.
Import Py Load Partition.

Lemma join_all_None_returns ts :
  ∀ i now t,
    (join_all None i ts now).2 = Some t →
    now ≤ t ∧ (∀ e, Exited e ∈ ts → e ≤ t) ∧ (t = now ∨ Exited t ∈ ts).
Proof.
  induction ts as [|th ts IH]; intros i now t; simpl.
  - intros [= <-]. split_and!; [lia | by intros e ?%elem_of_nil | by left].
  - destruct th as [e|e|]; simpl; [| |done].
    + intros (Hle & Hall & Hlast)%IH. split_and!; [lia | |].
      * intros e' [[= ->]|Hin]%elem_of_cons; [lia | by apply Hall].
      * destruct Hlast as [->|Hin]; [|by right; right].
        destruct (Z.max_spec now e) as [[_ ->]|[_ ->]];
          [right; by left | by left].
    + intros (Hle & Hall & Hlast)%IH. split_and!; [done | |].
      * intros e' [[=]|Hin]%elem_of_cons. by apply Hall.
      * destruct Hlast as [->|Hin]; [by left | by right; right].
Qed.

Lemma burner_Exited E i cpu e :
  worker_end (cpu_burner E i cpu) = Exited e →
  ∃ t0 later, worker_clock E i = t0 :: later ∧ e ∈ later ∧ t0 + 20000 ≤ e.
Proof.
  unfold cpu_burner. destruct (try_except _ _ _); [|done].
  destruct (worker_clock E i) as [|t0 later]; simpl; [done|].
  intros [? ?]%burn_Exited. by exists t0, later.
Qed.

(** X11.  When the script gets past its joins at time [t], the two closing
    lines are the last things it prints, no worker is still running, every
    worker that ran its loop left it 20 s or more after its own start and
    not after [t], and [t] is the moment the main thread reached the joins
    or the moment one of the workers left its loop. *)
Theorem done_means_every_worker_finished E cpus t :
  affinity E = Ret cpus →
  ending (script E) = Returns t →
  (∃ before, trace (script E)
             = before ++ [Print LDoneLoaded; Print LCheckMpstat]) ∧
  join_start E ≤ t ∧
  (∀ i cpu, cpus !! i = Some cpu →
     worker_end (cpu_burner E i cpu) ≠ Hung ∧
     ∀ e, worker_end (cpu_burner E i cpu) = Exited e →
          e ≤ t ∧ ∃ t0 later, worker_clock E i = t0 :: later
                              ∧ e ∈ later ∧ t0 + 20000 ≤ e) ∧
  (t = join_start E ∨
   ∃ i cpu, cpus !! i = Some cpu
            ∧ worker_end (cpu_burner E i cpu) = Exited t).
Proof.
  intros Ha. unfold script. rewrite Ha. cbv zeta.
  destruct (join_all None 0 (worker_end <$> workers E cpus) (join_start E))
    as [joins [t'|]] eqn:Hj; simpl; [|done].
  intros [= ->].
  assert (Hj2 : (join_all None 0 (worker_end <$> workers E cpus)
                   (join_start E)).2 = Some t) by by rewrite Hj.
  assert (Hin : ∀ i cpu, cpus !! i = Some cpu →
            worker_end (cpu_burner E i cpu) ∈ worker_end <$> workers E cpus).
  { intros i cpu Hi. apply list_elem_of_fmap.
    exists (cpu_burner E i cpu). split; [done|].
    apply list_elem_of_lookup. exists i. unfold workers.
    by rewrite list_lookup_imap, Hi. }
  destruct (join_all_None_returns _ _ _ _ Hj2) as (Hle & Hall & Hlast).
  split_and!.
  - exists (Print (LHostPid (hostname E) (pid E))
            :: Print (LAllowedCpus cpus) :: Print (LLaunching (length cpus))
            :: ((λ cpu, ThreadStart (CpuBurner cpu) true) <$> cpus) ++ joins).
    simpl. by rewrite <- app_assoc.
  - done.
  - intros i cpu Hi. split.
    + intros Hh. apply Hin in Hi. rewrite Hh in Hi.
      apply join_all_forever with (i := 0%nat) (now := join_start E) in Hi.
      by rewrite Hi in Hj2.
    + intros e He. split; [|by apply burner_Exited in He].
      apply Hall. rewrite <- He. by apply Hin.
  - destruct Hlast as [->|Hlast]; [by left | right].
    apply list_elem_of_fmap in Hlast as (w & Hw & Hlast).
    apply list_elem_of_lookup in Hlast as [i Hi].
    apply workers_lookup in Hi as (cpu & Hcpu & ->). by exists i, cpu.
Qed.

Lemma done_means_every_worker_finished_witness :
  ending (script fallback_env) = Returns 20000 ∧
  worker_end (cpu_burner fallback_env 1 1) ≠ Hung.
Proof.
  split; [reflexivity|].
  apply (done_means_every_worker_finished fallback_env [0; 1] 20000
           eq_refl eq_refl).
  reflexivity.
Defined.

(** X12.  On a host where the affinity call raises an ordinary exception
    and the runtime knows no core count, the script dies of the
    [TypeError] of [range(None)] before it has printed a line or started a
    thread; the process exits with status 1. *)
Theorem no_core_count_is_fatal E e :
  sched_getaffinity E = Raise e → is_Exception e = true →
  cpu_count E = None →
  script E = Outcome [] [] (Raises TypeError) ∧
  stdout E = [] ∧
  exit_status true (script E) = Some 1.
Proof.
  intros Hs He Hc.
  assert (Ha : affinity E = Raise TypeError).
  { rewrite (affinity_fallback _ _ Hs He), Hc. done. }
  unfold stdout, script. rewrite Ha. done.
Qed.

Lemma no_core_count_is_fatal_witness :
  script no_count_env = Outcome [] [] (Raises TypeError) ∧
  stdout no_count_env = [] ∧
  exit_status true (script no_count_env) = Some 1.
Proof. by apply (no_core_count_is_fatal no_count_env AttributeError). Defined.

End PartitionMore.

(** ** ml_benchmark.py *)

Section BenchmarkFacts.
Import Py Argparse Load Benchmark.

Lemma run_calls_fault_free faults cs :
  ∀ k, (∀ j, faults j = None) → run_calls faults k cs = (cs, None).
Proof.
  induction cs as [|c cs IH]; intros k Hno; simpl; [done|].
  by rewrite Hno, IH.
Qed.

Lemma run_calls_prefix faults cs :
  ∀ k, (run_calls faults k cs).1 `prefix_of` cs.
Proof.
  induction cs as [|c cs IH]; intros k; simpl; [done|].
  destruct (faults k); simpl.
  - apply prefix_cons, prefix_nil.
  - apply prefix_cons, IH.
Qed.


Lemma total_samples_closed steps batch_size :
  total_samples steps batch_size = batch_size * Z.max 0 steps.
Proof.
  unfold total_samples.
  assert (H : ∀ (l : list Z) a,
            foldl (λ total _, total + batch_size) a l
            = a + batch_size * Z.of_nat (length l)).
  { induction l as [|x l IH]; intros a; simpl; [lia|]. rewrite IH. lia. }
  rewrite H, length_seqZ. lia.
Qed.

Lemma count_app p cs cs' : count p (cs ++ cs') = count p cs + count p cs'.
Proof. unfold count. rewrite List.filter_app, length_app. lia. Qed.

Lemma count_sync_loop d b i n k :
  count is_sync (flat_map (timed_step d b i n) (seqZ 0 (Z.of_nat k)))
  = if is_cuda d then Z.of_nat k / 10 else 0.
Proof.
  induction k as [|k IH].
  - by destruct d.
  - rewrite Nat2Z.inj_succ, <- Z.add_1_r, seqZ_app by lia.
    change (seqZ (0 + Z.of_nat k) 1) with [Z.of_nat k].
    rewrite flat_map_app, count_app, IH. cbn [flat_map]. rewrite app_nil_r.
    unfold timed_step. rewrite count_app. destruct d; simpl; [done|].
    change (count is_sync (train_step Cuda b i n)) with 0.
    rewrite Z.add_0_l.
    destruct (Z.eqb_spec ((Z.of_nat k + 1) `mod` 10) 0) as [Hm|Hm];
      unfold count; simpl; Z.to_euclidean_division_equations; lia.
Qed.

Lemma count_step_loop d b i n k :
  count is_step (flat_map (timed_step d b i n) (seqZ 0 (Z.of_nat k)))
  = Z.of_nat k.
Proof.
  induction k as [|k IH]; [done|].
  rewrite Nat2Z.inj_succ, <- Z.add_1_r, seqZ_app by lia.
  change (seqZ (0 + Z.of_nat k) 1) with [Z.of_nat k].
  rewrite flat_map_app, count_app, IH. cbn [flat_map]. rewrite app_nil_r.
  unfold timed_step. rewrite count_app.
  change (count is_step (train_step d b i n)) with 1.
  by destruct (is_cuda d && _); unfold count; simpl; lia.
Qed.

Lemma seqZ_max n : seqZ 0 n = seqZ 0 (Z.of_nat (Z.to_nat n)).
Proof. unfold seqZ. by rewrite Nat2Z.id. Qed.

(** X13.  A run of [one_run] in which no torch call raises returns
    normally, whatever the arguments: the throughput is the quotient of
    [batch_size * max(0, steps)] samples by the rounded elapsed time, and
    [nan] when that time is not positive, so there is no division by
    zero.  The model has stepped [max(0, steps) + 1] times by then: the
    step taken before the timer starts is not counted. *)
Theorem one_run_throughput E d steps batch_size input_dim num_classes :
  (∀ k, fault E d k = None) →
  let r := one_run E d steps batch_size input_dim num_classes in
  r.2 = Ret (if 0 <? elapsed E d
             then SamplesPerSec (batch_size * Z.max 0 steps) (elapsed E d)
             else NaN) ∧
  count is_step r.1 = Z.max 0 steps + 1.
Proof.
  intros Hno. unfold one_run. rewrite run_calls_fault_free by done.
  cbn [fst snd]. rewrite total_samples_closed. split; [done|].
  unfold calls. rewrite !count_app, seqZ_max, count_step_loop.
  change (count is_step [ManualSeed; NewMLP input_dim 4096 num_classes;
                         To d; NewSGD; NewCrossEntropyLoss]) with 0.
  change (count is_step (train_step d batch_size input_dim num_classes))
    with 1.
  assert (count is_step (sync d) = 0) as -> by by destruct d.
  lia.
Qed.

Lemma one_run_throughput_witness :
  (one_run flaky_env Cpu 0 256 4096 1000).2 = Ret NaN ∧
  (one_run flaky_env Cpu 20 256 4096 1000).2 = Ret NaN.
Proof.
  split.
  - apply (one_run_throughput flaky_env Cpu 0 256 4096 1000). done.
  - apply (one_run_throughput flaky_env Cpu 20 256 4096 1000). done.
Defined.

(** X14.  In a run of [one_run] in which no torch call raises, the CUDA
    device is synchronised [2 + max(0, steps) // 10] times (after the
    first step, after every tenth timed step, after the loop) and the CPU
    device never. *)
Theorem one_run_synchronises E d steps batch_size input_dim num_classes :
  (∀ k, fault E d k = None) →
  count is_sync (one_run E d steps batch_size input_dim num_classes).1
  = if is_cuda d then 2 + Z.max 0 steps / 10 else 0.
Proof.
  intros Hno. unfold one_run. rewrite run_calls_fault_free by done.
  cbn [fst snd]. unfold calls.
  rewrite !count_app, seqZ_max, count_sync_loop.
  change (count is_sync [ManualSeed; NewMLP input_dim 4096 num_classes;
                         To d; NewSGD; NewCrossEntropyLoss]) with 0.
  change (count is_sync (train_step d batch_size input_dim num_classes))
    with 0.
  destruct d; simpl; [done|].
  change (count is_sync (sync Cuda)) with 1.
  assert (Z.of_nat (Z.to_nat steps) = Z.max 0 steps) as -> by lia. lia.
Qed.

Lemma one_run_synchronises_witness :
  count is_sync (one_run (Env false (λ _ _, None) (λ _, 1) (Probe.OsEnv "posix" ∅))
                   Cpu 25 8 4 2).1 = 0 ∧
  count is_sync (one_run (Env true (λ _ _, None) (λ _, 1) (Probe.OsEnv "posix" ∅))
                   Cuda 25 8 4 2).1 = 4.
Proof.
  split.
  - apply (one_run_synchronises
             (Env false (λ _ _, None) (λ _, 1) (Probe.OsEnv "posix" ∅))
             Cpu 25 8 4 2). done.
  - apply (one_run_synchronises
             (Env true (λ _ _, None) (λ _, 1) (Probe.OsEnv "posix" ∅))
             Cuda 25 8 4 2). done.
Defined.

Lemma print_device_info_returns E :
  ∃ info, print_device_info E = Ret info ∧ omap verdict (Out <$> info) = []
          ∧ (Out Done ∉ Out <$> info)
          ∧ Forall (λ ev, touches_cuda ev = false) (Out <$> info).
Proof.
  unfold print_device_info.
  destruct (report_fields_returns (os E)) as [fields ->]. simpl.
  eexists. split; [done|].
  assert (Hf : omap verdict (Out <$> ((Field <$> fields) ++ [EnvFooter])) = []
               ∧ (Out Done ∉ Out <$> ((Field <$> fields) ++ [EnvFooter]))
               ∧ Forall (λ ev, touches_cuda ev = false)
                   (Out <$> ((Field <$> fields) ++ [EnvFooter]))).
  { induction fields as [|f fields (IH1 & IH2 & IH3)]; simpl.
    - split_and!; [done | | by repeat constructor].
      by intros [[=]|?%elem_of_nil]%elem_of_cons.
    - split_and!; [done | | by constructor].
      by intros [[=]|?]%elem_of_cons. }
  destruct Hf as (H1 & H2 & H3). unfold device_lines.
  destruct (cuda_available E); simpl; (split_and!; [done | | by repeat constructor]);
    intros Hin; repeat (apply elem_of_cons in Hin as [[=]|Hin]); done.
Qed.







(** *** From the command line to the namespace *)

Lemma assoc_elem {A} k (l : list (string * A)) a :
  Argparse.assoc k l = Some a → (k, a) ∈ l.
Proof.
  induction l as [|[k' a'] l IH]; simpl; [done|].
  destruct (String.eqb_spec k' k) as [->|_].
  - intros [= ->]. by left.
  - intros H. right. by apply IH.
Qed.

(** Every option token carries an action of the parser. *)
Lemma classify_one_action P tok a opt e :
  Argparse.classify_one P tok = Some (Argparse.TOpt a opt e) →
  ∃ o, (o, a) ∈ Argparse.option_strings P.
Proof.
  unfold Argparse.classify_one. destruct tok as [|c0 tok']; [done|].
  destruct (negb _); [done|].
  destruct (Argparse.assoc _ _) as [a'|] eqn:Ha.
  { intros [= <- <- <-]. eexists. by apply assoc_elem. }
  destruct (_ =? 1)%nat; [done|].
  destruct (Argparse.exact_with_explicit _ _) as [t|] eqn:Hx.
  { intros [= ->]. unfold Argparse.exact_with_explicit in Hx.
    destruct (contains _ _); [|done].
    destruct (split1 _ _) as [|o [|e' [|]]]; try done.
    destruct (Argparse.assoc o _) as [a'|] eqn:Ha'; [|done].
    injection Hx as <- <- <-. eexists. by apply assoc_elem. }
  destruct (Argparse.option_tuples _ _) as [|[[a' o'] e'] [|]] eqn:Ht;
    try done.
  - by repeat case_match.
  - intros [= <- <- <-].
    assert (Hin : (a', o', e') ∈ Argparse.option_tuples P (String c0 tok'))
      by (rewrite Ht; by left).
    unfold Argparse.option_tuples in Hin.
    destruct (Argparse.single_dash _);
      apply list_elem_of_omap in Hin as ([o a''] & Hin & Hf); simpl in Hf;
      repeat case_match; simplify_eq; by eexists.
Qed.

Lemma get_value_kind s v :
  Argparse.get_value s = Some v → (∃ z, v = VInt z) ∨ v = VEmptyList.
Proof.
  unfold Argparse.get_value. destruct (String.eqb s "--").
  - intros [= <-]. by right.
  - destruct (Argparse.python_int s) as [z|]; [|done].
    intros [= <-]. left. by eexists.
Qed.

Lemma benchmark_actions a o :
  (o, a) ∈ Argparse.option_strings Argparse.benchmark_parser →
  a = Argparse.Help
  ∨ (∃ d, a = Argparse.StoreInt d ∧ d ∈ numeric)
  ∨ a = Argparse.StoreTrue "gpu_first".
Proof.
  intros Hin. unfold option_strings in Hin. simpl in Hin.
  repeat (apply elem_of_cons in Hin as [Heq|Hin];
          [injection Heq as -> ->;
           first [ by left
                 | right; right; reflexivity
                 | right; left; eexists; split; [done|];
                   unfold numeric; by repeat constructor ]|]).
  by apply elem_of_nil in Hin.
Qed.

Lemma gpu_first_not_numeric : "gpu_first"%string ∉ numeric.
Proof.
  intros H. unfold numeric in H.
  repeat (apply elem_of_cons in H as [[=]|H]). by apply elem_of_nil in H.
Qed.

Lemma insert_numeric ns d v :
  d ∈ numeric → (∃ z, v = VInt z) ∨ v = VEmptyList →
  benchmark_namespace ns → benchmark_namespace (<[d := v]> ns).
Proof.
  intros Hd Hv [Hnum [b Hb]]. split.
  - intros name Hname. destruct (decide (name = d)) as [->|Hne].
    + rewrite lookup_insert_eq. destruct Hv as [[z ->] | ->]; [left|right];
        by try eexists.
    + rewrite lookup_insert_ne by done. by apply Hnum.
  - exists b. rewrite lookup_insert_ne; [done|].
    intros ->. by apply gpu_first_not_numeric.
Qed.

Lemma insert_gpu_first ns b :
  benchmark_namespace ns →
  benchmark_namespace (<["gpu_first"%string := VBool b]> ns).
Proof.
  intros [Hnum _]. split.
  - intros name Hname. rewrite lookup_insert_ne; [by apply Hnum|].
    intros <-. by apply gpu_first_not_numeric.
  - exists b. by rewrite lookup_insert_eq.
Qed.

Lemma consume_benchmark_namespace ts :
  ∀ ns extras ns',
    (∀ a opt e, Argparse.TOpt a opt e ∈ ts →
                ∃ o, (o, a) ∈ Argparse.option_strings
                                 Argparse.benchmark_parser) →
    benchmark_namespace ns →
    Argparse.consume Argparse.benchmark_parser ts ns extras
    = Argparse.Parsed ns' →
    benchmark_namespace ns'.
Proof.
  induction ts as [|t ts IH IH2] using token_list_ind;
    intros ns extras ns' Hact Hns.
  - simpl. destruct extras; [by intros [= <-] | done].
  - assert (Hts : ∀ a opt e, Argparse.TOpt a opt e ∈ ts →
                    ∃ o, (o, a) ∈ Argparse.option_strings
                                     Argparse.benchmark_parser).
    { intros a opt e Hin. apply (Hact a opt e). by right. }
    destruct t as [s| |a opt e|s]; simpl; try by apply IH.
    destruct (Hact a opt e) as [o Ho]; [by left|].
    apply benchmark_actions in Ho as [-> | [(d & -> & Hd) | ->]];
      destruct e as [e|]; try done.
    + by destruct (_ && _).
    + destruct (Argparse.get_value e) as [v|] eqn:Hv; [|done].
      apply IH; [done|]. apply insert_numeric; [done| |done].
      by eapply get_value_kind.
    + destruct ts as [|[s| | |] ts']; try done.
      destruct (Argparse.get_value s) as [v|] eqn:Hv; [|done].
      apply (IH2 _ _ eq_refl).
      * intros a' opt' e' Hin. apply (Hts a' opt' e'). by right.
      * apply insert_numeric; [done| |done]. by eapply get_value_kind.
    + apply IH; [done|]. by apply insert_gpu_first.
Qed.

Lemma parse_args_benchmark_namespace argv ns :
  Argparse.parse_args Argparse.benchmark_parser argv = Argparse.Parsed ns →
  benchmark_namespace ns.
Proof.
  unfold Argparse.parse_args.
  destruct (Argparse.classify _ argv) as [ts|] eqn:Hts; [|done].
  apply consume_benchmark_namespace.
  - intros a opt e Hin.
    destruct (classify_options _ _ _ _ _ _ Hts Hin) as (tok & _ & Hone).
    by eapply classify_one_action.
  - split.
    + intros name Hname. left. unfold numeric in Hname.
      repeat (apply elem_of_cons in Hname as [->|Hname];
              [by eexists|]).
      by apply elem_of_nil in Hname.
    + by exists false.
Qed.





(** X28.  Whatever command line [parse_args] of [ml_benchmark.py]
    accepts, the namespace holds a boolean under [gpu_first] and, under
    each of the four numeric flags, an integer or the empty list (which
    only [--name=--] leaves).  When the four hold integers, [main] is the
    loop of lines 162-188 on these integers and on the parsed
    [gpu_first]. *)
Theorem benchmark_main_on_integers E argv ns :
  parse_args benchmark_parser argv = Parsed ns →
  benchmark_namespace ns ∧
  ∀ s b i n g,
    ns !! "steps"%string = Some (VInt s) →
    ns !! "batch_size"%string = Some (VInt b) →
    ns !! "input_dim"%string = Some (VInt i) →
    ns !! "num_classes"%string = Some (VInt n) →
    ns !! "gpu_first"%string = Some (VBool g) →
    main E argv = main_body E (Args s b i n g).
Proof.
  intros Hparse. split; [by eapply parse_args_benchmark_namespace|].
  intros s b i n g Hs Hb Hi Hn Hg. unfold main, main_body. rewrite Hparse.
  unfold order_ns, run_ns, order, run_of. rewrite Hs, Hb, Hi, Hn, Hg.
  done.
Qed.

Lemma benchmark_main_on_integers_witness :
  benchmark_namespace
    (<["gpu_first"%string := VBool true]>
       (<["steps"%string := VInt 20]> (defaults benchmark_parser))) ∧
  main flaky_env ["--steps"; "20"; "--gpu-first"]%string
  = main_body flaky_env (Args 20 256 4096 1000 true).
Proof.
  destruct (benchmark_main_on_integers flaky_env
              ["--steps"; "20"; "--gpu-first"]%string
              (<["gpu_first"%string := VBool true]>
                 (<["steps"%string := VInt 20]> (defaults benchmark_parser)))
              eq_refl) as [Hshape Hmain].
  split; [exact Hshape|]. by apply Hmain.
Defined.

Lemma calls_on_cpu steps b i n :
  Forall (λ c, call_device c ≠ Some Cuda) (calls Cpu steps b i n).
Proof.
  unfold calls. repeat (apply Forall_app; split);
    try by repeat constructor.
  induction (seqZ 0 steps) as [|x l IH]; simpl; [done|].
  repeat (constructor; [done|]). done.
Qed.

(** X17.  On a host without CUDA, [main] does nothing that concerns the
    CUDA device, whatever the order asked for and whatever fails: no call
    names it, nothing is synchronised, the cuDNN switch is not set and no
    line reports a run on it. *)
Theorem without_cuda_nothing_touches_cuda E a :
  cuda_available E = false →
  Forall (λ ev, touches_cuda ev = false) (trace (main_body E a)).
Proof.
  intros Hcuda. unfold main_body, main_with.
  destruct (print_device_info_returns E) as (info & -> & _ & _ & Hinfo).
  assert (Hdev : ∀ d, Forall (λ ev, touches_cuda ev = false)
                        (run_device E a d).1).
  { intros d. unfold run_device, run_device_with, run_of. rewrite Hcuda.
    destruct d; simpl; [|by repeat constructor].
    set (r := one_run E Cpu _ _ _ _).
    assert (Ht : Forall (λ ev, touches_cuda ev = false) (Torch <$> r.1)).
    { apply Forall_fmap.
      assert (Hp : r.1 `prefix_of` calls Cpu (steps a) (batch_size a)
                                     (input_dim a) (num_classes a)).
      { unfold r, one_run.
        pose proof (run_calls_prefix (fault E Cpu)
                      (calls Cpu (steps a) (batch_size a) (input_dim a)
                         (num_classes a)) 0) as Hp.
        by destruct (run_calls _ _ _).2. }
      destruct Hp as [tl Hp].
      pose proof (calls_on_cpu (steps a) (batch_size a) (input_dim a)
                    (num_classes a)) as Hall.
      rewrite Hp in Hall. apply Forall_app in Hall as [Hall _].
      eapply Forall_impl; [exact Hall|]. intros c Hc. simpl in *.
      destruct (call_device c) as [[]|]; congruence. }
    destruct (r.2) as [sps|[]]; simpl; constructor; try done;
      try (apply Forall_app; split; [done | by repeat constructor]). }
  assert (Hdevs : ∀ devs, Forall (λ ev, touches_cuda ev = false)
                            (run_devices E a devs).1).
  { unfold run_devices. induction devs as [|d devs IH]; simpl; [done|].
    fold (run_device E a d).
    destruct (run_device E a d).2 eqn:H2; [apply Hdev|].
    simpl. apply Forall_app. split; [apply Hdev | done]. }
  fold (run_devices E a (order a)).
  destruct (run_devices E a (order a)).2; simpl.
  - apply Forall_app. split; [done | apply Hdevs].
  - apply Forall_app. split; [done|]. apply Forall_app.
    split; [apply Hdevs | by repeat constructor].
Qed.

Lemma without_cuda_nothing_touches_cuda_witness :
  Forall (λ ev, touches_cuda ev = false)
    (trace (main_body interrupted_env (Args 3 2 4 2 true))).
Proof. by apply (without_cuda_nothing_touches_cuda interrupted_env). Defined.

End BenchmarkFacts.

(** ** mpi_mig_test.py: the helpers *)

Section MigTestFacts.
Import Py MigTest.

Lemma append_cons c s t : (String c s +:+ t = String c (s +:+ t))%string.
Proof. done. Qed.

Lemma append_assoc s t u : ((s +:+ t) +:+ u = s +:+ (t +:+ u))%string.
Proof.
  induction s as [|c s IH]; [done|]. by rewrite !append_cons, IH.
Qed.

Lemma length_append s t :
  String.length (s +:+ t) = (String.length s + String.length t)%nat.
Proof.
  induction s as [|c s IH]; [done|]. rewrite append_cons. simpl. by rewrite IH.
Qed.

Lemma prefix_empty s : String.prefix "" s = true.
Proof. by destruct s. Qed.

Lemma prefix_self_app sep post : String.prefix sep (sep +:+ post) = true.
Proof.
  induction sep as [|a sep IH]; [apply prefix_empty|].
  rewrite append_cons. simpl. by destruct (ascii_dec a a).
Qed.

Lemma prefix_long sep :
  ∀ x y, (String.length sep ≤ String.length x)%nat →
         String.prefix sep (x +:+ y) = String.prefix sep x.
Proof.
  induction sep as [|a sep IH]; intros x y Hlen.
  - by rewrite !prefix_empty.
  - destruct x as [|b x]; [simpl in Hlen; lia|].
    rewrite append_cons. simpl. destruct (ascii_dec a b); [|done].
    apply IH. simpl in Hlen. lia.
Qed.

Lemma contains_sub_unfold sub s :
  contains_sub sub s
  = String.prefix sub s
    || match s with
       | EmptyString => false
       | String _ s' => contains_sub sub s'
       end.
Proof. by destruct s. Qed.

Lemma contains_sub_app sep pre post :
  contains_sub sep (pre +:+ sep +:+ post) = true.
Proof.
  induction pre as [|c pre IH]; rewrite contains_sub_unfold.
  - change ("" +:+ sep +:+ post)%string with (sep +:+ post)%string.
    by rewrite prefix_self_app.
  - rewrite append_cons, IH. apply orb_true_r.
Qed.

Lemma split_str_from_cons sep c s :
  split_str_from sep 0 (String c s)
  = if String.prefix sep (String c s)
    then EmptyString :: split_str_from sep (String.length sep - 1) s
    else match split_str_from sep 0 s with
         | f :: fs => String c f :: fs
         | [] => [String c EmptyString]
         end.
Proof. done. Qed.

Lemma split_str_skip sep x post :
  split_str_from sep (String.length x) (x +:+ post) = split_str sep post.
Proof. induction x as [|c x IH]; [done|]. by rewrite append_cons. Qed.

(** A string without the separator is one field. *)
Lemma split_str_none sep s :
  contains_sub sep s = false → split_str sep s = [s].
Proof.
  unfold split_str. induction s as [|c s IH]; [done|].
  rewrite contains_sub_unfold. intros [Hp Hc]%orb_false_elim.
  by rewrite split_str_from_cons, Hp, IH.
Qed.

(** The first field ends where the separator first occurs: no occurrence
    starts inside [pre], [ini] being the separator without its last
    character. *)
Lemma split_str_first a rest ini tl pre post :
  String a rest = (ini +:+ tl)%string →
  (String.length rest ≤ String.length ini)%nat →
  contains_sub (String a rest) (pre +:+ ini) = false →
  split_str (String a rest) (pre +:+ String a rest +:+ post)
  = pre :: split_str (String a rest) post.
Proof.
  intros Hsep Hlen. unfold split_str. induction pre as [|c pre IH].
  - intros _.
    change ("" +:+ String a rest +:+ post)%string
      with (String a (rest +:+ post)).
    rewrite split_str_from_cons.
    rewrite <- append_cons, prefix_self_app.
    replace (String.length (String a rest) - 1)%nat with (String.length rest)
      by (simpl; lia).
    by rewrite split_str_skip.
  - rewrite append_cons, contains_sub_unfold.
    intros [Hp Hc]%orb_false_elim.
    rewrite append_cons, split_str_from_cons, (IH Hc).
    replace (String c (pre +:+ String a rest +:+ post))
      with (String c (pre +:+ ini) +:+ (tl +:+ post))%string.
    + rewrite prefix_long, Hp; [done|].
      simpl. rewrite length_append. lia.
    + by rewrite append_cons, Hsep, !append_assoc.
Qed.

(** X18.  [get_cpu_affinity] never raises.  It answers ["error"] when
    [taskset] cannot be run, ["unknown"] when its output does not hold
    [list:], and otherwise what follows the first [list:], stripped (here
    for an output that holds [list:] only once). *)
Theorem get_cpu_affinity_cases E :
  (∀ e, taskset E = Raise e → get_cpu_affinity E = Ret "error"%string) ∧
  (∀ stdout, taskset E = Ret stdout → contains_sub "list:" stdout = false →
             get_cpu_affinity E = Ret "unknown"%string) ∧
  (∀ pre post,
     taskset E = Ret (pre +:+ "list:" +:+ post)%string →
     contains_sub "list:" (pre +:+ "list") = false →
     contains_sub "list:" post = false →
     get_cpu_affinity E = Ret (strip post)).
Proof.
  unfold get_cpu_affinity. split_and!.
  - by intros e ->.
  - intros stdout -> Hc. simpl. by rewrite Hc.
  - intros pre post -> Hpre Hpost. simpl.
    rewrite contains_sub_app.
    rewrite (split_str_first "l" "ist:" "list" ":" pre post eq_refl)
      by (simpl; lia || done).
    by rewrite split_str_none.
Qed.

Lemma scan_mig_skip before rest :
  Forall (λ l, contains_sub "mig" l = false ∨ contains_sub "::" l = false)
         before →
  scan_mig (before ++ rest) = scan_mig rest.
Proof.
  induction 1 as [|l before Hl _ IH]; [done|].
  simpl. destruct (contains_sub "mig" l); [|done].
  destruct Hl as [?|Hl]; [done|]. by rewrite split_str_none.
Qed.

Lemma readlines_lines lines : readlines (inr <$> lines) = Ret lines.
Proof.
  induction lines as [|l lines IH]; [done|].
  rewrite fmap_cons. cbn [readlines]. by rewrite IH.
Qed.

Lemma readlines_fails reads e :
  inl e ∈ reads → ∃ e', readlines reads = Raise e'.
Proof.
  induction reads as [|[e'|l] reads IH]; simpl.
  - by intros ?%elem_of_nil.
  - intros _. by eexists.
  - intros [[=]|Hin]%elem_of_cons. destruct (IH Hin) as [e' ->]. by eexists.
Qed.

(** X19.  [get_cgroup] answers ["error"] when the cgroup file of the
    process is missing or cannot be opened, and also when any read of it
    fails, wherever in the file: the lines are all read before the first
    is looked at, so a line naming a mig cgroup before the failure is
    lost. *)
Theorem get_cgroup_reads_the_whole_file E :
  let path := ("/proc/" +:+ pretty (pid E) +:+ "/cgroup")%string in
  (fs E !! path = None → get_cgroup E = Ret "error"%string) ∧
  (∀ e, fs E !! path = Some (Unopenable e) →
        get_cgroup E = Ret "error"%string) ∧
  (∀ reads e, fs E !! path = Some (Opens reads) → inl e ∈ reads →
              get_cgroup E = Ret "error"%string).
Proof.
  intros path. unfold get_cgroup, open. fold path. split_and!.
  - by intros ->.
  - by intros e ->.
  - intros reads e -> Hin. simpl.
    by destruct (readlines_fails reads e Hin) as [e' ->].
Qed.

(** X20.  When the cgroup file is read to its end, [get_cgroup] answers
    for the first line that holds both [mig] and [::]: what follows the
    [::], stripped (here for a line that holds [::] only once).  Lines
    that lack either are passed over, and without such a line the answer
    is ["no mig cgroup"]. *)
Theorem get_cgroup_first_mig_line E lines :
  fs E !! ("/proc/" +:+ pretty (pid E) +:+ "/cgroup")%string
  = Some (Opens (inr <$> lines)) →
  (Forall (λ l, contains_sub "mig" l = false ∨ contains_sub "::" l = false)
          lines →
   get_cgroup E = Ret "no mig cgroup"%string) ∧
  (∀ before pre post after,
     lines = before ++ (pre +:+ "::" +:+ post)%string :: after →
     Forall (λ l, contains_sub "mig" l = false ∨ contains_sub "::" l = false)
            before →
     contains_sub "mig" (pre +:+ "::" +:+ post) = true →
     contains_sub "::" (pre +:+ ":") = false →
     contains_sub "::" post = false →
     get_cgroup E = Ret (strip post)).
Proof.
  intros Hfs. unfold get_cgroup, open. rewrite Hfs. simpl.
  rewrite readlines_lines. simpl. split.
  - intros Hall. rewrite <- (app_nil_r lines). by rewrite scan_mig_skip.
  - intros before pre post after -> Hbefore Hmig Hpre Hpost.
    rewrite scan_mig_skip by done. simpl. rewrite Hmig.
    rewrite (split_str_first ":" ":" ":" ":" pre post eq_refl)
      by (simpl; lia || done).
    by rewrite split_str_none.
Qed.

Lemma get_cgroup_first_mig_line_witness :
  get_cgroup mig0_rank = Ret "/mig/mig0"%string.
Proof.
  destruct (get_cgroup_first_mig_line mig0_rank
              ["1:name=systemd:/user.slice/mig
"%string; "0::/mig/mig0
"%string] eq_refl) as [_ H].
  apply (H ["1:name=systemd:/user.slice/mig
"%string] "0"%string "/mig/mig0
"%string []); try done.
  by repeat constructor; right.
Defined.

Lemma split_one_field sep f :
  contains sep f = false → split sep f = [f].
Proof.
  induction f as [|c f IH]; simpl; [done|].
  intros [-> Hc]%orb_false_elim. by rewrite IH.
Qed.

Lemma split_field sep f rest :
  contains sep f = false →
  split sep (f +:+ String sep rest) = f :: split sep rest.
Proof.
  induction f as [|c f IH].
  - intros _. change ("" +:+ String sep rest)%string with (String sep rest).
    simpl. by rewrite Ascii.eqb_refl.
  - simpl. intros [Hc Hf]%orb_false_elim.
    by rewrite Hc, IH.
Qed.

(** Splitting undoes joining. *)
Lemma split_join sep fields :
  fields ≠ [] → Forall (λ f, contains sep f = false) fields →
  split sep (join (String sep "") fields) = fields.
Proof.
  intros Hne Hall. induction Hall as [|f fields Hf Hall IH]; [done|].
  destruct fields as [|f' fields].
  - by apply split_one_field.
  - change (join (String sep "") (f :: f' :: fields))
      with (f +:+ String sep (join (String sep "") (f' :: fields)))%string.
    rewrite split_field by done. by rewrite IH.
Qed.

(** X21.  [get_gpu_info] never raises: it answers 0 when [nvidia-smi]
    cannot be run, and otherwise the number of lines of its output that
    hold [MIG], the output being its lines joined by newlines. *)
Theorem get_gpu_info_counts_mig_lines E :
  (∀ e, nvidia_smi E = Raise e → get_gpu_info E = Ret 0%nat) ∧
  (∀ lines,
     nvidia_smi E = Ret (join (String "010" "") lines) →
     lines ≠ [] → Forall (λ l, contains "010" l = false) lines →
     get_gpu_info E
     = Ret (length (List.filter (contains_sub "MIG") lines))).
Proof.
  unfold get_gpu_info. split.
  - by intros e ->.
  - intros lines -> Hne Hall. simpl. by rewrite split_join.
Qed.

End MigTestFacts.

(** ** The MPI scripts: opening, closing and the barriers *)

Section MpiFacts.
Import Py Mpi.

Lemma run_fault_free faults plan :
  ∀ k, (∀ j, faults j = None) → run faults k plan = (plan, None).
Proof.
  induction plan as [|ev plan IH]; intros k Hno; simpl; [done|].
  by rewrite Hno, IH.
Qed.

(** With every rank of the ring posting, [Waitall] comes back. *)
Lemma ring_exchanged junk size rank :
  2 ≤ size → 0 ≤ rank < size →
  ∃ recvbuf ok, Ring.main junk size rank = Ring.Exchanged recvbuf ok.
Proof.
  intros Hsize Hrank. unfold Ring.main.
  destruct (Z.ltb_spec size 2) as [?|_]; [lia|].
  unfold Ring.waitall.
  rewrite recv_finds_left, send_finds_right by done.
  unfold Ring.deliver, Ring.post_send, Ring.post_recv. simpl Ring.s_buf.
  simpl Ring.r_buf. unfold Ring.np_full.
  rewrite length_replicate, length_np_empty. unfold Ring.n.
  simpl Nat.leb. cbv iota. by eexists _, _.
Qed.

Lemma exchange_ends junk size rank report after :
  2 ≤ size → 0 ≤ rank < size →
  ∃ recvbuf ok,
    exchange junk size rank report after
    = ([Do (Irecv (Ring.src rank size) 100);
        Do (Isend (Ring.dst rank size) 100); Do Waitall;
        Say (report rank (Ring.src rank size) recvbuf ok)] ++ after, Ends).
Proof.
  intros Hsize Hrank. unfold exchange.
  destruct (ring_exchanged junk size rank Hsize Hrank) as (buf & ok & ->).
  by exists buf, ok.
Qed.

Lemma body_ends_buffers E size rank :
  size < 2 ∨ 0 ≤ rank < size →
  (BuffersTest.body E size rank).2 = Ends.
Proof.
  intros Hvalid. unfold BuffersTest.body.
  destruct (Z.ltb_spec size 2) as [?|Hsize]; [done|].
  destruct Hvalid as [?|Hrank]; [lia|].
  by destruct (exchange_ends (BuffersTest.junk E) size rank RecvFrom
                 (Do Barrier :: if rank =? 0 then [Say AllReached] else [])
                 Hsize Hrank) as (buf & ok & ->).
Qed.

Lemma helpers_return E :
  ∃ cpu_affinity cgroup gpu_count,
    MigTest.get_cpu_affinity E = Ret cpu_affinity
    ∧ MigTest.get_cgroup E = Ret cgroup
    ∧ MigTest.get_gpu_info E = Ret gpu_count.
Proof.
  unfold MigTest.get_cpu_affinity, MigTest.get_cgroup, MigTest.get_gpu_info.
  destruct (bind (MigTest.taskset E) _), (bind (open _ _) _),
    (bind (MigTest.nvidia_smi E) _); simpl; by eexists _, _, _.
Qed.

Lemma body_ends_mig E size rank cpu_affinity cgroup gpu_count :
  size < 2 ∨ 0 ≤ rank < size →
  (MigTest.body E size rank cpu_affinity cgroup gpu_count).2 = Ends.
Proof.
  intros Hvalid. unfold MigTest.body.
  destruct (Z.ltb_spec size 2) as [?|Hsize]; [done|].
  destruct Hvalid as [?|Hrank]; [lia|].
  by destruct (exchange_ends (MigTest.junk E) size rank Received
                 (Do Barrier :: if rank =? 0 then [Say Results] else [])
                 Hsize Hrank) as (buf & ok & ->).
Qed.

(** X24.  In a run in which nothing raises, the number of barriers a rank
    reaches depends on the size of the communicator alone, not on the
    rank: none or one in [mpi_cpu_test_buffers.py], one or two in
    [mpi_mig_test.py], which reaches its first barrier before it looks at
    the size.  So no rank waits at a barrier that another rank of the same
    run never reaches. *)
Theorem barriers_depend_on_size_alone E E' size rank :
  (∀ k, BuffersTest.faults E k = None) →
  (∀ k, MigTest.faults E' k = None) →
  size < 2 ∨ 0 ≤ rank < size →
  barriers (BuffersTest.main E size rank)
  = (if size <? 2 then 0%nat else 1%nat) ∧
  barriers (MigTest.main E' size rank)
  = (if size <? 2 then 1%nat else 2%nat).
Proof.
  intros Hno Hno' Hvalid. unfold barriers. split.
  - unfold BuffersTest.main, guarded_main.
    rewrite Hno, run_fault_free by done.
    rewrite (body_ends_buffers E size rank Hvalid).
    cbn [fst snd]. unfold BuffersTest.body.
    destruct (Z.ltb_spec size 2) as [?|Hsize].
    + by destruct (rank =? 0), (BuffersTest.final_fault E).
    + destruct Hvalid as [?|Hrank]; [lia|].
      destruct (exchange_ends (BuffersTest.junk E) size rank RecvFrom
                  (Do Barrier :: if rank =? 0 then [Say AllReached] else [])
                  Hsize Hrank) as (buf & ok & ->).
      by destruct (rank =? 0), (BuffersTest.final_fault E).
  - unfold MigTest.main, guarded_main.
    destruct (helpers_return E') as (a & c & g & -> & -> & ->).
    rewrite Hno', run_fault_free by done.
    rewrite (body_ends_mig E' size rank a c g Hvalid).
    cbn [fst snd]. unfold MigTest.body.
    destruct (Z.ltb_spec size 2) as [?|Hsize].
    + by destruct (rank =? 0), (MigTest.final_fault E').
    + destruct Hvalid as [?|Hrank]; [lia|].
      destruct (exchange_ends (MigTest.junk E') size rank Received
                  (Do Barrier :: if rank =? 0 then [Say Results] else [])
                  Hsize Hrank) as (buf & ok & ->).
      by destruct (rank =? 0), (MigTest.final_fault E').
Qed.

Lemma barriers_depend_on_size_alone_witness :
  barriers (BuffersTest.main (BuffersTest.Env (λ _, None) None (λ _ _, 7)) 3 2)
  = 1%nat ∧
  barriers (MigTest.main MigTest.mig0_rank 3 2) = 2%nat.
Proof.
  apply (barriers_depend_on_size_alone
           (BuffersTest.Env (λ _, None) None (λ _ _, 7)) MigTest.mig0_rank 3 2);
    [done | done | right; lia].
Defined.

End MpiFacts.

(** ** Abbreviated flags *)

Section AbbreviationFacts.
Import Py Argparse.

Lemma prefix_cases p a l :
  String.prefix p (String a l) = true →
  p = EmptyString ∨ ∃ p', p = String a p' ∧ String.prefix p' l = true.
Proof.
  destruct p as [|c p]; [by left|]. simpl.
  destruct (ascii_dec c a) as [->|]; [|done]. right. by exists p.
Qed.

Lemma prefix_of_empty p : String.prefix p "" = true → p = EmptyString.
Proof. by destruct p. Qed.

(** A text that [int()] accepts is stored as its value. *)
Lemma get_value_int s z : python_int s = Some z → get_value s = Some (VInt z).
Proof.
  intros Hs. unfold get_value.
  destruct (String.eqb_spec s "--") as [->|_]; [done|]. by rewrite Hs.
Qed.

(** X25.  The parser of [stress_long.py] takes every abbreviation of
    [--seconds] of three characters or more, down to [--s], for the flag
    itself: given as [<abbreviation>=<value>] with a value that [int()]
    accepts, it stores the value as [seconds] and leaves the other flags
    at their defaults. *)
Theorem abbreviated_flag_is_taken p s z :
  String.prefix p "--seconds" = true →
  (3 ≤ String.length p)%nat →
  python_int s = Some z →
  parse_args stress_parser [(p +:+ "=" +:+ s)%string]
  = Parsed (<["seconds"%string := VInt z]> (defaults stress_parser)).
Proof.
  intros Hp Hlen Hs. apply get_value_int in Hs.
  assert (Hc : classify stress_parser [(p +:+ "=" +:+ s)%string]
               = Some [TOpt (StoreInt "seconds") "--seconds" (Some s)]).
  { repeat (apply prefix_cases in Hp as [->|(? & -> & Hp)];
            [first [simpl in Hlen; lia | reflexivity]|]).
    apply prefix_of_empty in Hp as ->. reflexivity. }
  unfold parse_args. rewrite Hc. cbn [consume]. by rewrite Hs.
Qed.

Lemma abbreviated_flag_is_taken_witness :
  parse_args stress_parser ["--sec= 1_0 "%string]
  = Parsed (<["seconds"%string := VInt 10]> (defaults stress_parser)).
Proof.
  apply (abbreviated_flag_is_taken "--sec" " 1_0 " 10);
    [reflexivity | simpl; lia | reflexivity].
Defined.

End AbbreviationFacts.

(** ** Where the cgroup probe looks *)

Section CpusetPathFacts.
Import Py Probe.

Lemma lstrip_slash_relative s : startswith (lstrip_slash s) "/" = false.
Proof.
  unfold startswith, lstrip_slash. induction s as [|c s IH]; [done|].
  simpl. destruct (Ascii.eqb_spec c "/") as [->|Hc]; [done|].
  change (String.prefix "/" (String c s))
    with (if ascii_dec "/" c then String.prefix "" s else false).
  by destruct (ascii_dec "/" c) as [<-|].
Qed.

Lemma endswith_slash_app a c x :
  endswith_slash (a +:+ String c x) = endswith_slash (String c x).
Proof.
  induction a as [|b a IH]; [done|].
  rewrite append_cons. rewrite <- IH.
  simpl. by destruct (a +:+ String c x)%string eqn:Ha; [destruct a|].
Qed.

Lemma endswith_slash_snoc x : endswith_slash (x +:+ "/") = true.
Proof. by rewrite endswith_slash_app. Qed.

(** X26.  The path the cgroup probe builds for a line of
    [/proc/self/cgroup] always begins with [/sys/fs/cgroup/] and ends with
    the file name [cpuset.cpus] after a slash: whatever the line holds,
    leading slashes of its path field are dropped, so the field cannot
    replace the directory, and the root cgroup [/] gives
    [/sys/fs/cgroup/cpuset.cpus]. *)
Theorem cpuset_path_stays_under_sys_fs_cgroup line p :
  cpuset_path_of line = Some p →
  ∃ mid, p = ("/sys/fs/cgroup/" +:+ mid +:+ "cpuset.cpus")%string
         ∧ startswith mid "/" = false
         ∧ (mid = EmptyString ∨ endswith_slash mid = true).
Proof.
  unfold cpuset_path_of.
  destruct (split ":" (strip line)) as [|p0 [|p1 [|p2 [|? ?]]]]; try done.
  destruct (String.eqb p0 "0"); [|done]. intros [= <-].
  unfold path_join. pose proof (lstrip_slash_relative p2) as Hrel.
  set (x := lstrip_slash p2) in *.
  assert (H1 : path_join2 "/sys/fs/cgroup" x = ("/sys/fs/cgroup/" +:+ x)%string).
  { unfold path_join2. by rewrite Hrel. }
  rewrite H1. unfold path_join2.
  change (startswith "cpuset.cpus" "/") with false. cbv iota.
  change (String.eqb ("/sys/fs/cgroup/" +:+ x) "") with false.
  rewrite orb_false_l. destruct x as [|c x].
  - exists EmptyString. split_and!; [done | done | by left].
  - rewrite (endswith_slash_app "/sys/fs/cgroup/" c x).
    destruct (endswith_slash (String c x)) eqn:Hend.
    + exists (String c x). split_and!; [done | done | by right].
    + exists (String c x +:+ "/")%string. split_and!.
      * by rewrite !append_assoc.
      * unfold startswith in *. by rewrite prefix_long by (simpl; lia).
      * right. apply endswith_slash_snoc.
Qed.

Lemma cpuset_path_stays_under_sys_fs_cgroup_witness :
  ∃ mid, ("/sys/fs/cgroup/cpuset.cpus"
          = "/sys/fs/cgroup/" +:+ mid +:+ "cpuset.cpus")%string
         ∧ startswith mid "/" = false
         ∧ (mid = EmptyString ∨ endswith_slash mid = true).
Proof.
  apply (cpuset_path_stays_under_sys_fs_cgroup "0::/
"). reflexivity.
Defined.

End CpusetPathFacts.
